(** * LibreDash: framebuffer primitives, dashboard model and renderer

    A shallow embedding of the C sources of LibreDash (bare-metal
    Raspberry Pi dashboard): [framebuffer.h] and [framebuffer.c]
    (mailbox negotiation and drawing primitives), [dashboard.h] and
    [dashboard.c] (element collection and per-element rendering) and
    [kernel.c] (the demonstration and its animation loop), followed by
    the properties of the specification that concern them and by
    properties of the rest of the code.

    Conventions.
    - A [uint32_t] is a [Z] in [0, 2^32); arithmetic on it wraps, and the
      wrap-around is written out with the operations of module [U32].
    - A [float] is an IEEE-754 binary32 number, a [spec_float] of the
      Standard Library with precision 24 and maximal exponent 128
      (module [F32]).
    - The pixel memory reached through [fb->buffer] is a finite map from
      word offsets to 32-bit words; the handle itself is a record.
    - A [void] C function that mutates an object is a function returning
      the new object. *)

From Stdlib Require Import ZArith Lia Bool List.
From Stdlib.Floats Require Import SpecFloat.
From stdpp Require Import gmap list.

Local Open Scope Z_scope.

(** ** 32-bit unsigned arithmetic *)

Module U32.

Definition modulus : Z := 2 ^ 32.

Definition wrap (z : Z) : Z := z mod modulus.

Definition add (a b : Z) : Z := wrap (a + b).

Definition sub (a b : Z) : Z := wrap (a - b).

Definition mul (a b : Z) : Z := wrap (a * b).

Definition in_range (z : Z) : Prop := 0 <= z < modulus.

End U32.

(** ** C [for] loops with a [uint32_t] counter

    [for (uint32_t i = 0; i < n; i++) body(i)]: the counter runs through
    [0 .. n-1] and cannot wrap before reaching [n]. *)

Fixpoint for_loop {S : Type} (k : nat) (i : Z) (body : Z -> S -> S) (s : S) : S :=
  match k with
  | O => s
  | Datatypes.S k' => for_loop k' (i + 1) body (body i s)
  end.

Definition for_u32 {S : Type} (n : Z) (body : Z -> S -> S) (s : S) : S :=
  for_loop (Z.to_nat n) 0 body s.

(** ** framebuffer.h *)

Record framebuffer_t : Type := {
  fb_width : Z;
  fb_height : Z;
  fb_pitch : Z;
  fb_buffer : Z
}.

Definition RGB (r g b : Z) : Z := Z.lor (Z.lor (Z.shiftl r 16) (Z.shiftl g 8)) b.

Definition COLOR_BLACK : Z := RGB 0 0 0.
Definition COLOR_RED : Z := RGB 255 0 0.
Definition COLOR_GREEN : Z := RGB 0 255 0.
Definition COLOR_BLUE : Z := RGB 0 0 255.
Definition COLOR_YELLOW : Z := RGB 255 255 0.
Definition COLOR_CYAN : Z := RGB 0 255 255.
Definition COLOR_MAGENTA : Z := RGB 255 0 255.
Definition COLOR_GRAY : Z := RGB 128 128 128.

(** ** framebuffer.c: drawing primitives

    The state is the memory behind [fb->buffer], addressed by word
    offset; [fb_index] is the offset [y * (fb->pitch / 4) + x] as the
    code computes it, in 32-bit unsigned arithmetic. *)

Definition fb_index (fb : framebuffer_t) (x y : Z) : Z :=
  U32.add (U32.mul y (fb_pitch fb / 4)) x.

Definition fb_clear (fb : framebuffer_t) (color : Z) (mem : gmap Z Z) : gmap Z Z :=
  for_u32 (fb_height fb) (fun y =>
    for_u32 (fb_width fb) (fun x m => <[fb_index fb x y := color]> m)) mem.

Definition fb_draw_pixel (fb : framebuffer_t) (x y color : Z) (mem : gmap Z Z) : gmap Z Z :=
  if (fb_width fb <=? x) || (fb_height fb <=? y) then mem
  else <[fb_index fb x y := color]> mem.

Definition fb_draw_rect (fb : framebuffer_t) (x y w h color : Z) (mem : gmap Z Z) : gmap Z Z :=
  let mem1 :=
    for_u32 w (fun i m =>
      fb_draw_pixel fb (U32.add x i) (U32.sub (U32.add y h) 1) color
        (fb_draw_pixel fb (U32.add x i) y color m)) mem in
  for_u32 h (fun i m =>
    fb_draw_pixel fb (U32.sub (U32.add x w) 1) (U32.add y i) color
      (fb_draw_pixel fb x (U32.add y i) color m)) mem1.

Definition fb_draw_filled_rect (fb : framebuffer_t) (x y w h color : Z) (mem : gmap Z Z) : gmap Z Z :=
  for_u32 h (fun j =>
    for_u32 w (fun i m => fb_draw_pixel fb (U32.add x i) (U32.add y j) color m)) mem.

(** The words of the buffer that hold a pixel of the [width] by [height]
    region. *)

Definition in_region (fb : framebuffer_t) (i : Z) : Prop :=
  exists px py, 0 <= px < fb_width fb /\ 0 <= py < fb_height fb /\ i = fb_index fb px py.

(** ** IEEE-754 binary32, the C type [float] *)

Module F32.

Definition prec : Z := 24.
Definition emax : Z := 128.

Definition zero : spec_float := S754_zero false.

(** [1.0f], [0.8f] and [0.6f]: the binary32 numbers nearest to the
    decimal literals of the source. *)
Definition one : spec_float := S754_finite false 8388608 (-23).
Definition c0_8 : spec_float := S754_finite false 13421773 (-24).
Definition c0_6 : spec_float := S754_finite false 10066330 (-24).

Definition sub : spec_float -> spec_float -> spec_float := SFsub prec emax.
Definition mul : spec_float -> spec_float -> spec_float := SFmul prec emax.
Definition div : spec_float -> spec_float -> spec_float := SFdiv prec emax.

Definition ltb : spec_float -> spec_float -> bool := SFltb.
Definition leb : spec_float -> spec_float -> bool := SFleb.
Definition eqb : spec_float -> spec_float -> bool := SFeqb.

(** Conversion of an integer to [float], rounding to nearest even. *)
Definition of_Z (z : Z) : spec_float := binary_normalize prec emax z 0 false.

(** [(uint32_t) f]: truncation toward zero.  ISO C leaves the conversion
    of a NaN or of a value outside [0, 2^32) undefined; the ARM target
    of the build converts NaN and negative values to 0 and saturates
    large values at [2^32 - 1], which is what is modelled. *)
Definition to_u32 (f : spec_float) : Z :=
  match f with
  | S754_finite false m e =>
      Z.min (U32.modulus - 1)
        (match e with
         | Zneg p => Z.shiftr (Zpos m) (Zpos p)
         | _ => Z.shiftl (Zpos m) e
         end)
  | S754_infinity false => U32.modulus - 1
  | _ => 0
  end.

Definition is_nan (f : spec_float) : bool :=
  match f with S754_nan => true | _ => false end.

Definition is_finite (f : spec_float) : bool :=
  match f with S754_zero _ | S754_finite _ _ _ => true | _ => false end.

(** The representations that are binary32 numbers: canonical mantissa
    and exponent in range.  Every value of a C [float] is one. *)
Definition valid (f : spec_float) : bool := valid_binary prec emax f.

Definition add : spec_float -> spec_float -> spec_float := SFadd prec emax.

(** [0.5f], [100.0f] and [0.7f], the literals of [kernel.c]. *)
Definition c0_5 : spec_float := S754_finite false 8388608 (-24).

End F32.

(** ** dashboard.h *)

(** The enum [dash_element_type_t], in the order of its declaration. *)
Inductive dash_element_type_t : Type :=
  | DASH_ELEMENT_GAUGE
  | DASH_ELEMENT_LABEL
  | DASH_ELEMENT_GRAPH
  | DASH_ELEMENT_VALUE.

(** The struct [dash_element_t], field by field: the type, the geometry
    [x], [y], [width], [height] and the colour, all [uint32_t], the
    label (a [char[64]], here the characters before its NUL), and the
    three [float]s [value], [min_value] and [max_value]. *)
Record dash_element_t : Type := {
  el_type : dash_element_type_t;
  el_x : Z;
  el_y : Z;
  el_width : Z;
  el_height : Z;
  el_color : Z;
  el_label : list Z;
  el_value : spec_float;
  el_min_value : spec_float;
  el_max_value : spec_float
}.

(** The struct [dashboard_t]: the name (a [char[128]], here the
    characters before its NUL), the count [uint32_t element_count] and
    the array [dash_element_t elements[32]]. *)
Record dashboard_t : Type := {
  name : list Z;
  element_count : Z;
  elements : list dash_element_t
}.

(** The length of the array [elements]. *)
Definition MAX_ELEMENTS : Z := 32.

(** The invariant of a dashboard object: 32 slots, at most 32 in use. *)
Definition dashboard_wf (d : dashboard_t) : Prop :=
  length (elements d) = Z.to_nat MAX_ELEMENTS /\ 0 <= element_count d <= MAX_ELEMENTS.

(** ** dashboard.c: the collection *)

(** [str_copy]: copies characters until a NUL or until [max_len - 1] of
    them are copied; the source is the list of its characters. *)
Fixpoint str_copy_loop (n : nat) (src : list Z) : list Z :=
  match n, src with
  | Datatypes.S n', c :: src' => if c =? 0 then [] else c :: str_copy_loop n' src'
  | _, _ => []
  end.

Definition str_copy (src : list Z) (max_len : Z) : list Z :=
  str_copy_loop (Z.to_nat (U32.sub max_len 1)) src.

Definition dashboard_init (dash : dashboard_t) (nm : list Z) : dashboard_t :=
  {| name := str_copy nm 128; elements := elements dash; element_count := 0 |}.

Definition dashboard_add_element (dash : dashboard_t) (element : dash_element_t) : dashboard_t :=
  if element_count dash <? 32 then
    {| name := name dash;
       elements := <[Z.to_nat (element_count dash) := element]> (elements dash);
       element_count := U32.add (element_count dash) 1 |}
  else dash.

Definition set_value (value : spec_float) (e : dash_element_t) : dash_element_t :=
  {| el_type := el_type e; el_x := el_x e; el_y := el_y e;
     el_width := el_width e; el_height := el_height e; el_color := el_color e;
     el_label := el_label e;
     el_value := value; el_min_value := el_min_value e; el_max_value := el_max_value e |}.

Definition dashboard_update_value (dash : dashboard_t) (element_id : Z) (value : spec_float) : dashboard_t :=
  if element_id <? element_count dash then
    {| name := name dash;
       elements := alter (set_value value) (Z.to_nat element_id) (elements dash);
       element_count := element_count dash |}
  else dash.

(** ** dashboard.c: per-element rendering *)

(** The fill percentage of [render_gauge], before and after clamping. *)
Definition percentage_of (elem : dash_element_t) : spec_float :=
  F32.div (F32.sub (el_value elem) (el_min_value elem))
          (F32.sub (el_max_value elem) (el_min_value elem)).

Definition clamp_percentage (percentage : spec_float) : spec_float :=
  let percentage := if F32.ltb percentage F32.zero then F32.zero else percentage in
  if F32.ltb F32.one percentage then F32.one else percentage.

(** The clamped fraction as a function of the value and of the range. *)
Definition fraction (value mn mx : spec_float) : spec_float :=
  clamp_percentage (F32.div (F32.sub value mn) (F32.sub mx mn)).

Definition gauge_fill_width (elem : dash_element_t) : Z :=
  F32.to_u32 (F32.mul (clamp_percentage (percentage_of elem))
                      (F32.of_Z (U32.sub (el_width elem) 4))).

Definition render_gauge (elem : dash_element_t) (fb : framebuffer_t) (mem : gmap Z Z) : gmap Z Z :=
  let mem := fb_draw_filled_rect fb (el_x elem) (el_y elem) (el_width elem) (el_height elem) COLOR_BLACK mem in
  let mem := fb_draw_rect fb (el_x elem) (el_y elem) (el_width elem) (el_height elem) (el_color elem) mem in
  let fill_width := gauge_fill_width elem in
  if 0 <? fill_width then
    fb_draw_filled_rect fb (U32.add (el_x elem) 2) (U32.add (el_y elem) 2)
      fill_width (U32.sub (el_height elem) 4) (el_color elem) mem
  else mem.

Definition render_label (elem : dash_element_t) (fb : framebuffer_t) (mem : gmap Z Z) : gmap Z Z :=
  let mem := fb_draw_filled_rect fb (el_x elem) (el_y elem) (el_width elem) (el_height elem) COLOR_BLACK mem in
  fb_draw_rect fb (el_x elem) (el_y elem) (el_width elem) (el_height elem) (el_color elem) mem.

Definition indicator_color (elem : dash_element_t) : Z :=
  let percentage := percentage_of elem in
  if F32.ltb F32.c0_8 percentage then COLOR_RED
  else if F32.ltb F32.c0_6 percentage then COLOR_YELLOW
  else COLOR_GREEN.

Definition render_value (elem : dash_element_t) (fb : framebuffer_t) (mem : gmap Z Z) : gmap Z Z :=
  let mem := fb_draw_filled_rect fb (el_x elem) (el_y elem) (el_width elem) (el_height elem) COLOR_BLACK mem in
  let mem := fb_draw_rect fb (el_x elem) (el_y elem) (el_width elem) (el_height elem) (el_color elem) mem in
  fb_draw_filled_rect fb (U32.add (el_x elem) 5) (U32.add (el_y elem) 5)
    20 (U32.sub (el_height elem) 10) (indicator_color elem) mem.

(** The inner loop of [render_graph],
    [for (x = x0; x < bound; x += 4) fb_draw_pixel(fb, x, y_pos, GRAY)].
    The counter wraps at [2^32], so the loop need not terminate: the
    model counts iterations down from [fuel] and gives [None] when they
    run out. *)
Fixpoint graph_row (fuel : nat) (fb : framebuffer_t) (x bound y_pos : Z) (mem : gmap Z Z)
  : option (gmap Z Z) :=
  match fuel with
  | O => None
  | Datatypes.S fuel' =>
      if x <? bound then
        graph_row fuel' fb (U32.add x 4) bound y_pos (fb_draw_pixel fb x y_pos COLOR_GRAY mem)
      else Some mem
  end.

Definition graph_line (fuel : nat) (elem : dash_element_t) (fb : framebuffer_t) (i : Z)
  (mem : gmap Z Z) : option (gmap Z Z) :=
  let y_pos := U32.add (el_y elem) (U32.mul (el_height elem) i / 4) in
  graph_row fuel fb (U32.add (el_x elem) 2)
    (U32.sub (U32.add (el_x elem) (el_width elem)) 2) y_pos mem.

Definition render_graph (fuel : nat) (elem : dash_element_t) (fb : framebuffer_t)
  (mem : gmap Z Z) : option (gmap Z Z) :=
  let mem := fb_draw_filled_rect fb (el_x elem) (el_y elem) (el_width elem) (el_height elem) COLOR_BLACK mem in
  let mem := fb_draw_rect fb (el_x elem) (el_y elem) (el_width elem) (el_height elem) (el_color elem) mem in
  match graph_line fuel elem fb 1 mem with
  | None => None
  | Some mem =>
      match graph_line fuel elem fb 2 mem with
      | None => None
      | Some mem => graph_line fuel elem fb 3 mem
      end
  end.

Definition render_element (fuel : nat) (fb : framebuffer_t) (elem : dash_element_t)
  (mem : gmap Z Z) : option (gmap Z Z) :=
  match el_type elem with
  | DASH_ELEMENT_GAUGE => Some (render_gauge elem fb mem)
  | DASH_ELEMENT_LABEL => Some (render_label elem fb mem)
  | DASH_ELEMENT_VALUE => Some (render_value elem fb mem)
  | DASH_ELEMENT_GRAPH => render_graph fuel elem fb mem
  end.

Fixpoint render_elements (fuel : nat) (fb : framebuffer_t) (elems : list dash_element_t)
  (mem : gmap Z Z) : option (gmap Z Z) :=
  match elems with
  | [] => Some mem
  | elem :: rest =>
      match render_element fuel fb elem mem with
      | None => None
      | Some mem => render_elements fuel fb rest mem
      end
  end.

(** [dashboard_render]: clear, then the elements [0 .. element_count-1]
    in order. *)
Definition dashboard_render (fuel : nat) (dash : dashboard_t) (fb : framebuffer_t)
  (mem : gmap Z Z) : option (gmap Z Z) :=
  render_elements fuel fb
    (take (Z.to_nat (element_count dash)) (elements dash))
    (fb_clear fb COLOR_BLACK mem).

(** ** The rendering rules as the specification words them

    A rule is a list of rectangle commands run in order. *)

Inductive draw_cmd : Type :=
  | FilledRect (x y w h color : Z)
  | OutlineRect (x y w h color : Z).

Definition run_cmd (fb : framebuffer_t) (mem : gmap Z Z) (c : draw_cmd) : gmap Z Z :=
  match c with
  | FilledRect x y w h color => fb_draw_filled_rect fb x y w h color mem
  | OutlineRect x y w h color => fb_draw_rect fb x y w h color mem
  end.

Definition run_cmds (fb : framebuffer_t) (cs : list draw_cmd) (mem : gmap Z Z) : gmap Z Z :=
  fold_left (run_cmd fb) cs mem.

(** [clamp(p, 0, 1)]. *)
Definition clamp01 (p : spec_float) : spec_float :=
  if F32.ltb p F32.zero then F32.zero
  else if F32.ltb F32.one p then F32.one
  else p.

(** Gauge: background, outline, and an inset fill rectangle of width
    [clamp((value - min) / (max - min), 0, 1) * (width - 4)], absent when
    that width is 0. *)
Definition spec_fill_width (elem : dash_element_t) : Z :=
  F32.to_u32
    (F32.mul
       (clamp01 (F32.div (F32.sub (el_value elem) (el_min_value elem))
                         (F32.sub (el_max_value elem) (el_min_value elem))))
       (F32.of_Z (U32.sub (el_width elem) 4))).

Definition spec_gauge (elem : dash_element_t) : list draw_cmd :=
  [ FilledRect (el_x elem) (el_y elem) (el_width elem) (el_height elem) COLOR_BLACK;
    OutlineRect (el_x elem) (el_y elem) (el_width elem) (el_height elem) (el_color elem) ]
  ++ (if spec_fill_width elem =? 0 then []
      else [ FilledRect (U32.add (el_x elem) 2) (U32.add (el_y elem) 2)
               (spec_fill_width elem) (U32.sub (el_height elem) 4) (el_color elem) ]).

Definition mk_element (t : dash_element_type_t) (x y w h color : Z) (value mn mx : Z)
  : dash_element_t :=
  {| el_type := t; el_x := x; el_y := y; el_width := w; el_height := h;
     el_color := color; el_label := [];
     el_value := F32.of_Z value; el_min_value := F32.of_Z mn; el_max_value := F32.of_Z mx |}.

Definition gauge1 : dash_element_t :=
  mk_element DASH_ELEMENT_GAUGE 50 50 400 60 COLOR_GREEN 75 0 100.

(** Value: background, outline, and a 20-pixel-wide indicator bar inset
    by 5 pixels: green below 60% of the range, yellow from 60% to 80%,
    red above 80%. *)
Definition spec_indicator_color (elem : dash_element_t) : Z :=
  let p := F32.div (F32.sub (el_value elem) (el_min_value elem))
                   (F32.sub (el_max_value elem) (el_min_value elem)) in
  if F32.ltb p F32.c0_6 then COLOR_GREEN
  else if F32.leb p F32.c0_8 then COLOR_YELLOW
  else COLOR_RED.

(** The colour the code gives: the two thresholds are compared with [>],
    and a NaN fraction compares false with both. *)
Definition code_indicator_color (elem : dash_element_t) : Z :=
  let p := F32.div (F32.sub (el_value elem) (el_min_value elem))
                   (F32.sub (el_max_value elem) (el_min_value elem)) in
  if F32.is_nan p then COLOR_GREEN
  else if F32.leb p F32.c0_6 then COLOR_GREEN
  else if F32.leb p F32.c0_8 then COLOR_YELLOW
  else COLOR_RED.

Definition spec_value (color_of : dash_element_t -> Z) (elem : dash_element_t) : list draw_cmd :=
  [ FilledRect (el_x elem) (el_y elem) (el_width elem) (el_height elem) COLOR_BLACK;
    OutlineRect (el_x elem) (el_y elem) (el_width elem) (el_height elem) (el_color elem);
    FilledRect (U32.add (el_x elem) 5) (U32.add (el_y elem) 5)
      20 (U32.sub (el_height elem) 10) (color_of elem) ].

(** ** mmio.h *)

Definition MMIO_BASE : Z := 0x3F000000.
Definition MAILBOX_BASE : Z := MMIO_BASE + 0xB880.
Definition MAILBOX_READ : Z := MAILBOX_BASE + 0x00.
Definition MAILBOX_STATUS : Z := MAILBOX_BASE + 0x18.
Definition MAILBOX_WRITE : Z := MAILBOX_BASE + 0x20.
Definition MAILBOX_FULL : Z := 0x80000000.
Definition MAILBOX_EMPTY : Z := 0x40000000.

(** ** framebuffer.c: the mailbox property call and [fb_init] *)

Definition MAILBOX_TAG_SETPHYWH : Z := 0x48003.
Definition MAILBOX_TAG_SETVIRTWH : Z := 0x48004.
Definition MAILBOX_TAG_SETVIRTOFF : Z := 0x48009.
Definition MAILBOX_TAG_SETDEPTH : Z := 0x48005.
Definition MAILBOX_TAG_SETPXLORDR : Z := 0x48006.
Definition MAILBOX_TAG_GETFB : Z := 0x40001.
Definition MAILBOX_TAG_GETPITCH : Z := 0x40008.
Definition MAILBOX_TAG_LAST : Z := 0.
Definition MAILBOX_CH_PROP : Z := 8.

(** The acknowledgement the firmware leaves in word 1. *)
Definition MAILBOX_RESPONSE_OK : Z := 0x80000000.

(** The assignments [mailbox[i] = v] of [fb_init], in source order. *)
Definition fb_request (width height : Z) : list (nat * Z) :=
  [ (0%nat, 35 * 4); (1%nat, 0);
    (2%nat, MAILBOX_TAG_SETPHYWH); (3%nat, 8); (4%nat, 8); (5%nat, width); (6%nat, height);
    (7%nat, MAILBOX_TAG_SETVIRTWH); (8%nat, 8); (9%nat, 8); (10%nat, width); (11%nat, height);
    (12%nat, MAILBOX_TAG_SETVIRTOFF); (13%nat, 8); (14%nat, 8); (15%nat, 0); (16%nat, 0);
    (17%nat, MAILBOX_TAG_SETDEPTH); (18%nat, 4); (19%nat, 4); (20%nat, 32);
    (21%nat, MAILBOX_TAG_SETPXLORDR); (22%nat, 4); (23%nat, 4); (24%nat, 1);
    (25%nat, MAILBOX_TAG_GETFB); (26%nat, 8); (27%nat, 8); (28%nat, 4096); (29%nat, 0);
    (30%nat, MAILBOX_TAG_GETPITCH); (31%nat, 4); (32%nat, 4); (33%nat, 0);
    (34%nat, MAILBOX_TAG_LAST) ].

Definition store_words (ws : list (nat * Z)) (mbox : list Z) : list Z :=
  fold_left (fun m iv => <[fst iv := snd iv]> m) ws mbox.

Definition word (mbox : list Z) (i : nat) : Z := default 0 (mbox !! i).

Section Mailbox.

(** The hardware is a parameter.  A register access may change the state
    of the device and, the GPU sharing memory with the CPU, the 36 words
    of the static [mailbox] buffer; [mailbox_addr] is the address of
    that buffer. *)
Variable device : Type.
Variable dev_read : Z -> device * list Z -> Z * (device * list Z).
Variable dev_write : Z -> Z -> device * list Z -> device * list Z.
Variable mailbox_addr : Z.

Definition mmio_read (reg : Z) (w : device * list Z) : Z * (device * list Z) :=
  dev_read reg w.

Definition mmio_write (reg data : Z) (w : device * list Z) : device * list Z :=
  dev_write reg data w.

(** [while (mmio_read(MAILBOX_STATUS) & flag);] with at most [fuel]
    reads. *)
Fixpoint wait_while (fuel : nat) (flag : Z) (w : device * list Z) : option (device * list Z) :=
  match fuel with
  | O => None
  | Datatypes.S fuel' =>
      let (v, w') := mmio_read MAILBOX_STATUS w in
      if Z.land v flag =? 0 then Some w' else wait_while fuel' flag w'
  end.

(** The response loop: wait until the mailbox is not empty, read it, and
    stop at the response that carries the request's own word. *)
Fixpoint wait_response (fuel inner : nat) (r : Z) (w : device * list Z)
  : option (bool * (device * list Z)) :=
  match fuel with
  | O => None
  | Datatypes.S fuel' =>
      match wait_while inner MAILBOX_EMPTY w with
      | None => None
      | Some w1 =>
          let (v, w2) := mmio_read MAILBOX_READ w1 in
          if r =? v then Some (word (snd w2) 1 =? MAILBOX_RESPONSE_OK, w2)
          else wait_response fuel' inner r w2
      end
  end.

Definition mailbox_call (fuel : nat) (channel : Z) (w : device * list Z)
  : option (bool * (device * list Z)) :=
  let r := Z.lor (Z.land (U32.wrap mailbox_addr) 0xFFFFFFF0) (Z.land channel 0xF) in
  match wait_while fuel MAILBOX_FULL w with
  | None => None
  | Some w1 => wait_response fuel fuel r (mmio_write MAILBOX_WRITE r w1)
  end.

(** [fb_init] returns its [int] result, the handle (unchanged on
    failure) and the state of the hardware. *)
Definition fb_init (fuel : nat) (fb : framebuffer_t) (width height : Z) (w : device * list Z)
  : option (Z * framebuffer_t * (device * list Z)) :=
  let w0 := (fst w, store_words (fb_request width height) (snd w)) in
  match mailbox_call fuel MAILBOX_CH_PROP w0 with
  | None => None
  | Some (false, w1) => Some (-1, fb, w1)
  | Some (true, w1) =>
      Some (0,
            {| fb_width := width; fb_height := height;
               fb_pitch := word (snd w1) 33;
               fb_buffer := Z.land (word (snd w1) 28) 0x3FFFFFFF |},
            w1)
  end.

End Mailbox.

(** A firmware that answers at once: it remembers the word written to
    the mailbox, acknowledges in word 1, and reports the given base
    address and pitch in words 28 and 33. *)
Definition fw_read (reg : Z) (w : Z * list Z) : Z * (Z * list Z) :=
  if reg =? MAILBOX_READ then (fst w, w) else (0, w).

Definition fw_write (addr pitch : Z) (reg data : Z) (w : Z * list Z) : Z * list Z :=
  if reg =? MAILBOX_WRITE then
    (data, <[33%nat := pitch]> (<[28%nat := addr]> (<[1%nat := MAILBOX_RESPONSE_OK]> (snd w))))
  else w.

(** A firmware that answers without acknowledging. *)
Definition fw_write_nak (reg data : Z) (w : Z * list Z) : Z * list Z :=
  if reg =? MAILBOX_WRITE then (data, <[1%nat := 0x80000001]> (snd w)) else w.

(** A firmware for a display of 1280 by 720: it acknowledges a request
    for that width, as [fw_write] does, and answers any other without
    acknowledging. *)
Definition fw_write_720p (addr pitch : Z) (reg data : Z) (w : Z * list Z) : Z * list Z :=
  if word (snd w) 5 =? 1280 then fw_write addr pitch reg data w else fw_write_nak reg data w.

Definition fb0 : framebuffer_t :=
  {| fb_width := 0; fb_height := 0; fb_pitch := 0; fb_buffer := 0 |}.

(** The handle of a display of 1280 by 720 at [0xC0100000]. *)
Definition fb_720p : framebuffer_t :=
  {| fb_width := 1280; fb_height := 720; fb_pitch := 5120; fb_buffer := 0x00100000 |}.

(** ** Predicates of the statements *)

(** A transformer of the pixel memory [paints] when it overwrites a
    fixed set of words with fixed colours, whatever the memory held: it
    is the union, biased to the left, with a fixed map.  [paints_opt] is
    the same for a transformer that may not return. *)
Definition paints (T : gmap Z Z -> gmap Z Z) : Prop :=
  exists m : gmap Z Z, forall mem, T mem = m ∪ mem.

Definition paints_opt (T : gmap Z Z -> option (gmap Z Z)) : Prop :=
  (forall mem, T mem = None) \/ (exists m : gmap Z Z, forall mem, T mem = Some (m ∪ mem)).

(** The right end of a grid line, [x + width - 2] in 32-bit arithmetic,
    is at most [2^32 - 4]: the counter then reaches it before it
    wraps. *)
Definition graph_ok (elem : dash_element_t) : Prop :=
  el_type elem = DASH_ELEMENT_GRAPH ->
  U32.sub (U32.add (el_x elem) (el_width elem)) 2 <= U32.modulus - 4.

(** ** Rounding in binary32

    Every operation of [SpecFloat] rounds through [binary_round_aux].
    The definitions below name its steps at precision 24 and maximal
    exponent 128; they are used to state what the operations compute. *)

Definition round32 : bool -> Z -> Z -> location -> spec_float := binary_round_aux 24 128.

(** The exponent of the binary32 numbers of a given magnitude. *)
Definition fexp32 (e : Z) : Z := Z.max (e - 24) (-149).

(** [n] one-bit right shifts of a mantissa with its round and sticky
    bits. *)
Definition shrn (n : nat) (mrs : shr_record) : shr_record := Nat.iter n shr_1 mrs.

(** A mantissa with its round and sticky bits, as one integer: the order
    of these integers is the order of the numbers they locate. *)
Definition rec_code (mrs : shr_record) : Z :=
  4 * shr_m mrs + (if shr_r mrs then 2 else 0) + (if shr_s mrs then 1 else 0).

(** The number of mantissa [m] and exponent [c], or an infinity when the
    exponent is out of range. *)
Definition pack (s : bool) (m c : Z) : spec_float :=
  if c <=? 104 then S754_finite s (Z.to_pos m) c else S754_infinity s.

(** The result of rounding, from the rounded mantissa [m1 <= 2^24] at
    the canonical exponent [c]. *)
Definition finalize (s : bool) (m1 c : Z) : spec_float :=
  if m1 =? 0 then S754_zero s
  else if m1 <? 16777216 then pack s m1 c
  else pack s 8388608 (c + 1).

(** The mantissa [m] at exponent [e], brought to its canonical
    exponent. *)
Definition canon_rec (m e : Z) (l : location) : shr_record :=
  shrn (Z.to_nat (fexp32 (Zdigits2 m + e) - e)) (shr_record_of_loc m l).

Definition rne (mrs : shr_record) : Z :=
  round_nearest_even (shr_m mrs) (loc_of_shr_record mrs).

(** The fraction [Nm / Dn]: its integer part, and the position of the
    rest with respect to one half in the round and sticky bits. *)
Definition frac_record (Nm Dn : Z) : shr_record :=
  {| shr_m := Nm / Dn;
     shr_r := Dn <=? 2 * (Nm mod Dn);
     shr_s := negb (Nm mod Dn =? 0) && negb (2 * (Nm mod Dn) =? Dn) |}.

(** The binary32 number nearest to [(Nm / Dn) * 2^e], with sign [s]. *)
Definition round_frac (s : bool) (Nm Dn e : Z) : spec_float :=
  round32 s (Nm / Dn) e (loc_of_shr_record (frac_record Nm Dn)).

(** Mantissa and exponent of a finite binary32 number: at most 24 bits,
    exponent in range, and 24 bits exactly above the least exponent. *)
Definition canonical32 (m : positive) (e : Z) : Prop :=
  Zpos m < 2 ^ 24 /\ -149 <= e <= 104 /\ (-149 < e -> 2 ^ 23 <= Zpos m).

(** A binary32 number as an integer, in units of [2^-149], with
    [2^300] for infinity: the order of the numbers is the order of
    their ranks. *)
Definition rank (x : spec_float) : Z :=
  match x with
  | S754_infinity s => cond_Zopp s (2 ^ 300)
  | S754_finite s m e => cond_Zopp s (Zpos m * 2 ^ (e + 149))
  | _ => 0
  end.

(** The binary32 numbers, NaN apart; the finite ones. *)
Definition binary32 (x : spec_float) : Prop :=
  match x with
  | S754_nan => False
  | S754_finite _ m e => canonical32 m e
  | _ => True
  end.

Definition finite32 (x : spec_float) : Prop :=
  match x with
  | S754_zero _ => True
  | S754_finite _ m e => canonical32 m e
  | _ => False
  end.

(** ** The pixels a primitive writes

    A primitive draws one colour at a list of points, each through
    [fb_draw_pixel]; the lists below are the points of the two rectangle
    primitives, in the order of the loops. *)

Definition draw_pixels (fb : framebuffer_t) (color : Z) (pts : list (Z * Z))
  (mem : gmap Z Z) : gmap Z Z :=
  fold_left (fun m p => fb_draw_pixel fb (fst p) (snd p) color m) pts mem.

Definition filled_rect_points (x y w h : Z) : list (Z * Z) :=
  flat_map (fun j => map (fun i => (U32.add x i, U32.add y j)) (seqZ 0 w)) (seqZ 0 h).

Definition outline_points (x y w h : Z) : list (Z * Z) :=
  flat_map (fun i => [ (U32.add x i, y); (U32.add x i, U32.sub (U32.add y h) 1) ]) (seqZ 0 w)
  ++ flat_map (fun i => [ (x, U32.add y i); (U32.sub (U32.add x w) 1, U32.add y i) ]) (seqZ 0 h).

(** The invariant of a handle: a row holds at least [width] pixels, and
    the region is addressed without wrapping. *)
Definition fb_wf (fb : framebuffer_t) : Prop :=
  0 <= fb_width fb <= fb_pitch fb / 4
  /\ 0 <= fb_height fb
  /\ fb_height fb * (fb_pitch fb / 4) <= 2 ^ 32.

(** The colour of a pixel of a gauge, as the rendering rule gives it:
    the outline, the inset fill, black elsewhere. *)
Definition gauge_pixel (elem : dash_element_t) (px py : Z) : Z :=
  if (px =? el_x elem) || (px =? el_x elem + el_width elem - 1)
     || (py =? el_y elem) || (py =? el_y elem + el_height elem - 1)
  then el_color elem
  else if (el_x elem + 2 <=? px) && (px <? el_x elem + 2 + spec_fill_width elem)
          && (el_y elem + 2 <=? py) && (py <? el_y elem + el_height elem - 2)
  then el_color elem
  else COLOR_BLACK.

(** ** Objects of the examples *)

(** The display of the kernel: 1920 by 1080, rows of 7680 bytes. *)
Definition fb_hd : framebuffer_t :=
  {| fb_width := 1920; fb_height := 1080; fb_pitch := 7680; fb_buffer := 0x100000 |}.

Definition fb_small : framebuffer_t :=
  {| fb_width := 4; fb_height := 3; fb_pitch := 32; fb_buffer := 0 |}.

Definition blank_element : dash_element_t :=
  {| el_type := DASH_ELEMENT_LABEL; el_x := 0; el_y := 0; el_width := 0; el_height := 0;
     el_color := 0; el_label := [];
     el_value := F32.zero; el_min_value := F32.zero; el_max_value := F32.zero |}.

(** A dashboard object before [dashboard_init]: 32 slots and a count. *)
Definition blank_dashboard : dashboard_t :=
  {| name := []; elements := replicate 32 blank_element; element_count := 7 |}.

Definition value1 : dash_element_t :=
  mk_element DASH_ELEMENT_VALUE 500 50 200 60 COLOR_CYAN 65 0 100.

(** The dashboard after 32 successful additions. *)
Definition full_dashboard : dashboard_t :=
  Nat.iter 32 (fun d => dashboard_add_element d gauge1)
    (dashboard_init blank_dashboard [76; 105; 98; 114; 101]).

(** A small display and a dashboard with a gauge and a graph on it. *)
Definition fb_demo : framebuffer_t :=
  {| fb_width := 16; fb_height := 12; fb_pitch := 64; fb_buffer := 0x100000 |}.

Definition gauge_demo : dash_element_t :=
  mk_element DASH_ELEMENT_GAUGE 1 1 12 5 COLOR_GREEN 0 0 100.

Definition graph_demo : dash_element_t :=
  mk_element DASH_ELEMENT_GRAPH 1 6 12 5 COLOR_YELLOW 0 0 100.

Definition demo_dashboard : dashboard_t :=
  dashboard_add_element
    (dashboard_add_element (dashboard_init blank_dashboard [100; 101; 109; 111]) gauge_demo)
    graph_demo.

Definition value_at (v mx : Z) : dash_element_t :=
  mk_element DASH_ELEMENT_VALUE 500 50 200 60 COLOR_CYAN v 0 mx.

Definition value_at_60 : dash_element_t :=
  mk_element DASH_ELEMENT_VALUE 0 0 16 12 COLOR_CYAN 60 0 100.

Definition gauge_degenerate : dash_element_t :=
  mk_element DASH_ELEMENT_GAUGE 50 50 400 60 COLOR_GREEN 75 50 50.

Definition value_degenerate : dash_element_t :=
  mk_element DASH_ELEMENT_VALUE 500 50 200 60 COLOR_CYAN 85 50 50.

Definition FLT_MAX : spec_float := S754_finite false 16777215 104.

Definition gauge_overflow : dash_element_t :=
  {| el_type := DASH_ELEMENT_GAUGE; el_x := 50; el_y := 50; el_width := 400; el_height := 60;
     el_color := COLOR_GREEN; el_label := [];
     el_value := FLT_MAX; el_min_value := SFopp FLT_MAX; el_max_value := FLT_MAX |}.

Definition gauge_boost : dash_element_t :=
  mk_element DASH_ELEMENT_GAUGE 50 50 400 60 COLOR_GREEN 0 (-15) 30.

(** ** dashboard.c: the loader *)

(** [dashboard_load_from_dash] is a placeholder: it ignores the data,
    leaves the dashboard as it is and returns 0. *)
Definition dashboard_load_from_dash (dash : dashboard_t) (dash_data : list Z)
  : Z * dashboard_t :=
  (0, dash).

(** A call of the interface of [dashboard.h] that acts on the dashboard
    object, and a sequence of such calls. *)
Inductive dash_call : Type :=
  | CallInit (nm : list Z)
  | CallAdd (element : dash_element_t)
  | CallUpdate (element_id : Z) (value : spec_float)
  | CallLoad (dash_data : list Z).

Definition run_call (dash : dashboard_t) (c : dash_call) : dashboard_t :=
  match c with
  | CallInit nm => dashboard_init dash nm
  | CallAdd element => dashboard_add_element dash element
  | CallUpdate element_id value => dashboard_update_value dash element_id value
  | CallLoad dash_data => snd (dashboard_load_from_dash dash dash_data)
  end.

Definition run_calls (dash : dashboard_t) (cs : list dash_call) : dashboard_t :=
  fold_left run_call cs dash.

(** The elements that [dashboard_render] draws: the slots in use. *)
Definition shown (dash : dashboard_t) : list dash_element_t :=
  take (Z.to_nat (element_count dash)) (elements dash).

(** ** The colour of a pixel of an element

    What the rectangles of an element leave at the pixel [(px, py)], the
    later rectangle on top. *)

Definition in_box (x y w h px py : Z) : bool :=
  (x <=? px) && (px <? x + w) && (y <=? py) && (py <? y + h).

Definition on_border (x y w h px py : Z) : bool :=
  in_box x y w h px py
  && ((px =? x) || (px =? x + w - 1) || (py =? y) || (py =? y + h - 1)).

Definition label_pixel (elem : dash_element_t) (px py : Z) : Z :=
  if on_border (el_x elem) (el_y elem) (el_width elem) (el_height elem) px py
  then el_color elem else COLOR_BLACK.

Definition value_pixel (elem : dash_element_t) (px py : Z) : Z :=
  if in_box (el_x elem + 5) (el_y elem + 5) 20 (el_height elem - 10) px py
  then indicator_color elem
  else label_pixel elem px py.

(** The grid of a graph: on each of the three rows [y + height * i / 4],
    every fourth pixel from [x + 2] up to [x + width - 2]. *)
Definition on_grid (elem : dash_element_t) (px py : Z) : bool :=
  (el_x elem + 2 <=? px) && (px <? el_x elem + el_width elem - 2)
  && ((px - (el_x elem + 2)) mod 4 =? 0)
  && ((py =? el_y elem + el_height elem * 1 / 4)
      || (py =? el_y elem + el_height elem * 2 / 4)
      || (py =? el_y elem + el_height elem * 3 / 4)).

Definition graph_pixel (elem : dash_element_t) (px py : Z) : Z :=
  if on_grid elem px py then COLOR_GRAY else label_pixel elem px py.

(** ** The pixels of the rectangle primitives, with wrap-around

    The offsets of a pixel from the corner of a rectangle are taken
    modulo [2^32], as the sums of the loops are. *)

Definition fill_hit (x y w h px py : Z) : bool :=
  (U32.sub px x <? w) && (U32.sub py y <? h).

Definition outline_hit (x y w h px py : Z) : bool :=
  ((U32.sub px x <? w) && ((py =? y) || (py =? U32.sub (U32.add y h) 1)))
  || ((U32.sub py y <? h) && ((px =? x) || (px =? U32.sub (U32.add x w) 1))).

(** The words [fb_clear] writes, in the order of its loops. *)
Definition clear_words (fb : framebuffer_t) : list Z :=
  flat_map (fun y => map (fun x => fb_index fb x y) (seqZ 0 (fb_width fb))) (seqZ 0 (fb_height fb)).

(** An element fits a display when its box lies in the region and is not
    smaller than what its renderer subtracts from its sides; the values
    of a gauge are [float]s. *)
Definition element_fits (fb : framebuffer_t) (elem : dash_element_t) : Prop :=
  0 <= el_x elem /\ 0 <= el_y elem
  /\ el_x elem + el_width elem <= fb_width fb
  /\ el_y elem + el_height elem <= fb_height fb
  /\ match el_type elem with
     | DASH_ELEMENT_GAUGE =>
         4 <= el_width elem < 2 ^ 24 + 4 /\ 4 <= el_height elem
         /\ F32.valid (el_value elem) = true
         /\ F32.valid (el_min_value elem) = true
         /\ F32.valid (el_max_value elem) = true
     | DASH_ELEMENT_LABEL => 1 <= el_width elem /\ 1 <= el_height elem
     | DASH_ELEMENT_VALUE => 25 <= el_width elem /\ 10 <= el_height elem
     | DASH_ELEMENT_GRAPH =>
         2 <= el_width elem /\ 1 <= el_height elem
         /\ el_x elem + el_width elem <= 2 ^ 32 - 2 /\ el_height elem * 3 < 2 ^ 32
     end.

(** The colour an element gives to a pixel of its box, and the colour of
    a pixel of a frame: that of the last element whose box holds it,
    black when there is none. *)
Definition element_pixel (elem : dash_element_t) (px py : Z) : Z :=
  match el_type elem with
  | DASH_ELEMENT_GAUGE => gauge_pixel elem px py
  | DASH_ELEMENT_LABEL => label_pixel elem px py
  | DASH_ELEMENT_GRAPH => graph_pixel elem px py
  | DASH_ELEMENT_VALUE => value_pixel elem px py
  end.

Definition frame_pixel (elems : list dash_element_t) (px py : Z) : Z :=
  fold_left
    (fun c elem =>
       if in_box (el_x elem) (el_y elem) (el_width elem) (el_height elem) px py
       then element_pixel elem px py else c)
    elems COLOR_BLACK.

(** ** kernel.c *)

(** The five elements of the demonstration dashboard ([gauge1] and
    [value1] are above); a field the initialiser leaves out is zero. *)
Definition gauge2 : dash_element_t :=
  mk_element DASH_ELEMENT_GAUGE 50 130 400 60 COLOR_BLUE 45 0 100.

Definition graph1 : dash_element_t :=
  mk_element DASH_ELEMENT_GRAPH 50 250 650 200 COLOR_YELLOW 0 0 100.


(** The characters of ["LibreDash Demo"]. *)
Definition kernel_name : list Z :=
  [76; 105; 98; 114; 101; 68; 97; 115; 104; 32; 68; 101; 109; 111].






Section Kernel.

Variable device : Type.
Variable dev_read : Z -> device * list Z -> Z * (device * list Z).
Variable dev_write : Z -> Z -> device * list Z -> device * list Z.
Variable mailbox_addr : Z.

(** The display: 1920 by 1080, or 1280 by 720 when the first request
    fails; the result of the second request is not looked at. *)
Definition kernel_display (fuel : nat) (fb : framebuffer_t) (w : device * list Z)
  : option (framebuffer_t * (device * list Z)) :=
  match fb_init device dev_read dev_write mailbox_addr fuel fb 1920 1080 w with
  | None => None
  | Some (rc, fb, w) =>
      if rc =? 0 then Some (fb, w)
      else
        match fb_init device dev_read dev_write mailbox_addr fuel fb 1280 720 w with
        | None => None
        | Some (_, fb, w) => Some (fb, w)
        end
  end.


End Kernel.

(** A device whose status register always reads as full and empty: no
    request is ever accepted. *)
Definition stuck_read (reg : Z) (w : unit * list Z) : Z * (unit * list Z) :=
  (Z.lor MAILBOX_FULL MAILBOX_EMPTY, w).

Definition stuck_write (reg data : Z) (w : unit * list Z) : unit * list Z := w.




(** A Value element 8 pixels high. *)
Definition value_short : dash_element_t :=
  mk_element DASH_ELEMENT_VALUE 100 100 200 8 COLOR_CYAN 65 0 100.

(** A gauge 2 pixels high, and a graph 1 pixel wide. *)
Definition gauge_short : dash_element_t :=
  mk_element DASH_ELEMENT_GAUGE 100 100 200 2 COLOR_GREEN 50 0 100.

Definition graph_thin : dash_element_t :=
  mk_element DASH_ELEMENT_GRAPH 0 20 1 40 COLOR_YELLOW 0 0 100.

(** The one pair with [max == min] whose difference [max - min] is the
    negative zero: [max = -0.0f] and [min = +0.0f]. *)
Definition negative_zero_range (mx mn : spec_float) : bool :=
  match mx, mn with
  | S754_zero true, S754_zero false => true
  | _, _ => false
  end.

(** A gauge with [max = -0.0f] and [min = +0.0f], at value 75. *)
Definition gauge_negative_zero : dash_element_t :=
  {| el_type := DASH_ELEMENT_GAUGE; el_x := 50; el_y := 50; el_width := 400; el_height := 60;
     el_color := COLOR_GREEN; el_label := [];
     el_value := F32.of_Z 75; el_min_value := S754_zero false; el_max_value := S754_zero true |}.

(** The width of the fill in exact arithmetic, for an integer value in
    an integer range [mn < mx]: the integer part of
    [clamp((value - mn) / (mx - mn), 0, 1) * (width - 4)]. *)
Definition exact_fill_width (value mn mx width : Z) : Z :=
  Z.max 0 (Z.min (mx - mn) (value - mn)) * (width - 4) / (mx - mn).

(** Two gauges whose exact product is an integer: 21 of 0..25 at an
    inner width of 75, and 1 of 0..41 at an inner width of 41. *)
Definition gauge_21_of_25 : dash_element_t :=
  mk_element DASH_ELEMENT_GAUGE 10 10 79 20 COLOR_GREEN 21 0 25.

Definition gauge_1_of_41 : dash_element_t :=
  mk_element DASH_ELEMENT_GAUGE 10 10 45 20 COLOR_GREEN 1 0 41.

(** * Properties *)

(** ** 32-bit arithmetic and loops *)

Lemma u32_wrap_range (z : Z) : 0 <= U32.wrap z < U32.modulus.
Proof. unfold U32.wrap, U32.modulus. apply Z.mod_pos_bound. lia. Qed.

Lemma u32_add_range (a b : Z) : 0 <= U32.add a b < U32.modulus.
Proof. apply u32_wrap_range. Qed.

Lemma u32_wrap_small (z : Z) : 0 <= z < U32.modulus -> U32.wrap z = z.
Proof. intros H. unfold U32.wrap. now apply Z.mod_small. Qed.

Lemma fb_index_mod (fb : framebuffer_t) (x y : Z) :
  fb_index fb x y = (y * (fb_pitch fb / 4) + x) mod 2 ^ 32.
Proof.
  unfold fb_index, U32.add, U32.mul, U32.wrap, U32.modulus.
  now rewrite Zplus_mod_idemp_l.
Qed.

Lemma fb_index_exact (fb : framebuffer_t) (x y : Z) :
  0 <= y * (fb_pitch fb / 4) + x < 2 ^ 32 ->
  fb_index fb x y = y * (fb_pitch fb / 4) + x.
Proof. intros H. rewrite fb_index_mod. now apply Z.mod_small. Qed.

(** A property kept by every iteration is kept by the loop. *)
Lemma for_loop_ind {S : Type} (P : S -> Prop) (body : Z -> S -> S) :
  (forall i s, P s -> P (body i s)) ->
  forall k i s, P s -> P (for_loop k i body s).
Proof.
  intros Hbody k. induction k as [|k IH]; intros i s Hs; simpl; auto.
Qed.

Lemma for_u32_ind {S : Type} (P : S -> Prop) (body : Z -> S -> S) (n : Z) (s : S) :
  (forall i s, P s -> P (body i s)) -> P s -> P (for_u32 n body s).
Proof. intros Hbody Hs. unfold for_u32. now apply for_loop_ind. Qed.

(** ** Drawing primitives *)

Lemma fb_draw_pixel_out (fb : framebuffer_t) (x y color : Z) (mem : gmap Z Z) :
  fb_width fb <= x \/ fb_height fb <= y -> fb_draw_pixel fb x y color mem = mem.
Proof.
  intros H. unfold fb_draw_pixel.
  destruct (fb_width fb <=? x) eqn:Hx; [reflexivity|].
  destruct (fb_height fb <=? y) eqn:Hy; [reflexivity|].
  apply Z.leb_gt in Hx, Hy. lia.
Qed.

Lemma fb_draw_pixel_in (fb : framebuffer_t) (x y color : Z) (mem : gmap Z Z) :
  x < fb_width fb -> y < fb_height fb ->
  fb_draw_pixel fb x y color mem = <[fb_index fb x y := color]> mem.
Proof.
  intros Hx Hy. unfold fb_draw_pixel.
  apply Z.leb_gt in Hx, Hy. now rewrite Hx, Hy.
Qed.

(** A clipped pixel write leaves the words outside the region alone. *)
Lemma fb_draw_pixel_frame (fb : framebuffer_t) (x y color : Z) (mem : gmap Z Z) (i : Z) :
  0 <= x -> 0 <= y -> ~ in_region fb i ->
  fb_draw_pixel fb x y color mem !! i = mem !! i.
Proof.
  intros Hx Hy Hi. unfold fb_draw_pixel.
  destruct (fb_width fb <=? x) eqn:Hwx; [reflexivity|].
  destruct (fb_height fb <=? y) eqn:Hhy; [reflexivity|].
  apply Z.leb_gt in Hwx, Hhy. simpl.
  apply lookup_insert_ne. intros Heq. apply Hi.
  exists x, y. repeat split; lia || (now symmetry).
Qed.

Lemma fb_draw_filled_rect_frame (fb : framebuffer_t) (x y w h color : Z) (mem : gmap Z Z) (i : Z) :
  ~ in_region fb i ->
  fb_draw_filled_rect fb x y w h color mem !! i = mem !! i.
Proof.
  intros Hi. unfold fb_draw_filled_rect.
  apply (for_u32_ind (fun m => m !! i = mem !! i)); [|reflexivity].
  intros j s Hs.
  apply (for_u32_ind (fun m => m !! i = mem !! i)); [|exact Hs].
  intros k s' Hs'. rewrite fb_draw_pixel_frame; auto; apply u32_add_range.
Qed.

Lemma fb_draw_rect_frame (fb : framebuffer_t) (x y w h color : Z) (mem : gmap Z Z) (i : Z) :
  0 <= x -> 0 <= y -> ~ in_region fb i ->
  fb_draw_rect fb x y w h color mem !! i = mem !! i.
Proof.
  intros Hx Hy Hi. unfold fb_draw_rect.
  apply (for_u32_ind (fun m => m !! i = mem !! i)).
  - intros k s Hs.
    rewrite !fb_draw_pixel_frame; auto; apply u32_wrap_range.
  - apply (for_u32_ind (fun m => m !! i = mem !! i)); [|reflexivity].
    intros k s Hs.
    rewrite !fb_draw_pixel_frame; auto; apply u32_wrap_range.
Qed.

(** ** Rendering only overwrites

    A transformer of the pixel memory [paints] when it overwrites a
    fixed set of words with fixed colours, whatever the memory held: it
    is the union, biased to the left, with a fixed map. *)

Lemma paints_id : paints (fun mem => mem).
Proof. exists ∅. intros mem. now rewrite (left_id_L ∅ (∪)). Qed.

Lemma paints_insert (i v : Z) : paints (fun mem => <[i := v]> mem).
Proof. exists {[i := v]}. intros mem. apply insert_union_singleton_l. Qed.

Lemma paints_compose (T1 T2 : gmap Z Z -> gmap Z Z) :
  paints T1 -> paints T2 -> paints (fun mem => T2 (T1 mem)).
Proof.
  intros [m1 H1] [m2 H2]. exists (m2 ∪ m1). intros mem.
  rewrite H1, H2. apply (assoc_L (∪)).
Qed.

Lemma paints_ext (T1 T2 : gmap Z Z -> gmap Z Z) :
  (forall mem, T1 mem = T2 mem) -> paints T1 -> paints T2.
Proof. intros Heq [m H]. exists m. intros mem. now rewrite <- Heq. Qed.

Lemma paints_for_loop (body : Z -> gmap Z Z -> gmap Z Z) :
  (forall i, paints (body i)) ->
  forall k i, paints (for_loop k i body).
Proof.
  intros Hbody k. induction k as [|k IH]; intros i; simpl.
  - apply paints_id.
  - apply (paints_compose (body i) (for_loop k (i + 1) body)); auto.
Qed.

Lemma paints_for_u32 (n : Z) (body : Z -> gmap Z Z -> gmap Z Z) :
  (forall i, paints (body i)) -> paints (for_u32 n body).
Proof. intros H. unfold for_u32. now apply paints_for_loop. Qed.

Lemma paints_fb_draw_pixel (fb : framebuffer_t) (x y color : Z) :
  paints (fb_draw_pixel fb x y color).
Proof.
  unfold fb_draw_pixel.
  destruct ((fb_width fb <=? x) || (fb_height fb <=? y)).
  - apply paints_id.
  - apply paints_insert.
Qed.

Lemma paints_fb_clear (fb : framebuffer_t) (color : Z) : paints (fb_clear fb color).
Proof.
  unfold fb_clear. apply paints_for_u32. intros y.
  apply paints_for_u32. intros x. apply paints_insert.
Qed.

Lemma paints_fb_draw_filled_rect (fb : framebuffer_t) (x y w h color : Z) :
  paints (fb_draw_filled_rect fb x y w h color).
Proof.
  unfold fb_draw_filled_rect. apply paints_for_u32. intros j.
  apply paints_for_u32. intros i. apply paints_fb_draw_pixel.
Qed.

Lemma paints_fb_draw_rect (fb : framebuffer_t) (x y w h color : Z) :
  paints (fb_draw_rect fb x y w h color).
Proof.
  unfold fb_draw_rect.
  apply (paints_compose
           (for_u32 w (fun i m =>
              fb_draw_pixel fb (U32.add x i) (U32.sub (U32.add y h) 1) color
                (fb_draw_pixel fb (U32.add x i) y color m)))
           (for_u32 h (fun i m =>
              fb_draw_pixel fb (U32.sub (U32.add x w) 1) (U32.add y i) color
                (fb_draw_pixel fb x (U32.add y i) color m))));
    apply paints_for_u32; intros i;
    apply (paints_compose (fb_draw_pixel fb _ _ color) (fb_draw_pixel fb _ _ color));
    apply paints_fb_draw_pixel.
Qed.

Lemma paints_render_label (elem : dash_element_t) (fb : framebuffer_t) :
  paints (render_label elem fb).
Proof.
  unfold render_label.
  apply (paints_compose (fb_draw_filled_rect fb _ _ _ _ _) (fb_draw_rect fb _ _ _ _ _)).
  - apply paints_fb_draw_filled_rect.
  - apply paints_fb_draw_rect.
Qed.

Lemma paints_render_gauge (elem : dash_element_t) (fb : framebuffer_t) :
  paints (render_gauge elem fb).
Proof.
  unfold render_gauge. destruct (0 <? gauge_fill_width elem).
  - apply (paints_compose (render_label elem fb) (fb_draw_filled_rect fb _ _ _ _ _)).
    + apply paints_render_label.
    + apply paints_fb_draw_filled_rect.
  - apply paints_render_label.
Qed.

Lemma paints_render_value (elem : dash_element_t) (fb : framebuffer_t) :
  paints (render_value elem fb).
Proof.
  unfold render_value.
  apply (paints_compose (render_label elem fb) (fb_draw_filled_rect fb _ _ _ _ _)).
  - apply paints_render_label.
  - apply paints_fb_draw_filled_rect.
Qed.

Lemma paints_opt_some (T : gmap Z Z -> gmap Z Z) :
  paints T -> paints_opt (fun mem => Some (T mem)).
Proof. intros [m H]. right. exists m. intros mem. now rewrite H. Qed.

Lemma paints_opt_bind (T1 T2 : gmap Z Z -> option (gmap Z Z)) :
  paints_opt T1 -> paints_opt T2 ->
  paints_opt (fun mem => match T1 mem with None => None | Some mem1 => T2 mem1 end).
Proof.
  intros [N1 | [m1 H1]] H2.
  - left. intros mem. now rewrite N1.
  - destruct H2 as [N2 | [m2 H2]].
    + left. intros mem. now rewrite H1, N2.
    + right. exists (m2 ∪ m1). intros mem. rewrite H1, H2. f_equal. apply (assoc_L (∪)).
Qed.

Lemma paints_opt_after (T1 : gmap Z Z -> gmap Z Z) (T2 : gmap Z Z -> option (gmap Z Z)) :
  paints T1 -> paints_opt T2 -> paints_opt (fun mem => T2 (T1 mem)).
Proof.
  intros H1 H2.
  apply (paints_opt_bind (fun mem => Some (T1 mem)) T2); auto using paints_opt_some.
Qed.

Lemma paints_opt_graph_row (fb : framebuffer_t) (bound y_pos : Z) (fuel : nat) :
  forall x, paints_opt (graph_row fuel fb x bound y_pos).
Proof.
  induction fuel as [|fuel IH]; intros x; simpl.
  - now left.
  - destruct (x <? bound).
    + apply (paints_opt_after (fb_draw_pixel fb x y_pos COLOR_GRAY)
               (graph_row fuel fb (U32.add x 4) bound y_pos)).
      * apply paints_fb_draw_pixel.
      * apply IH.
    + apply (paints_opt_some (fun mem => mem)), paints_id.
Qed.

Lemma paints_opt_render_graph (fuel : nat) (elem : dash_element_t) (fb : framebuffer_t) :
  paints_opt (render_graph fuel elem fb).
Proof.
  unfold render_graph.
  apply (paints_opt_after (render_label elem fb)
           (fun mem => match graph_line fuel elem fb 1 mem with
                       | None => None
                       | Some mem1 =>
                           match graph_line fuel elem fb 2 mem1 with
                           | None => None
                           | Some mem2 => graph_line fuel elem fb 3 mem2
                           end
                       end)).
  - apply paints_render_label.
  - apply (paints_opt_bind (graph_line fuel elem fb 1)
             (fun mem1 => match graph_line fuel elem fb 2 mem1 with
                          | None => None
                          | Some mem2 => graph_line fuel elem fb 3 mem2
                          end)).
    + apply paints_opt_graph_row.
    + apply (paints_opt_bind (graph_line fuel elem fb 2) (graph_line fuel elem fb 3));
        apply paints_opt_graph_row.
Qed.

Lemma paints_opt_render_element (fuel : nat) (fb : framebuffer_t) (elem : dash_element_t) :
  paints_opt (render_element fuel fb elem).
Proof.
  unfold render_element. destruct (el_type elem).
  - apply paints_opt_some, paints_render_gauge.
  - apply paints_opt_some, paints_render_label.
  - apply paints_opt_render_graph.
  - apply paints_opt_some, paints_render_value.
Qed.

Lemma paints_opt_render_elements (fuel : nat) (fb : framebuffer_t) (elems : list dash_element_t) :
  paints_opt (render_elements fuel fb elems).
Proof.
  induction elems as [|elem rest IH]; simpl.
  - apply (paints_opt_some (fun mem => mem)), paints_id.
  - apply (paints_opt_bind (render_element fuel fb elem) (render_elements fuel fb rest));
      auto using paints_opt_render_element.
Qed.

Lemma paints_opt_dashboard_render (fuel : nat) (dash : dashboard_t) (fb : framebuffer_t) :
  paints_opt (dashboard_render fuel dash fb).
Proof.
  unfold dashboard_render.
  apply (paints_opt_after (fb_clear fb COLOR_BLACK) (render_elements fuel fb _)).
  - apply paints_fb_clear.
  - apply paints_opt_render_elements.
Qed.

(** A transformer that only overwrites is idempotent. *)
Lemma paints_opt_idempotent (T : gmap Z Z -> option (gmap Z Z)) (mem mem1 : gmap Z Z) :
  paints_opt T -> T mem = Some mem1 -> T mem1 = Some mem1.
Proof.
  intros [N | [m H]] Hrun.
  - rewrite N in Hrun. discriminate.
  - rewrite H in Hrun. injection Hrun as <-.
    rewrite H. f_equal. rewrite (assoc_L (∪)). now rewrite (idemp_L (∪)).
Qed.

(** ** Termination of the grid loop of [render_graph] *)

Lemma graph_row_terminates (fb : framebuffer_t) (bound y_pos : Z) :
  bound <= U32.modulus - 4 ->
  forall (fuel : nat) (x : Z) (mem : gmap Z Z),
    0 <= x -> (1 <= fuel)%nat -> bound - x + 4 <= 4 * Z.of_nat fuel ->
    is_Some (graph_row fuel fb x bound y_pos mem).
Proof.
  intros Hb fuel. induction fuel as [|fuel IH]; intros x mem Hx Hf Hfuel; [lia|].
  simpl. destruct (x <? bound) eqn:Hlt.
  - apply Z.ltb_lt in Hlt.
    assert (Hadd : U32.add x 4 = x + 4).
    { apply u32_wrap_small. lia. }
    rewrite Hadd. apply IH; lia.
  - eauto.
Qed.

Lemma graph_line_terminates (fuel : nat) (elem : dash_element_t) (fb : framebuffer_t)
  (i : Z) (mem : gmap Z Z) :
  U32.sub (U32.add (el_x elem) (el_width elem)) 2 <= U32.modulus - 4 ->
  2 ^ 30 < Z.of_nat fuel ->
  is_Some (graph_line fuel elem fb i mem).
Proof.
  intros Hok Hfuel. unfold graph_line.
  pose proof (u32_add_range (el_x elem) 2) as Hx.
  apply graph_row_terminates; auto; unfold U32.modulus in *; lia.
Qed.

Lemma render_element_terminates (fuel : nat) (fb : framebuffer_t) (elem : dash_element_t)
  (mem : gmap Z Z) :
  graph_ok elem -> 2 ^ 30 < Z.of_nat fuel ->
  is_Some (render_element fuel fb elem mem).
Proof.
  intros Hok Hfuel. unfold render_element.
  destruct (el_type elem) eqn:Ht; eauto.
  specialize (Hok Ht). unfold render_graph.
  destruct (graph_line_terminates fuel elem fb 1
              (fb_draw_rect fb (el_x elem) (el_y elem) (el_width elem) (el_height elem)
                 (el_color elem)
                 (fb_draw_filled_rect fb (el_x elem) (el_y elem) (el_width elem)
                    (el_height elem) COLOR_BLACK mem)) Hok Hfuel) as [m1 ->].
  destruct (graph_line_terminates fuel elem fb 2 m1 Hok Hfuel) as [m2 ->].
  now apply graph_line_terminates.
Qed.

Lemma render_elements_terminates (fuel : nat) (fb : framebuffer_t)
  (elems : list dash_element_t) :
  Forall graph_ok elems -> 2 ^ 30 < Z.of_nat fuel ->
  forall mem, is_Some (render_elements fuel fb elems mem).
Proof.
  intros Hall Hfuel. induction Hall as [|elem rest Hok _ IH]; intros mem; simpl; eauto.
  destruct (render_element_terminates fuel fb elem mem Hok Hfuel) as [m1 ->].
  apply IH.
Qed.

(** Without that condition the loop can run forever: for a graph at
    [x = 0] of width 1 the bound wraps to [2^32 - 1], and the counter,
    congruent to 2 modulo 4, never reaches it. *)
Lemma graph_row_diverges (fb : framebuffer_t) (y_pos : Z) (fuel : nat) :
  forall (x : Z) (mem : gmap Z Z),
    0 <= x < U32.modulus -> x mod 4 = 2 ->
    graph_row fuel fb x (U32.modulus - 1) y_pos mem = None.
Proof.
  induction fuel as [|fuel IH]; intros x mem Hx Hmod; simpl; [reflexivity|].
  assert (Hlt : (x <? U32.modulus - 1) = true).
  { apply Z.ltb_lt. unfold U32.modulus in *.
    destruct (Z.eq_dec x (2 ^ 32 - 1)) as [-> | Hne]; [discriminate Hmod | lia]. }
  rewrite Hlt. apply IH.
  - apply u32_add_range.
  - unfold U32.add, U32.wrap, U32.modulus in *.
    Z.to_euclidean_division_equations. lia.
Qed.

(** ** The element collection *)

Lemma dashboard_init_wf (dash : dashboard_t) (nm : list Z) :
  length (elements dash) = 32%nat -> dashboard_wf (dashboard_init dash nm).
Proof. intros H. unfold dashboard_wf, MAX_ELEMENTS. simpl. split; [exact H | lia]. Qed.

Lemma dashboard_add_element_wf (dash : dashboard_t) (element : dash_element_t) :
  dashboard_wf dash -> dashboard_wf (dashboard_add_element dash element).
Proof.
  intros [Hlen Hcnt]. unfold dashboard_add_element.
  destruct (element_count dash <? 32) eqn:Hlt; [|now split].
  apply Z.ltb_lt in Hlt. unfold dashboard_wf, MAX_ELEMENTS in *. simpl.
  rewrite length_insert. split; [exact Hlen|].
  unfold U32.add. rewrite u32_wrap_small; unfold U32.modulus; lia.
Qed.

Lemma dashboard_update_value_wf (dash : dashboard_t) (element_id : Z) (value : spec_float) :
  dashboard_wf dash -> dashboard_wf (dashboard_update_value dash element_id value).
Proof.
  intros [Hlen Hcnt]. unfold dashboard_update_value.
  destruct (element_id <? element_count dash); [|now split].
  unfold dashboard_wf. simpl. now rewrite length_alter.
Qed.

Lemma render_take_update (dash : dashboard_t) (element_id : Z) (value : spec_float) :
  0 <= element_id < element_count dash ->
  take (Z.to_nat (element_count (dashboard_update_value dash element_id value)))
       (elements (dashboard_update_value dash element_id value))
  = alter (set_value value) (Z.to_nat element_id)
      (take (Z.to_nat (element_count dash)) (elements dash)).
Proof.
  intros [H0 Hlt]. unfold dashboard_update_value.
  apply Z.ltb_lt in Hlt as Hb. rewrite Hb. simpl.
  apply take_alter_lt. lia.
Qed.

(** ** Comparison of binary32 numbers *)

Lemma pos_compare_cont_antisym (p q : positive) (c : comparison) :
  Pos.compare_cont (CompOpp c) q p = CompOpp (Pos.compare_cont c p q).
Proof. symmetry. apply Pos.compare_cont_antisym. Qed.

Lemma SFcompare_antisym (x y : spec_float) :
  SFcompare y x = option_map CompOpp (SFcompare x y).
Proof.
  destruct x as [sx|sx| |sx mx ex], y as [sy|sy| |sy my ey]; simpl;
    try reflexivity;
    try (destruct sx; reflexivity); try (destruct sy; reflexivity);
    try (destruct sx, sy; reflexivity).
  destruct sx, sy; simpl; try reflexivity;
    rewrite (Z.compare_antisym ex ey);
    destruct (ex ?= ey); simpl; try reflexivity;
    rewrite <- (pos_compare_cont_antisym mx my Eq); simpl;
    try rewrite CompOpp_involutive; reflexivity.
Qed.

Lemma ltb_compare (x y : spec_float) : F32.ltb x y = true <-> SFcompare x y = Some Lt.
Proof.
  unfold F32.ltb, SFltb. destruct (SFcompare x y) as [[]|]; split; congruence.
Qed.

Lemma gtb_compare (x y : spec_float) : F32.ltb y x = true <-> SFcompare x y = Some Gt.
Proof.
  rewrite ltb_compare, (SFcompare_antisym x y).
  destruct (SFcompare x y) as [[]|]; simpl; split; congruence.
Qed.

Lemma to_u32_nonneg (f : spec_float) : 0 <= F32.to_u32 f.
Proof.
  unfold F32.to_u32, U32.modulus.
  destruct f as [s|s| |s m e]; try lia.
  - destruct s; lia.
  - destruct s; [lia|]. apply Z.min_glb; [lia|].
    destruct e.
    + rewrite Z.shiftl_nonneg. lia.
    + rewrite Z.shiftl_nonneg. lia.
    + rewrite Z.shiftr_nonneg. lia.
Qed.

(** The two successive tests of [render_gauge] compute [clamp(p, 0, 1)]. *)
Lemma clamp_percentage_clamp01 (p : spec_float) : clamp_percentage p = clamp01 p.
Proof.
  unfold clamp_percentage, clamp01.
  destruct (F32.ltb p F32.zero); reflexivity.
Qed.

Lemma gauge_fill_width_spec (elem : dash_element_t) :
  gauge_fill_width elem = spec_fill_width elem.
Proof.
  unfold gauge_fill_width, spec_fill_width, percentage_of.
  now rewrite clamp_percentage_clamp01.
Qed.

(** ** Value *)

Lemma leb_compare (x y : spec_float) :
  F32.leb x y = true <-> SFcompare x y = Some Lt \/ SFcompare x y = Some Eq.
Proof.
  unfold F32.leb, SFleb.
  destruct (SFcompare x y) as [[]|]; split; intros H; auto; try discriminate;
    destruct H; discriminate.
Qed.

Lemma compare_nan_r (x y : spec_float) : F32.is_nan y = true -> SFcompare x y = None.
Proof. destruct y; try discriminate. destruct x; reflexivity. Qed.

Lemma compare_not_nan (x y : spec_float) :
  F32.is_nan x = false -> F32.is_nan y = false -> SFcompare x y <> None.
Proof.
  destruct x as [sx|sx| |sx mx ex], y as [sy|sy| |sy my ey]; simpl;
    intros Hx Hy; discriminate.
Qed.

(** Above a threshold, above every lower threshold of the same
    exponent. *)
Lemma compare_gt_lower (p : spec_float) (m_hi m_lo : positive) (e0 : Z) :
  (m_lo < m_hi)%positive ->
  SFcompare p (S754_finite false m_hi e0) = Some Gt ->
  SFcompare p (S754_finite false m_lo e0) = Some Gt.
Proof.
  intros Hlt.
  destruct p as [s|s| |s m e]; cbn [SFcompare]; try discriminate; try (intros H; exact H).
  destruct s; [discriminate|].
  destruct (e ?= e0); try discriminate; try reflexivity.
  change (Pos.compare_cont Eq m m_hi) with (m ?= m_hi)%positive.
  change (Pos.compare_cont Eq m m_lo) with (m ?= m_lo)%positive.
  intros H. injection H as H. f_equal.
  apply Pos.compare_gt_iff in H. apply Pos.compare_gt_iff. lia.
Qed.

(** The colour chosen by the two [>] tests, by zones of the fraction. *)
Lemma indicator_color_zones (elem : dash_element_t) :
  indicator_color elem = code_indicator_color elem.
Proof.
  unfold indicator_color, code_indicator_color, percentage_of.
  set (p := F32.div _ _).
  destruct (F32.is_nan p) eqn:Hnan.
  - unfold F32.ltb, SFltb. now rewrite !compare_nan_r.
  - pose proof (compare_not_nan p F32.c0_8 Hnan eq_refl) as H8.
    pose proof (compare_not_nan p F32.c0_6 Hnan eq_refl) as H6.
    assert (Hgt : SFcompare p F32.c0_8 = Some Gt -> SFcompare p F32.c0_6 = Some Gt).
    { apply compare_gt_lower. reflexivity. }
    unfold F32.ltb, F32.leb, SFltb, SFleb.
    rewrite (SFcompare_antisym p F32.c0_8), (SFcompare_antisym p F32.c0_6).
    destruct (SFcompare p F32.c0_8) as [[]|]; [| | |congruence];
      destruct (SFcompare p F32.c0_6) as [[]|]; try congruence; try reflexivity;
      specialize (Hgt eq_refl); discriminate.
Qed.

(** ** Degenerate range: [max == min] *)

Lemma compare_eq_finite (s1 s2 : bool) (m1 m2 : positive) (e1 e2 : Z) :
  SFcompare (S754_finite s1 m1 e1) (S754_finite s2 m2 e2) = Some Eq ->
  s1 = s2 /\ m1 = m2 /\ e1 = e2.
Proof.
  cbn [SFcompare]. intros H. injection H as H.
  destruct s1, s2; try discriminate;
    destruct (e1 ?= e2) eqn:He; try discriminate;
    apply Z.compare_eq in He;
    change (Pos.compare_cont Eq m1 m2) with (m1 ?= m2)%positive in H.
  - destruct (m1 ?= m2)%positive eqn:Hm; try discriminate.
    apply Pos.compare_eq in Hm. auto.
  - apply Pos.compare_eq in H. auto.
Qed.

(** The difference of two equal numbers is a zero, or NaN for two equal
    infinities. *)
Lemma sub_eq_zero_or_nan (x y : spec_float) :
  F32.eqb x y = true ->
  (exists s, F32.sub x y = S754_zero s) \/ F32.sub x y = S754_nan.
Proof.
  unfold F32.eqb, SFeqb. intros H.
  destruct (SFcompare x y) as [[]|] eqn:Hc; try discriminate. clear H.
  destruct x as [sx|sx| |sx mx ex], y as [sy|sy| |sy my ey];
    try (simpl in Hc; discriminate);
    try (simpl in Hc; destruct sx; discriminate);
    try (simpl in Hc; destruct sy; discriminate).
  - left. destruct sx, sy; simpl; eauto.
  - right. destruct sx, sy; simpl in *; try discriminate; reflexivity.
  - apply compare_eq_finite in Hc as (-> & -> & ->).
    left. exists false. unfold F32.sub, SFsub.
    rewrite Z.sub_diag. reflexivity.
Qed.

(** A division by a zero or by NaN gives an infinity or NaN. *)
Lemma div_by_zero_or_nan (a d : spec_float) :
  (exists s, d = S754_zero s) \/ d = S754_nan ->
  F32.div a d = S754_nan \/ F32.div a d = S754_infinity false
  \/ F32.div a d = S754_infinity true.
Proof.
  intros [[s ->] | ->]; destruct a as [sa|sa| |sa ma ea]; simpl; auto;
    destruct (xorb sa s); auto.
Qed.

Lemma mul_zero_l_to_u32 (w : spec_float) : F32.to_u32 (F32.mul F32.zero w) = 0.
Proof. destruct w as [s|s| |s m e]; reflexivity. Qed.

(** ** Rounding to nearest in binary32

    The operations of [SpecFloat] round through [binary_round_aux].  The
    lemmas below describe its result for a fraction [Nm / Dn] scaled by a
    power of two, and show that it grows with the fraction. *)

Lemma fexp32_eq e : fexp 24 128 e = fexp32 e.
Proof. reflexivity. Qed.

Lemma shr_1_spec (m : Z) (r s : bool) :
  0 <= m ->
  shr_1 {| shr_m := m; shr_r := r; shr_s := s |}
  = {| shr_m := m / 2; shr_r := Z.odd m; shr_s := r || s |}.
Proof.
  intros Hm. destruct m as [|p|p]; [reflexivity| |lia].
  destruct p as [p|p|]; cbn [shr_1 Z.odd].
  - f_equal. change (Zpos p~1) with (2 * Zpos p + 1).
    Z.to_euclidean_division_equations. lia.
  - f_equal. change (Zpos p~0) with (2 * Zpos p).
    Z.to_euclidean_division_equations. lia.
  - reflexivity.
Qed.

Lemma shr_1_m_nonneg (mrs : shr_record) : 0 <= shr_m mrs -> 0 <= shr_m (shr_1 mrs).
Proof.
  destruct mrs as [m r s]. cbn [shr_m]. intros Hm. rewrite shr_1_spec by lia.
  cbn [shr_m]. Z.to_euclidean_division_equations. lia.
Qed.

Lemma shrn_m_nonneg (n : nat) (mrs : shr_record) : 0 <= shr_m mrs -> 0 <= shr_m (shrn n mrs).
Proof.
  intros Hm. induction n as [|n IH]; [exact Hm|].
  change (0 <= shr_m (shr_1 (shrn n mrs))). now apply shr_1_m_nonneg.
Qed.

Lemma iter_pos_shrn (p : positive) (mrs : shr_record) :
  SpecFloat.iter_pos shr_1 p mrs = shrn (Pos.to_nat p) mrs.
Proof.
  unfold shrn. revert mrs. induction p as [p IH|p IH|]; intros mrs; cbn [SpecFloat.iter_pos].
  - rewrite !IH, Pos2Nat.inj_xI.
    replace (Datatypes.S (2 * Pos.to_nat p)) with (Pos.to_nat p + (Pos.to_nat p + 1))%nat by lia.
    rewrite !Nat.iter_add. reflexivity.
  - rewrite !IH, Pos2Nat.inj_xO.
    replace (2 * Pos.to_nat p)%nat with (Pos.to_nat p + Pos.to_nat p)%nat by lia.
    rewrite Nat.iter_add. reflexivity.
  - reflexivity.
Qed.

Lemma shr_shrn (mrs : shr_record) (e n : Z) :
  0 <= n -> shr mrs e n = (shrn (Z.to_nat n) mrs, e + n).
Proof.
  intros Hn. destruct n as [|p|p]; [|  |lia].
  - cbn. now rewrite Z.add_0_r.
  - cbn [shr]. rewrite iter_pos_shrn. reflexivity.
Qed.

Lemma shr_nonpos (mrs : shr_record) (e n : Z) : n <= 0 -> shr mrs e n = (mrs, e).
Proof. intros Hn. destruct n as [|p|p]; [reflexivity|lia|reflexivity]. Qed.

Lemma shrn_add (a b : nat) (mrs : shr_record) : shrn (a + b) mrs = shrn a (shrn b mrs).
Proof. unfold shrn. apply Nat.iter_add. Qed.

Lemma shr_1_m (mrs : shr_record) :
  0 <= shr_m mrs -> shr_m (shr_1 mrs) = shr_m mrs / 2.
Proof.
  destruct mrs as [m r s]. cbn [shr_m]. intros Hm. now rewrite shr_1_spec.
Qed.

Lemma shrn_S (n : nat) (mrs : shr_record) : shrn (Datatypes.S n) mrs = shr_1 (shrn n mrs).
Proof. reflexivity. Qed.

Lemma shrn_m (n : nat) (mrs : shr_record) :
  0 <= shr_m mrs -> shr_m (shrn n mrs) = shr_m mrs / 2 ^ Z.of_nat n.
Proof.
  intros Hm. induction n as [|n IH].
  - cbn. now rewrite Z.div_1_r.
  - rewrite shrn_S, shr_1_m by now apply shrn_m_nonneg.
    rewrite IH, Nat2Z.inj_succ, Z.pow_succ_r by lia.
    rewrite Z.div_div by lia. f_equal. lia.
Qed.

Lemma rec_code_shr_1_mono (a b : shr_record) :
  0 <= shr_m a -> 0 <= shr_m b -> rec_code a <= rec_code b -> rec_code (shr_1 a) <= rec_code (shr_1 b).
Proof.
  destruct a as [ma ra sa], b as [mb rb sb]. unfold rec_code. cbn [shr_m shr_r shr_s].
  intros Ha Hb Hle. rewrite !shr_1_spec by lia. cbn [shr_m shr_r shr_s].
  rewrite (Zodd_mod ma), (Zodd_mod mb).
  destruct ra, sa, rb, sb; cbn [orb];
    destruct (Z.eqb_spec (ma mod 2) 1), (Z.eqb_spec (mb mod 2) 1);
    Z.to_euclidean_division_equations; lia.
Qed.

Lemma rec_code_shrn_mono (n : nat) (a b : shr_record) :
  0 <= shr_m a -> 0 <= shr_m b -> rec_code a <= rec_code b -> rec_code (shrn n a) <= rec_code (shrn n b).
Proof.
  intros Ha Hb Hle. induction n as [|n IH]; [exact Hle|].
  rewrite !shrn_S.
  apply rec_code_shr_1_mono; auto; apply (shrn_m_nonneg n); auto.
Qed.

(** Number of binary digits *)

Lemma digits2_pos_bounds (p : positive) :
  2 ^ (Zpos (digits2_pos p) - 1) <= Zpos p < 2 ^ Zpos (digits2_pos p).
Proof.
  induction p as [p IH|p IH|]; cbn [digits2_pos].
  - rewrite Pos2Z.inj_succ. change (Zpos p~1) with (2 * Zpos p + 1).
    replace (Z.succ (Zpos (digits2_pos p)) - 1) with (Z.succ (Zpos (digits2_pos p) - 1)) by lia.
    rewrite !Z.pow_succ_r by lia. lia.
  - rewrite Pos2Z.inj_succ. change (Zpos p~0) with (2 * Zpos p).
    replace (Z.succ (Zpos (digits2_pos p)) - 1) with (Z.succ (Zpos (digits2_pos p) - 1)) by lia.
    rewrite !Z.pow_succ_r by lia. lia.
  - cbn. lia.
Qed.

Lemma Zdigits2_nonneg (m : Z) : 0 <= Zdigits2 m.
Proof. destruct m; cbn; lia. Qed.

Lemma Zdigits2_bounds (m : Z) :
  0 < m -> 2 ^ (Zdigits2 m - 1) <= m < 2 ^ Zdigits2 m.
Proof. destruct m as [|p|p]; try lia. intros _. apply digits2_pos_bounds. Qed.

Lemma Zdigits2_pos (m : Z) : 0 < m -> 0 < Zdigits2 m.
Proof. destruct m; cbn; lia. Qed.

Lemma Zdigits2_le_iff (m k : Z) : 0 <= m -> 0 <= k -> (Zdigits2 m <= k <-> m < 2 ^ k).
Proof.
  intros Hm Hk. destruct (Z.eq_dec m 0) as [-> | Hne].
  - cbn. split; intros _; [apply Z.pow_pos_nonneg|]; lia.
  - pose proof (Zdigits2_bounds m ltac:(lia)) as [Hlo Hhi].
    pose proof (Zdigits2_pos m ltac:(lia)) as Hd.
    split; intros H.
    + eapply Z.lt_le_trans; [exact Hhi|]. apply Z.pow_le_mono_r; lia.
    + destruct (Z_lt_le_dec k (Zdigits2 m)) as [Hlt|]; [|lia].
      assert (2 ^ k <= 2 ^ (Zdigits2 m - 1)) by (apply Z.pow_le_mono_r; lia). lia.
Qed.

Lemma Zdigits2_ge_iff (m k : Z) : 0 <= m -> 0 < k -> (k <= Zdigits2 m <-> 2 ^ (k - 1) <= m).
Proof.
  intros Hm Hk.
  pose proof (Zdigits2_le_iff m (k - 1) Hm ltac:(lia)) as H. lia.
Qed.

Lemma Zdigits2_mono (a b : Z) : 0 <= a <= b -> Zdigits2 a <= Zdigits2 b.
Proof.
  intros [Ha Hab].
  pose proof (Zdigits2_nonneg b) as Hb.
  apply Zdigits2_le_iff; try lia.
  assert (b < 2 ^ Zdigits2 b) by (apply Zdigits2_le_iff; lia). lia.
Qed.

Lemma Zdigits2_div_pow (m n : Z) :
  0 <= m -> 0 <= n -> Zdigits2 (m / 2 ^ n) = Z.max 0 (Zdigits2 m - n).
Proof.
  intros Hm Hn.
  assert (Hp : 0 < 2 ^ n) by (apply Z.pow_pos_nonneg; lia).
  assert (Hq : 0 <= m / 2 ^ n) by (apply Z.div_pos; lia).
  pose proof (Zdigits2_nonneg m) as Hdm.
  apply Z.le_antisymm.
  - apply Zdigits2_le_iff; try lia.
    apply Z.div_lt_upper_bound; [lia|].
    rewrite <- Z.pow_add_r by lia.
    apply Zdigits2_le_iff; lia.
  - apply Z.max_lub; [apply Zdigits2_nonneg|].
    destruct (Z_le_gt_dec (Zdigits2 m - n) 0) as [|Hgt]; [pose proof (Zdigits2_nonneg (m / 2 ^ n)); lia|].
    apply Zdigits2_ge_iff; try lia.
    apply Z.div_le_lower_bound; [lia|].
    rewrite <- Z.pow_add_r by lia.
    replace (n + (Zdigits2 m - n - 1)) with (Zdigits2 m - 1) by lia.
    apply Zdigits2_ge_iff; lia.
Qed.

Lemma shr_m_of_loc (m : Z) (l : location) : shr_m (shr_record_of_loc m l) = m.
Proof. destruct l as [|[]]; reflexivity. Qed.

Lemma canon_rec_bounds (m e : Z) (l : location) :
  0 <= m -> e <= fexp32 (Zdigits2 m + e) ->
  0 <= shr_m (canon_rec m e l) < 2 ^ 24
  /\ (-149 < fexp32 (Zdigits2 m + e) -> 2 ^ 23 <= shr_m (canon_rec m e l)).
Proof.
  intros Hm Hpre. unfold canon_rec.
  set (c := fexp32 (Zdigits2 m + e)) in *.
  rewrite shrn_m by (rewrite shr_m_of_loc; lia).
  rewrite shr_m_of_loc, Z2Nat.id by lia.
  assert (Hp : 0 < 2 ^ (c - e)) by (apply Z.pow_pos_nonneg; lia).
  pose proof (Zdigits2_nonneg m) as Hd.
  split; [split|].
  - apply Z.div_pos; lia.
  - apply Zdigits2_le_iff; [apply Z.div_pos; lia | lia |].
    rewrite Zdigits2_div_pow by lia. unfold c, fexp32 in *. lia.
  - intros Hc. change (2 ^ 23) with (2 ^ (24 - 1)).
    apply Zdigits2_ge_iff; [apply Z.div_pos; lia | lia |].
    rewrite Zdigits2_div_pow by lia. unfold c, fexp32 in *. lia.
Qed.

Lemma rne_bounds (m : Z) (l : location) :
  m <= round_nearest_even m l <= m + 1.
Proof. destruct l as [|[]]; cbn; try lia. destruct (Z.even m); lia. Qed.

Lemma round32_finalize (s : bool) (m1 c : Z) :
  0 <= m1 <= 2 ^ 24 -> -149 <= c ->
  (let '(mrs, e) := shr_fexp 24 128 m1 c loc_Exact in
   match shr_m mrs with
   | Z0 => S754_zero s
   | Zpos m => if e <=? 128 - 24 then S754_finite s m e else S754_infinity s
   | Zneg _ => S754_nan
   end) = finalize s m1 c.
Proof.
  intros Hm Hc. unfold shr_fexp. rewrite fexp32_eq.
  change (2 ^ 24) with 16777216 in Hm.
  destruct (Z.eq_dec m1 16777216) as [-> | Hne].
  - change (Zdigits2 16777216) with 25.
    replace (fexp32 (25 + c) - c) with 1 by (unfold fexp32; lia).
    reflexivity.
  - assert (Hd : Zdigits2 m1 <= 24).
    { apply Zdigits2_le_iff; lia. }
    rewrite shr_nonpos by (unfold fexp32; lia).
    cbn [shr_record_of_loc shr_m]. unfold finalize.
    destruct m1 as [|p|p]; [reflexivity| |lia].
    assert (Hlt : (Z.pos p <? 16777216) = true) by (apply Z.ltb_lt; lia).
    rewrite Hlt. reflexivity.
Qed.

Lemma round32_char (s : bool) (m e : Z) (l : location) :
  0 <= m -> e <= fexp32 (Zdigits2 m + e) ->
  round32 s m e l
  = finalize s
      (round_nearest_even (shr_m (canon_rec m e l)) (loc_of_shr_record (canon_rec m e l)))
      (fexp32 (Zdigits2 m + e)).
Proof.
  intros Hm Hpre.
  pose proof (canon_rec_bounds m e l Hm Hpre) as [Hb _].
  unfold round32, binary_round_aux.
  unfold shr_fexp at 1. rewrite fexp32_eq, shr_shrn by lia.
  fold (canon_rec m e l).
  replace (e + (fexp32 (Zdigits2 m + e) - e)) with (fexp32 (Zdigits2 m + e)) by lia.
  apply round32_finalize.
  - pose proof (rne_bounds (shr_m (canon_rec m e l)) (loc_of_shr_record (canon_rec m e l))). lia.
  - unfold fexp32. lia.
Qed.

Lemma rec_of_loc_of_rec (mrs : shr_record) :
  shr_record_of_loc (shr_m mrs) (loc_of_shr_record mrs) = mrs.
Proof. destruct mrs as [m [] []]; reflexivity. Qed.

Lemma rec_code_of_loc (m : Z) (l : location) :
  4 * m <= rec_code (shr_record_of_loc m l) <= 4 * m + 3.
Proof. destruct l as [|[]]; unfold rec_code; cbn; lia. Qed.

Lemma rec_code_m (mrs : shr_record) : 4 * shr_m mrs <= rec_code mrs <= 4 * shr_m mrs + 3.
Proof. destruct mrs as [m [] []]; unfold rec_code; cbn; lia. Qed.

Lemma rne_rec_code_mono (a b : shr_record) : rec_code a <= rec_code b -> rne a <= rne b.
Proof.
  destruct a as [ma ra sa], b as [mb rb sb]. unfold rec_code, rne. cbn [shr_m shr_r shr_s].
  intros Hle.
  destruct (Z.eq_dec ma mb) as [-> | Hne].
  - destruct ra, sa, rb, sb; cbn; try lia; destruct (Z.even mb); lia.
  - assert (Hlt : ma + 1 <= mb) by (destruct ra, sa, rb, sb; lia).
    pose proof (rne_bounds ma (loc_of_shr_record {| shr_m := ma; shr_r := ra; shr_s := sa |})).
    pose proof (rne_bounds mb (loc_of_shr_record {| shr_m := mb; shr_r := rb; shr_s := sb |})).
    lia.
Qed.

Lemma round32_coarsen (s : bool) (m e n : Z) (l : location) :
  0 <= m -> 0 <= n -> e + n <= fexp32 (Zdigits2 m + e) ->
  round32 s m e l
  = round32 s (shr_m (shrn (Z.to_nat n) (shr_record_of_loc m l))) (e + n)
      (loc_of_shr_record (shrn (Z.to_nat n) (shr_record_of_loc m l))).
Proof.
  intros Hm Hn Hpre.
  set (rn := shrn (Z.to_nat n) (shr_record_of_loc m l)).
  assert (Hrn : shr_m rn = m / 2 ^ n).
  { unfold rn. rewrite shrn_m by (rewrite shr_m_of_loc; lia).
    now rewrite shr_m_of_loc, Z2Nat.id by lia. }
  assert (Hp : 0 < 2 ^ n) by (apply Z.pow_pos_nonneg; lia).
  assert (Hq : 0 <= m / 2 ^ n) by (apply Z.div_pos; lia).
  assert (Hc : fexp32 (Zdigits2 (shr_m rn) + (e + n)) = fexp32 (Zdigits2 m + e)).
  { rewrite Hrn, Zdigits2_div_pow by lia.
    pose proof (Zdigits2_nonneg m). unfold fexp32 in *. lia. }
  rewrite (round32_char s m e l) by lia.
  rewrite (round32_char s (shr_m rn) (e + n)) by (rewrite ?Hc; lia).
  rewrite Hc. f_equal.
  assert (Hcanon : canon_rec (shr_m rn) (e + n) (loc_of_shr_record rn) = canon_rec m e l).
  { unfold canon_rec. rewrite Hc, rec_of_loc_of_rec. unfold rn.
    rewrite <- shrn_add. f_equal. lia. }
  now rewrite Hcanon.
Qed.

(** Order of the results *)

Lemma leb_finite_pos (m1 m2 : positive) (e1 e2 : Z) :
  SFleb (S754_finite false m1 e1) (S754_finite false m2 e2) = true
  <-> e1 < e2 \/ (e1 = e2 /\ (m1 <= m2)%positive).
Proof.
  unfold SFleb. cbn [SFcompare].
  change (Pos.compare_cont Eq m1 m2) with (m1 ?= m2)%positive.
  destruct (Z.compare_spec e1 e2) as [He|He|He].
  - destruct (Pos.compare_spec m1 m2) as [Hm|Hm|Hm]; split; intros H;
      try discriminate; try reflexivity; lia.
  - split; [intros _; lia | reflexivity].
  - split; [discriminate | lia].
Qed.

Lemma pack_mono (m1 m2 c1 c2 : Z) :
  0 < m1 -> 0 < m2 -> c1 < c2 \/ (c1 = c2 /\ m1 <= m2) ->
  SFleb (pack false m1 c1) (pack false m2 c2) = true.
Proof.
  intros H1 H2 Hle. unfold pack.
  destruct (Z.leb_spec c1 104) as [Hc1|Hc1]; destruct (Z.leb_spec c2 104) as [Hc2|Hc2].
  - apply leb_finite_pos.
    destruct Hle as [Hlt | [Heq Hm]]; [now left | right].
    split; [exact Heq|]. lia.
  - reflexivity.
  - lia.
  - reflexivity.
Qed.

Lemma zero_leb_pack (m c : Z) : SFleb (S754_zero false) (pack false m c) = true.
Proof. unfold pack. destruct (c <=? 104); reflexivity. Qed.

Lemma finalize_mono_m (a b c : Z) :
  0 <= a <= b -> b <= 2 ^ 24 ->
  SFleb (finalize false a c) (finalize false b c) = true.
Proof.
  change (2 ^ 24) with 16777216.
  intros Hab Hb. unfold finalize.
  destruct (Z.eqb_spec a 0) as [Ha0|Ha0].
  - destruct (b =? 0); [reflexivity|].
    destruct (b <? 16777216); apply zero_leb_pack.
  - destruct (Z.eqb_spec b 0) as [Hb0|Hb0]; [lia|].
    destruct (Z.ltb_spec a 16777216) as [Ha|Ha];
      destruct (Z.ltb_spec b 16777216) as [Hb'|Hb']; apply pack_mono; lia.
Qed.

Lemma finalize_mono_exp (a b c1 c2 : Z) :
  0 <= a <= 2 ^ 24 -> 2 ^ 23 <= b <= 2 ^ 24 -> c1 < c2 ->
  SFleb (finalize false a c1) (finalize false b c2) = true.
Proof.
  change (2 ^ 24) with 16777216. change (2 ^ 23) with 8388608.
  intros Ha Hb Hc. unfold finalize.
  destruct (Z.eqb_spec b 0) as [Hb0|Hb0]; [lia|].
  destruct (Z.eqb_spec a 0) as [Ha0|Ha0].
  - destruct (b <? 16777216); apply zero_leb_pack.
  - destruct (Z.ltb_spec a 16777216) as [Ha'|Ha'];
      destruct (Z.ltb_spec b 16777216) as [Hb'|Hb']; apply pack_mono; lia.
Qed.

Lemma round32_mono (m1 m2 e : Z) (l1 l2 : location) :
  0 <= m1 -> 0 <= m2 ->
  e <= fexp32 (Zdigits2 m1 + e) ->
  rec_code (shr_record_of_loc m1 l1) <= rec_code (shr_record_of_loc m2 l2) ->
  SFleb (round32 false m1 e l1) (round32 false m2 e l2) = true.
Proof.
  intros Hm1 Hm2 Hpre1 Hcode.
  assert (Hle : m1 <= m2).
  { pose proof (rec_code_of_loc m1 l1). pose proof (rec_code_of_loc m2 l2). lia. }
  pose proof (Zdigits2_mono m1 m2 ltac:(lia)) as Hd.
  assert (Hpre2 : e <= fexp32 (Zdigits2 m2 + e)) by (unfold fexp32 in *; lia).
  rewrite (round32_char false m1 e l1), (round32_char false m2 e l2) by assumption.
  pose proof (canon_rec_bounds m1 e l1 Hm1 Hpre1) as [Hb1 _].
  pose proof (canon_rec_bounds m2 e l2 Hm2 Hpre2) as [Hb2 Hn2].
  fold (rne (canon_rec m1 e l1)). fold (rne (canon_rec m2 e l2)).
  pose proof (rne_bounds (shr_m (canon_rec m1 e l1)) (loc_of_shr_record (canon_rec m1 e l1)))
    as Hr1.
  pose proof (rne_bounds (shr_m (canon_rec m2 e l2)) (loc_of_shr_record (canon_rec m2 e l2)))
    as Hr2.
  fold (rne (canon_rec m1 e l1)) in Hr1. fold (rne (canon_rec m2 e l2)) in Hr2.
  destruct (Z.eq_dec (fexp32 (Zdigits2 m1 + e)) (fexp32 (Zdigits2 m2 + e))) as [Heq | Hne].
  - rewrite Heq. apply finalize_mono_m; [|lia].
    split; [lia|]. apply rne_rec_code_mono. unfold canon_rec. rewrite Heq.
    apply rec_code_shrn_mono; rewrite ?shr_m_of_loc; auto.
  - apply finalize_mono_exp; try lia.
    + split; [|lia]. assert (2 ^ 23 <= shr_m (canon_rec m2 e l2)); [|lia].
      apply Hn2. unfold fexp32 in *. lia.
    + unfold fexp32 in *. lia.
Qed.

(** Position of a fraction [Nm / Dn] between two consecutive integers *)

Lemma double_div_mod (Nm Dn : Z) :
  0 <= Nm -> 0 < Dn ->
  (2 * (Nm mod Dn) < Dn /\ (2 * Nm) / Dn = 2 * (Nm / Dn) /\ (2 * Nm) mod Dn = 2 * (Nm mod Dn))
  \/ (Dn <= 2 * (Nm mod Dn) /\ (2 * Nm) / Dn = 2 * (Nm / Dn) + 1
      /\ (2 * Nm) mod Dn = 2 * (Nm mod Dn) - Dn).
Proof.
  intros HN HD.
  pose proof (Z.div_mod Nm Dn ltac:(lia)) as Hdm.
  pose proof (Z.mod_pos_bound Nm Dn HD) as Hr.
  destruct (Z_lt_le_dec (2 * (Nm mod Dn)) Dn) as [Hlt | Hge]; [left | right].
  - split; [exact Hlt|].
    assert (Heq : 2 * Nm = Dn * (2 * (Nm / Dn)) + 2 * (Nm mod Dn)) by lia.
    split; symmetry.
    + apply (Z.div_unique _ _ _ (2 * (Nm mod Dn))); [left; lia | exact Heq].
    + apply (Z.mod_unique _ _ (2 * (Nm / Dn))); [left; lia | exact Heq].
  - split; [exact Hge|].
    assert (Heq : 2 * Nm = Dn * (2 * (Nm / Dn) + 1) + (2 * (Nm mod Dn) - Dn)) by lia.
    split; symmetry.
    + apply (Z.div_unique _ _ _ (2 * (Nm mod Dn) - Dn)); [left; lia | exact Heq].
    + apply (Z.mod_unique _ _ (2 * (Nm / Dn) + 1)); [left; lia | exact Heq].
Qed.

Ltac split_tests :=
  repeat match goal with
         | |- context [Z.leb ?a ?b] => destruct (Z.leb_spec a b)
         | |- context [Z.eqb ?a ?b] => destruct (Z.eqb_spec a b)
         end;
  cbn [negb andb orb]; try reflexivity; try lia.

Lemma frac_record_shr_1 (Nm Dn : Z) :
  0 <= Nm -> 0 < Dn -> shr_1 (frac_record (2 * Nm) Dn) = frac_record Nm Dn.
Proof.
  intros HN HD. unfold frac_record.
  assert (Hq : 0 <= Nm / Dn) by (apply Z.div_pos; lia).
  pose proof (Z.mod_pos_bound Nm Dn HD) as Hr.
  rewrite shr_1_spec by (apply Z.div_pos; lia).
  destruct (double_div_mod Nm Dn HN HD) as [(Hlt & Hd & Hm) | (Hge & Hd & Hm)];
    rewrite Hd, Hm.
  - f_equal.
    + rewrite Z.mul_comm. apply Z.div_mul. lia.
    + rewrite Z.odd_mul. cbn. symmetry. apply Z.leb_gt. exact Hlt.
    + generalize dependent (Nm mod Dn). intros. split_tests.
  - f_equal.
    + Z.to_euclidean_division_equations. lia.
    + rewrite Z.add_comm, Z.odd_add_mul_2. cbn. symmetry. apply Z.leb_le. exact Hge.
    + generalize dependent (Nm mod Dn). intros. split_tests.
Qed.

Lemma frac_record_shrn (n : nat) (Nm Dn : Z) :
  0 <= Nm -> 0 < Dn -> shrn n (frac_record (2 ^ Z.of_nat n * Nm) Dn) = frac_record Nm Dn.
Proof.
  intros HN HD. induction n as [|n IH].
  - cbn [shrn Nat.iter]. now rewrite Z.pow_0_r, Z.mul_1_l.
  - rewrite Nat2Z.inj_succ, Z.pow_succ_r by lia.
    replace (Datatypes.S n) with (n + 1)%nat by lia.
    rewrite shrn_add. cbn [shrn Nat.iter].
    rewrite <- Z.mul_assoc, frac_record_shr_1; auto.
    apply Z.mul_nonneg_nonneg; [apply Z.pow_nonneg|]; lia.
Qed.

Lemma frac_record_code_mono (N1 N2 Dn : Z) :
  0 <= N1 <= N2 -> 0 < Dn -> rec_code (frac_record N1 Dn) <= rec_code (frac_record N2 Dn).
Proof.
  intros HN HD. unfold rec_code, frac_record. cbn [shr_m shr_r shr_s].
  pose proof (Z.div_mod N1 Dn ltac:(lia)) as E1.
  pose proof (Z.div_mod N2 Dn ltac:(lia)) as E2.
  pose proof (Z.mod_pos_bound N1 Dn HD) as R1.
  pose proof (Z.mod_pos_bound N2 Dn HD) as R2.
  pose proof (Z.div_le_mono N1 N2 Dn HD ltac:(lia)) as Hq.
  destruct (Z.eq_dec (N1 / Dn) (N2 / Dn)) as [Heq | Hne].
  - rewrite Heq in *.
    assert (Hr : N1 mod Dn <= N2 mod Dn) by lia.
    destruct (Z.leb_spec Dn (2 * (N1 mod Dn))); destruct (Z.leb_spec Dn (2 * (N2 mod Dn)));
      destruct (Z.eqb_spec (N1 mod Dn) 0); destruct (Z.eqb_spec (N2 mod Dn) 0);
      destruct (Z.eqb_spec (2 * (N1 mod Dn)) Dn); destruct (Z.eqb_spec (2 * (N2 mod Dn)) Dn);
      cbn [negb andb]; lia.
  - destruct (Dn <=? 2 * (N1 mod Dn)), (Dn <=? 2 * (N2 mod Dn)),
      (negb (N1 mod Dn =? 0) && negb (2 * (N1 mod Dn) =? Dn)),
      (negb (N2 mod Dn =? 0) && negb (2 * (N2 mod Dn) =? Dn)); lia.
Qed.

Lemma frac_record_rec (Nm Dn : Z) :
  shr_record_of_loc (Nm / Dn) (loc_of_shr_record (frac_record Nm Dn)) = frac_record Nm Dn.
Proof. apply (rec_of_loc_of_rec (frac_record Nm Dn)). Qed.

Lemma round_frac_mono (N1 N2 Dn e : Z) :
  0 <= N1 <= N2 -> 0 < Dn -> e <= -149 ->
  SFleb (round_frac false N1 Dn e) (round_frac false N2 Dn e) = true.
Proof.
  intros HN HD He. unfold round_frac.
  apply round32_mono.
  - apply Z.div_pos; lia.
  - apply Z.div_pos; lia.
  - unfold fexp32. lia.
  - rewrite !frac_record_rec. now apply frac_record_code_mono.
Qed.

Lemma round_frac_refine (s : bool) (Nm Dn e k : Z) :
  0 <= Nm -> 0 < Dn -> 0 <= k ->
  e <= fexp32 (Zdigits2 (Nm / Dn) + e) ->
  round_frac s (2 ^ k * Nm) Dn (e - k) = round_frac s Nm Dn e.
Proof.
  intros HN HD Hk Hpre. unfold round_frac.
  assert (Hpk : 0 < 2 ^ k) by (apply Z.pow_pos_nonneg; lia).
  assert (HN' : 0 <= 2 ^ k * Nm) by (apply Z.mul_nonneg_nonneg; lia).
  assert (Hq : 0 <= Nm / Dn) by (apply Z.div_pos; lia).
  assert (Hq' : 0 <= 2 ^ k * Nm / Dn) by (apply Z.div_pos; lia).
  rewrite (round32_coarsen s (2 ^ k * Nm / Dn) (e - k) k); try lia.
  - rewrite frac_record_rec.
    replace (2 ^ k) with (2 ^ Z.of_nat (Z.to_nat k)) by (now rewrite Z2Nat.id).
    rewrite frac_record_shrn by lia.
    replace (e - k + k) with e by lia. reflexivity.
  - replace (e - k + k) with e by lia.
    destruct (Z.eq_dec (Nm / Dn) 0) as [H0 | H0].
    + rewrite H0 in Hpre. cbn [Zdigits2] in Hpre. unfold fexp32 in *. lia.
    + assert (Hd : Zdigits2 (Nm / Dn) + k <= Zdigits2 (2 ^ k * Nm / Dn)).
      { pose proof (Zdigits2_pos (Nm / Dn) ltac:(lia)) as Hdp.
        apply Zdigits2_ge_iff; try lia.
        replace (Zdigits2 (Nm / Dn) + k - 1) with (k + (Zdigits2 (Nm / Dn) - 1)) by lia.
        rewrite Z.pow_add_r by lia.
        pose proof (Zdigits2_bounds (Nm / Dn) ltac:(lia)) as [Hlo _].
        apply Z.div_le_lower_bound; [lia|].
        pose proof (Z.mul_div_le Nm Dn HD) as Hmd.
        transitivity (2 ^ k * (Dn * (Nm / Dn))).
        - rewrite Z.mul_assoc, (Z.mul_comm Dn), <- Z.mul_assoc.
          apply Z.mul_le_mono_nonneg_l; [lia|].
          apply Z.mul_le_mono_nonneg_l; lia.
        - apply Z.mul_le_mono_nonneg_l; lia. }
      unfold fexp32 in *. lia.
Qed.

Lemma new_location_frac_record (Nm Dn : Z) :
  0 <= Nm -> 0 < Dn ->
  new_location Dn (Nm mod Dn) = loc_of_shr_record (frac_record Nm Dn).
Proof.
  intros HN HD. pose proof (Z.mod_pos_bound Nm Dn HD) as Hr.
  unfold new_location, new_location_even, new_location_odd, frac_record, loc_of_shr_record.
  generalize dependent (Nm mod Dn). intros r Hr.
  destruct (Z.even Dn) eqn:Hev.
  - destruct (Z.eqb_spec r 0) as [-> | Hr0].
    + destruct (Z.leb_spec Dn (2 * 0)); [lia|]. reflexivity.
    + destruct (Z.compare_spec (2 * r) Dn);
        destruct (Z.leb_spec Dn (2 * r)); destruct (Z.eqb_spec (2 * r) Dn);
        cbn [negb andb]; try reflexivity; lia.
  - assert (Hodd : 2 * r <> Dn).
    { intros <-. rewrite Z.even_mul in Hev. discriminate. }
    destruct (Z.eqb_spec r 0) as [-> | Hr0].
    + destruct (Z.leb_spec Dn (2 * 0)); [lia|]. reflexivity.
    + destruct (Z.compare_spec (2 * r + 1) Dn);
        destruct (Z.leb_spec Dn (2 * r)); destruct (Z.eqb_spec (2 * r) Dn);
        cbn [negb andb]; try reflexivity; lia.
Qed.

Lemma Zdigits2_mul_pow (m k : Z) :
  0 < m -> 0 <= k -> Zdigits2 (m * 2 ^ k) = Zdigits2 m + k.
Proof.
  intros Hm Hk.
  assert (Hp : 0 < 2 ^ k) by (apply Z.pow_pos_nonneg; lia).
  pose proof (Zdigits2_bounds m Hm) as [Hlo Hhi].
  pose proof (Zdigits2_pos m Hm) as Hd.
  apply Z.le_antisymm.
  - apply Zdigits2_le_iff; try lia. rewrite Z.pow_add_r by lia.
    apply Z.mul_lt_mono_pos_r; lia.
  - apply Zdigits2_ge_iff; try lia.
    replace (Zdigits2 m + k - 1) with (Zdigits2 m - 1 + k) by lia.
    rewrite Z.pow_add_r by lia. apply Z.mul_le_mono_nonneg_r; lia.
Qed.

Lemma Zdigits2_quot (a b : Z) :
  0 < a -> 0 < b -> Zdigits2 a - Zdigits2 b <= Zdigits2 (a / b).
Proof.
  intros Ha Hb.
  pose proof (Zdigits2_nonneg (a / b)) as Hq.
  destruct (Z_le_gt_dec (Zdigits2 a - Zdigits2 b) 0) as [|Hgt]; [lia|].
  pose proof (Zdigits2_bounds a Ha) as [Hlo _].
  pose proof (Zdigits2_bounds b Hb) as [_ Hhi].
  pose proof (Zdigits2_pos b Hb) as Hdb.
  apply Zdigits2_ge_iff; [apply Z.div_pos; lia | lia |].
  apply Z.div_le_lower_bound; [lia|].
  transitivity (2 ^ Zdigits2 b * 2 ^ (Zdigits2 a - Zdigits2 b - 1)).
  - apply Z.mul_le_mono_nonneg_r; [apply Z.pow_nonneg|]; lia.
  - rewrite <- Z.pow_add_r by lia.
    replace (Zdigits2 b + (Zdigits2 a - Zdigits2 b - 1)) with (Zdigits2 a - 1) by lia.
    exact Hlo.
Qed.

Lemma fexp32_mono (a b : Z) : a <= b -> fexp32 a <= fexp32 b.
Proof. unfold fexp32. lia. Qed.

Lemma SFdiv_finite_round_frac (sa sd : bool) (ma md : positive) (ea ed : Z) :
  -253 <= ea - ed ->
  SFdiv 24 128 (S754_finite sa ma ea) (S754_finite sd md ed)
  = round_frac (xorb sa sd) (Zpos ma * 2 ^ (ea - ed + 253)) (Zpos md) (-253).
Proof.
  intros Hrange. cbn [SFdiv]. unfold SFdiv_core_binary. rewrite fexp32_eq.
  set (K := Zdigits2 (Zpos ma) + ea - (Zdigits2 (Zpos md) + ed)).
  set (e' := Z.min (fexp32 K) (ea - ed)).
  set (s := ea - ed - e').
  assert (Hs : 0 <= s) by (unfold s, e'; lia).
  set (m' := match s with Zpos _ => Z.shiftl (Zpos ma) s | Z0 => Zpos ma | Zneg _ => 0 end).
  assert (Hm' : m' = Zpos ma * 2 ^ s).
  { unfold m'. destruct s as [|p|p]; [lia| |lia]. apply Z.shiftl_mul_pow2. lia. }
  assert (Hps : 0 < 2 ^ s) by (apply Z.pow_pos_nonneg; lia).
  assert (Hm'pos : 0 < m') by (rewrite Hm'; lia).
  assert (Hq : Z.div_eucl m' (Zpos md) = (m' / Zpos md, m' mod Zpos md)).
  { unfold Z.div, Z.modulo. now destruct (Z.div_eucl m' (Zpos md)). }
  rewrite Hq.
  rewrite new_location_frac_record by lia.
  change (binary_round_aux 24 128 (xorb sa sd) (m' / Zpos md) e'
            (loc_of_shr_record (frac_record m' (Zpos md))))
    with (round_frac (xorb sa sd) m' (Zpos md) e').
  assert (Hk : 0 <= e' + 253) by (unfold e', fexp32; lia).
  rewrite <- (round_frac_refine (xorb sa sd) m' (Zpos md) e' (e' + 253)); try lia.
  - replace (e' - (e' + 253)) with (-253) by lia. f_equal.
    rewrite Hm', Z.mul_comm, <- Z.mul_assoc, <- Z.pow_add_r by lia.
    f_equal. f_equal. unfold s. lia.
  - transitivity (fexp32 K); [unfold e'; lia|].
    apply fexp32_mono.
    pose proof (Zdigits2_quot m' (Zpos md) Hm'pos ltac:(lia)) as Hdq.
    rewrite Hm', Zdigits2_mul_pow in Hdq by lia.
    rewrite <- Hm' in Hdq. unfold K, s in *. lia.
Qed.

(** Exact inputs: subtraction *)

Lemma round_frac_exact (s : bool) (Nm e : Z) : round_frac s Nm 1 e = round32 s Nm e loc_Exact.
Proof.
  unfold round_frac, frac_record. rewrite Z.div_1_r, Z.mod_1_r. reflexivity.
Qed.

Lemma pos_iter_xO (m d : positive) : Zpos (Pos.iter xO m d) = Zpos m * 2 ^ Zpos d.
Proof.
  rewrite <- Z.shiftl_mul_pow2 by lia. cbn [Z.shiftl].
  apply (Pos.iter_swap_gen _ _ Zpos xO (Z.mul 2)). reflexivity.
Qed.

Lemma shl_align_spec (m : positive) (e e' : Z) :
  Zpos (fst (shl_align m e e')) = Zpos m * 2 ^ (e - Z.min e e')
  /\ snd (shl_align m e e') = Z.min e e'.
Proof.
  unfold shl_align. destruct (e' - e) as [|d|d] eqn:Hd; cbn [fst snd].
  - replace (Z.min e e') with e by lia. rewrite Z.sub_diag. cbn. split; lia.
  - replace (Z.min e e') with e by lia. rewrite Z.sub_diag. cbn. split; lia.
  - replace (Z.min e e') with e' by lia. rewrite pos_iter_xO. split; [|reflexivity].
    f_equal. f_equal. lia.
Qed.

Lemma binary_round_round_frac (s : bool) (p : positive) (e : Z) :
  -149 <= e ->
  binary_round 24 128 s p e = round_frac s (Zpos p * 2 ^ (e + 149)) 1 (-149).
Proof.
  intros He. unfold binary_round. rewrite fexp32_eq.
  pose proof (shl_align_spec p e (fexp32 (Zpos (digits2_pos p) + e))) as [Hm Hez].
  destruct (shl_align p e (fexp32 (Zpos (digits2_pos p) + e))) as [mz ez].
  cbn [fst snd] in Hm, Hez.
  change (binary_round_aux 24 128) with round32. rewrite <- round_frac_exact.
  assert (Hk : 0 <= ez + 149) by (unfold fexp32 in *; lia).
  assert (Hd : Zdigits2 (Zpos mz) + ez = Zpos (digits2_pos p) + e).
  { rewrite Hm, Zdigits2_mul_pow by lia. cbn [Zdigits2]. lia. }
  rewrite <- (round_frac_refine s (Zpos mz) 1 ez (ez + 149)); try lia.
  - replace (ez - (ez + 149)) with (-149) by lia. f_equal.
    rewrite Hm, Z.mul_comm, <- Z.mul_assoc, <- Z.pow_add_r by lia.
    f_equal. f_equal. lia.
  - rewrite Z.div_1_r, Hd. unfold fexp32 in *. lia.
Qed.

Lemma canonical32_canonical (m : positive) (e : Z) :
  canonical32 m e -> fexp32 (Zdigits2 (Zpos m) + e) = e.
Proof.
  intros (Hhi & He & Hlo).
  assert (Hd : Zdigits2 (Zpos m) <= 24) by (apply Zdigits2_le_iff; lia).
  destruct (Z.eq_dec e (-149)) as [-> | Hne]; [unfold fexp32; lia|].
  assert (Hd' : 24 <= Zdigits2 (Zpos m)).
  { apply Zdigits2_ge_iff; lia. }
  unfold fexp32. lia.
Qed.

Lemma valid_binary_canonical32 (s : bool) (m : positive) (e : Z) :
  valid_binary 24 128 (S754_finite s m e) = true -> canonical32 m e.
Proof.
  cbn [valid_binary]. unfold bounded, canonical_mantissa. rewrite fexp32_eq.
  intros H. apply andb_prop in H as [Hc Hb].
  apply Z.eqb_eq in Hc. apply Z.leb_le in Hb.
  change (Zpos (digits2_pos m)) with (Zdigits2 (Zpos m)) in Hc.
  pose proof (Zdigits2_pos (Zpos m) ltac:(lia)) as Hd.
  unfold canonical32. split; [|split].
  - apply Zdigits2_le_iff; try lia. unfold fexp32 in Hc. lia.
  - unfold fexp32 in Hc. lia.
  - intros He. change (2 ^ 23) with (2 ^ (24 - 1)).
    apply Zdigits2_ge_iff; try lia. unfold fexp32 in Hc. lia.
Qed.

Lemma shrn_0 (mrs : shr_record) : shrn 0 mrs = mrs.
Proof. reflexivity. Qed.

(** A representable number rounds to itself. *)
Lemma round_frac_id (s : bool) (m : positive) (e : Z) :
  canonical32 m e -> round_frac s (Zpos m * 2 ^ (e + 149)) 1 (-149) = S754_finite s m e.
Proof.
  intros Hwf. pose proof (canonical32_canonical m e Hwf) as Hc.
  destruct Hwf as (Hhi & He & Hlo).
  rewrite <- binary_round_round_frac by lia.
  unfold binary_round. rewrite fexp32_eq.
  change (Zpos (digits2_pos m)) with (Zdigits2 (Zpos m)). rewrite Hc.
  unfold shl_align. rewrite Z.sub_diag.
  change (binary_round_aux 24 128) with round32.
  rewrite round32_char by (rewrite ?Hc; lia).
  unfold canon_rec. rewrite Hc, Z.sub_diag. cbn [Z.to_nat]. rewrite shrn_0.
  cbn [shr_record_of_loc shr_m loc_of_shr_record round_nearest_even].
  unfold finalize, pack.
  destruct (Z.eqb_spec (Zpos m) 0) as [|_]; [lia|].
  destruct (Z.ltb_spec (Zpos m) 16777216) as [_|]; [|lia].
  destruct (Z.leb_spec e 104) as [_|]; [|lia].
  reflexivity.
Qed.

Lemma rank_finite_nonzero (s : bool) (m : positive) (e : Z) :
  -149 <= e ->
  (s = false -> 0 < rank (S754_finite s m e))
  /\ (s = true -> rank (S754_finite s m e) < 0).
Proof.
  intros He.
  assert (Hp : 0 < 2 ^ (e + 149)) by (apply Z.pow_pos_nonneg; lia).
  assert (Hm : 0 < Zpos m * 2 ^ (e + 149)) by lia.
  cbn [rank]. split; intros ->; cbn [cond_Zopp]; lia.
Qed.

Lemma binary_normalize_round_frac (M ez : Z) :
  -149 <= ez ->
  binary_normalize 24 128 M ez false
  = if M =? 0 then S754_zero false
    else round_frac (M <? 0) (Z.abs (M * 2 ^ (ez + 149))) 1 (-149).
Proof.
  intros He.
  assert (Hp : 0 < 2 ^ (ez + 149)) by (apply Z.pow_pos_nonneg; lia).
  destruct M as [|p|p]; cbn [binary_normalize].
  - reflexivity.
  - rewrite binary_round_round_frac by lia.
    replace (Z.abs (Zpos p * 2 ^ (ez + 149))) with (Zpos p * 2 ^ (ez + 149)) by lia.
    reflexivity.
  - rewrite binary_round_round_frac by lia.
    replace (Z.abs (Zneg p * 2 ^ (ez + 149))) with (Zpos p * 2 ^ (ez + 149)) by lia.
    reflexivity.
Qed.

Lemma SFsub_rank (x y : spec_float) :
  finite32 x -> finite32 y ->
  (rank x - rank y = 0 -> exists s, SFsub 24 128 x y = S754_zero s)
  /\ (rank x - rank y <> 0 ->
      SFsub 24 128 x y = round_frac (rank x - rank y <? 0) (Z.abs (rank x - rank y)) 1 (-149)).
Proof.
  intros Hx Hy.
  destruct x as [sx|sx| |sx mx ex], y as [sy|sy| |sy my ey]; cbn [finite32] in Hx, Hy;
    try contradiction.
  - split; [|cbn; lia]. intros _. destruct sx, sy; cbn; eauto.
  - destruct Hy as (Hhi & He & Hlo).
    destruct (rank_finite_nonzero sy my ey ltac:(lia)) as [Hpos Hneg].
    split; [destruct sy; cbn [rank] in *; specialize (Hpos eq_refl) || specialize (Hneg eq_refl); lia|].
    intros _. cbn [SFsub].
    rewrite <- (round_frac_id (negb sy) my ey) by (repeat split; lia).
    destruct sy; [specialize (Hneg eq_refl)|specialize (Hpos eq_refl)];
      cbn [rank cond_Zopp negb] in *.
    + replace (0 - - (Zpos my * 2 ^ (ey + 149)) <? 0) with false by (symmetry; apply Z.ltb_ge; lia).
      f_equal. lia.
    + replace (0 - Zpos my * 2 ^ (ey + 149) <? 0) with true by (symmetry; apply Z.ltb_lt; lia).
      f_equal. lia.
  - destruct Hx as (Hhi & He & Hlo).
    destruct (rank_finite_nonzero sx mx ex ltac:(lia)) as [Hpos Hneg].
    split; [destruct sx; cbn [rank] in *; specialize (Hpos eq_refl) || specialize (Hneg eq_refl); lia|].
    intros _. cbn [SFsub].
    rewrite <- (round_frac_id sx mx ex) at 1 by (repeat split; lia).
    destruct sx; [specialize (Hneg eq_refl)|specialize (Hpos eq_refl)];
      cbn [rank cond_Zopp negb] in *; rewrite Z.sub_0_r.
    + replace (- (Zpos mx * 2 ^ (ex + 149)) <? 0) with true by (symmetry; apply Z.ltb_lt; lia).
      f_equal. lia.
    + replace (Zpos mx * 2 ^ (ex + 149) <? 0) with false by (symmetry; apply Z.ltb_ge; lia).
      f_equal. lia.
  - destruct Hx as (Hhix & Hex & Hlox), Hy as (Hhiy & Hey & Hloy).
    cbn [SFsub].
    pose proof (shl_align_spec mx ex (Z.min ex ey)) as [Hax _].
    pose proof (shl_align_spec my ey (Z.min ex ey)) as [Hay _].
    replace (Z.min ex (Z.min ex ey)) with (Z.min ex ey) in Hax by lia.
    replace (Z.min ey (Z.min ex ey)) with (Z.min ex ey) in Hay by lia.
    rewrite Hax, Hay.
    rewrite binary_normalize_round_frac by lia.
    set (M := cond_Zopp sx (Zpos mx * 2 ^ (ex - Z.min ex ey))
              - cond_Zopp sy (Zpos my * 2 ^ (ey - Z.min ex ey))).
    assert (HU : rank (S754_finite sx mx ex) - rank (S754_finite sy my ey)
                 = M * 2 ^ (Z.min ex ey + 149)).
    { unfold M. cbn [rank].
      assert (Hpx : 2 ^ (ex + 149) = 2 ^ (ex - Z.min ex ey) * 2 ^ (Z.min ex ey + 149)).
      { rewrite <- Z.pow_add_r by lia. f_equal. lia. }
      assert (Hpy : 2 ^ (ey + 149) = 2 ^ (ey - Z.min ex ey) * 2 ^ (Z.min ex ey + 149)).
      { rewrite <- Z.pow_add_r by lia. f_equal. lia. }
      rewrite Hpx, Hpy.
      destruct sx, sy; cbn [cond_Zopp]; ring. }
    assert (Hp : 0 < 2 ^ (Z.min ex ey + 149)) by (apply Z.pow_pos_nonneg; lia).
    rewrite HU.
    destruct (Z.eqb_spec M 0) as [-> | HM].
    + split; [eauto | lia].
    + split; [intros H0; apply Z.mul_eq_0 in H0; lia|].
      intros _. f_equal.
      destruct (Z.ltb_spec M 0); destruct (Z.ltb_spec (M * 2 ^ (Z.min ex ey + 149)) 0);
        try reflexivity; nia.
Qed.

(** Order of binary32 numbers as an order of integers *)

Lemma canonical32_magnitude (m : positive) (e : Z) :
  canonical32 m e -> 0 < Zpos m * 2 ^ (e + 149) < 2 ^ 300.
Proof.
  intros (Hhi & He & Hlo).
  assert (Hp : 0 < 2 ^ (e + 149)) by (apply Z.pow_pos_nonneg; lia).
  split; [lia|].
  apply Z.lt_le_trans with (2 ^ 24 * 2 ^ (e + 149)).
  - apply Z.mul_lt_mono_pos_r; lia.
  - rewrite <- Z.pow_add_r by lia. apply Z.pow_le_mono_r; lia.
Qed.

Lemma canonical32_magnitude_lt (m1 m2 : positive) (e1 e2 : Z) :
  canonical32 m1 e1 -> canonical32 m2 e2 -> e1 < e2 ->
  Zpos m1 * 2 ^ (e1 + 149) < Zpos m2 * 2 ^ (e2 + 149).
Proof.
  intros (Hhi1 & He1 & Hlo1) (Hhi2 & He2 & Hlo2) Hlt.
  assert (Hp1 : 0 < 2 ^ (e1 + 149)) by (apply Z.pow_pos_nonneg; lia).
  assert (Hp2 : 0 < 2 ^ (e2 + 149)) by (apply Z.pow_pos_nonneg; lia).
  apply Z.lt_le_trans with (2 ^ 24 * 2 ^ (e1 + 149)).
  - apply Z.mul_lt_mono_pos_r; lia.
  - apply Z.le_trans with (2 ^ 23 * 2 ^ (e2 + 149)).
    + rewrite <- !Z.pow_add_r by lia. apply Z.pow_le_mono_r; lia.
    + apply Z.mul_le_mono_nonneg_r; lia.
Qed.

Lemma compare_finite_pos_rank (m1 m2 : positive) (e1 e2 : Z) :
  canonical32 m1 e1 -> canonical32 m2 e2 ->
  match e1 ?= e2 with
  | Lt => Lt
  | Gt => Gt
  | Eq => Pos.compare_cont Eq m1 m2
  end = (Zpos m1 * 2 ^ (e1 + 149) ?= Zpos m2 * 2 ^ (e2 + 149)).
Proof.
  intros H1 H2. symmetry.
  destruct (Z.compare_spec e1 e2) as [-> | Hlt | Hgt].
  - assert (Hp : 0 < 2 ^ (e2 + 149)).
    { destruct H2 as (_ & He & _). apply Z.pow_pos_nonneg; lia. }
    rewrite <- Zmult_compare_compat_r by lia. reflexivity.
  - apply Z.compare_lt_iff. now apply canonical32_magnitude_lt.
  - apply Z.compare_gt_iff. now apply canonical32_magnitude_lt.
Qed.

Lemma compare_rank (x y : spec_float) :
  binary32 x -> binary32 y -> SFcompare x y = Some (rank x ?= rank y).
Proof.
  intros Hx Hy.
  destruct x as [sx|sx| |sx mx ex], y as [sy|sy| |sy my ey]; cbn [binary32] in Hx, Hy;
    try contradiction; cbn [SFcompare rank].
  - reflexivity.
  - destruct sy; reflexivity.
  - pose proof (canonical32_magnitude my ey Hy) as Hm. f_equal. symmetry.
    destruct sy; cbn [cond_Zopp].
    + apply Z.compare_gt_iff. lia.
    + apply Z.compare_lt_iff. lia.
  - destruct sx; reflexivity.
  - destruct sx, sy; reflexivity.
  - pose proof (canonical32_magnitude my ey Hy) as Hm. f_equal. symmetry.
    destruct sx, sy; cbn [cond_Zopp];
      (apply Z.compare_lt_iff; lia) || (apply Z.compare_gt_iff; lia).
  - pose proof (canonical32_magnitude mx ex Hx) as Hm. f_equal. symmetry.
    destruct sx; cbn [cond_Zopp].
    + apply Z.compare_lt_iff. lia.
    + apply Z.compare_gt_iff. lia.
  - pose proof (canonical32_magnitude mx ex Hx) as Hm. f_equal. symmetry.
    destruct sx, sy; cbn [cond_Zopp];
      (apply Z.compare_lt_iff; lia) || (apply Z.compare_gt_iff; lia).
  - pose proof (canonical32_magnitude mx ex Hx) as Hm1.
    pose proof (canonical32_magnitude my ey Hy) as Hm2.
    f_equal. destruct sx, sy; cbn [cond_Zopp].
    + rewrite Z.compare_opp.
      rewrite <- (compare_finite_pos_rank my mx ey ex) by assumption.
      rewrite (Z.compare_antisym ey ex).
      destruct (ey ?= ex); cbn [CompOpp]; try reflexivity.
      change (Pos.compare_cont Eq mx my) with (mx ?= my)%positive.
      change (Pos.compare_cont Eq my mx) with (my ?= mx)%positive.
      symmetry. apply Pos.compare_antisym.
    + symmetry. apply Z.compare_lt_iff. lia.
    + symmetry. apply Z.compare_gt_iff. lia.
    + now apply compare_finite_pos_rank.
Qed.

Lemma leb_rank (x y : spec_float) : binary32 x -> binary32 y -> (SFleb x y = true <-> rank x <= rank y).
Proof.
  intros Hx Hy. unfold SFleb. rewrite compare_rank by assumption.
  destruct (Z.compare_spec (rank x) (rank y)); split; intros Hc; try reflexivity;
    try discriminate; lia.
Qed.

Lemma ltb_rank (x y : spec_float) : binary32 x -> binary32 y -> (SFltb x y = true <-> rank x < rank y).
Proof.
  intros Hx Hy. unfold SFltb. rewrite compare_rank by assumption.
  destruct (Z.compare_spec (rank x) (rank y)); split; intros Hc; try reflexivity;
    try discriminate; lia.
Qed.

(** The results of rounding *)

Lemma round_frac_cases (s : bool) (Nm Dn e : Z) :
  0 <= Nm -> 0 < Dn -> e <= -149 ->
  round_frac s Nm Dn e = S754_zero s \/ round_frac s Nm Dn e = S754_infinity s
  \/ exists m' e', round_frac s Nm Dn e = S754_finite s m' e' /\ canonical32 m' e'.
Proof.
  intros HN HD He. unfold round_frac.
  assert (Hq : 0 <= Nm / Dn) by (apply Z.div_pos; lia).
  assert (Hpre : e <= fexp32 (Zdigits2 (Nm / Dn) + e)) by (unfold fexp32; lia).
  rewrite round32_char by assumption.
  pose proof (canon_rec_bounds (Nm / Dn) e (loc_of_shr_record (frac_record Nm Dn)) Hq Hpre)
    as [Hb Hn].
  set (r := canon_rec (Nm / Dn) e (loc_of_shr_record (frac_record Nm Dn))) in *.
  set (c := fexp32 (Zdigits2 (Nm / Dn) + e)) in *.
  pose proof (rne_bounds (shr_m r) (loc_of_shr_record r)) as Hr.
  assert (Hc : -149 <= c) by (unfold c, fexp32; lia).
  change (2 ^ 24) with 16777216 in *. change (2 ^ 23) with 8388608 in *.
  unfold finalize, pack.
  destruct (Z.eqb_spec (round_nearest_even (shr_m r) (loc_of_shr_record r)) 0) as [H0|H0];
    [now left|].
  destruct (Z.ltb_spec (round_nearest_even (shr_m r) (loc_of_shr_record r)) 16777216)
    as [Hlt|Hge].
  - destruct (Z.leb_spec c 104) as [Hc104|]; [|now right; left].
    right; right. eexists _, _. split; [reflexivity|].
    unfold canonical32. change (2 ^ 24) with 16777216. change (2 ^ 23) with 8388608.
    rewrite Z2Pos.id by lia. lia.
  - destruct (Z.leb_spec (c + 1) 104) as [Hc104|]; [|now right; left].
    right; right. eexists _, _. split; [reflexivity|].
    unfold canonical32. change (2 ^ 24) with 16777216. change (2 ^ 23) with 8388608. lia.
Qed.

Lemma round_frac_binary32 (s : bool) (Nm Dn e : Z) :
  0 <= Nm -> 0 < Dn -> e <= -149 -> binary32 (round_frac s Nm Dn e).
Proof.
  intros HN HD He.
  destruct (round_frac_cases s Nm Dn e HN HD He) as [-> | [-> | (m' & e' & -> & Hwf)]];
    cbn [binary32]; auto.
Qed.

(** The sign of a rounded number *)
Lemma round_frac_rank_sign (s : bool) (Nm Dn e : Z) :
  0 <= Nm -> 0 < Dn -> e <= -149 ->
  if s then rank (round_frac s Nm Dn e) <= 0 else 0 <= rank (round_frac s Nm Dn e).
Proof.
  intros HN HD He.
  destruct (round_frac_cases s Nm Dn e HN HD He) as [-> | [-> | (m' & e' & -> & Hwf)]];
    cbn [rank].
  - destruct s; lia.
  - destruct s; cbn [cond_Zopp]; lia.
  - pose proof (canonical32_magnitude m' e' Hwf). destruct s; cbn [cond_Zopp]; lia.
Qed.

Lemma round_frac_rank_mono (N1 N2 Dn e : Z) :
  0 <= N1 <= N2 -> 0 < Dn -> e <= -149 ->
  rank (round_frac false N1 Dn e) <= rank (round_frac false N2 Dn e).
Proof.
  intros HN HD He. apply leb_rank; try (apply round_frac_binary32; lia). now apply round_frac_mono.
Qed.

(** ** The clamped fraction, in ranks *)

Lemma valid_binary32 (x : spec_float) : F32.valid x = true -> F32.is_nan x = false -> binary32 x.
Proof.
  destruct x as [s|s| |s m e]; cbn [binary32]; auto; try discriminate.
  intros Hv _. now apply (valid_binary_canonical32 s).
Qed.

Lemma finite32_binary32 (x : spec_float) : finite32 x -> binary32 x.
Proof. destruct x; cbn; auto. Qed.

Lemma binary32_finite32 (x : spec_float) : binary32 x -> F32.is_finite x = true -> finite32 x.
Proof. destruct x; cbn; auto; discriminate. Qed.

Lemma rank_bound (x : spec_float) : binary32 x -> - 2 ^ 300 <= rank x <= 2 ^ 300.
Proof.
  destruct x as [s|s| |s m e]; cbn [binary32 rank]; try lia.
  - intros _. destruct s; cbn [cond_Zopp]; lia.
  - intros Hwf. pose proof (canonical32_magnitude m e Hwf). destruct s; cbn [cond_Zopp]; lia.
Qed.

Lemma rank_bound_fin (x : spec_float) : finite32 x -> - 2 ^ 300 < rank x < 2 ^ 300.
Proof.
  destruct x as [s|s| |s m e]; cbn [finite32 rank]; try lia; try contradiction.
  intros Hwf. pose proof (canonical32_magnitude m e Hwf). destruct s; cbn [cond_Zopp]; lia.
Qed.

Lemma binary32_one : binary32 F32.one.
Proof. cbn. unfold canonical32. lia. Qed.

Lemma rank_one_pos : 0 < rank F32.one.
Proof. reflexivity. Qed.

Lemma clamp_rank (p : spec_float) :
  binary32 p ->
  binary32 (clamp_percentage p)
  /\ rank (clamp_percentage p) = Z.max 0 (Z.min (rank F32.one) (rank p)).
Proof.
  intros Hp. pose proof rank_one_pos as H1. unfold clamp_percentage.
  destruct (F32.ltb p F32.zero) eqn:Hlt0.
  - apply (ltb_rank p F32.zero Hp I) in Hlt0. change (rank F32.zero) with 0 in Hlt0.
    change (F32.ltb F32.one F32.zero) with false. cbn iota.
    split; [exact I|]. change (rank F32.zero) with 0. lia.
  - assert (H0 : 0 <= rank p).
    { destruct (Z_lt_le_dec (rank p) 0) as [Hneg|]; [|assumption].
      apply (ltb_rank p F32.zero Hp I) in Hneg. unfold F32.ltb in Hlt0. congruence. }
    destruct (F32.ltb F32.one p) eqn:Hlt1.
    + apply (ltb_rank F32.one p binary32_one Hp) in Hlt1. split; [exact binary32_one | lia].
    + assert (Hle : rank p <= rank F32.one).
      { destruct (Z_lt_le_dec (rank F32.one) (rank p)) as [Hgt|]; [|assumption].
        apply (ltb_rank F32.one p binary32_one Hp) in Hgt. unfold F32.ltb in Hlt1. congruence. }
      split; [exact Hp | lia].
Qed.

Lemma sub_self (x : spec_float) : finite32 x -> F32.sub x x = F32.zero.
Proof.
  destruct x as [s|s| |s m e]; cbn [finite32]; try contradiction; intros _.
  - destruct s; reflexivity.
  - unfold F32.sub, SFsub. rewrite Z.sub_diag. reflexivity.
Qed.

Lemma div_self (s : bool) (m : positive) (e : Z) :
  F32.div (S754_finite s m e) (S754_finite s m e) = F32.one.
Proof.
  unfold F32.div. rewrite SFdiv_finite_round_frac by lia.
  replace (xorb s s) with false by (now destruct s).
  replace (e - e + 253) with 253 by lia.
  rewrite (Z.mul_comm (Zpos m)).
  assert (Hrec : frac_record (2 ^ 253 * Zpos m) (Zpos m)
                 = {| shr_m := 2 ^ 253; shr_r := false; shr_s := false |}).
  { unfold frac_record. rewrite Z.div_mul, Z.mod_mul by lia. reflexivity. }
  unfold round_frac. rewrite Hrec, Z.div_mul by lia. vm_compute. reflexivity.
Qed.

Lemma round_frac_pos (U : Z) : 1 <= U -> 0 < rank (round_frac false U 1 (-149)).
Proof.
  intros HU.
  pose proof (round_frac_rank_mono 1 U 1 (-149) ltac:(lia) ltac:(lia) ltac:(lia)) as Hm.
  assert (H1 : round_frac false 1 1 (-149) = S754_finite false 1 (-149)).
  { apply (round_frac_id false 1 (-149)). unfold canonical32. lia. }
  rewrite H1 in Hm. cbn [rank cond_Zopp] in Hm. cbn in Hm. lia.
Qed.

(** The difference with a finite number: its sign, and its growth. *)
Lemma sub_rank (v mn : spec_float) :
  finite32 v -> finite32 mn ->
  binary32 (F32.sub v mn)
  /\ (rank v <= rank mn -> rank (F32.sub v mn) <= 0)
  /\ (rank mn < rank v -> F32.sub v mn = round_frac false (rank v - rank mn) 1 (-149)).
Proof.
  intros Hv Hmn. change (F32.sub v mn) with (SFsub 24 128 v mn).
  destruct (SFsub_rank v mn Hv Hmn) as [Hz Hnz].
  destruct (Z.eq_dec (rank v - rank mn) 0) as [H0 | H0].
  - destruct (Hz H0) as [s ->]. split; [exact I|]. split; [cbn; lia | lia].
  - rewrite (Hnz H0).
    split; [apply round_frac_binary32; lia|]. split.
    + intros Hle. assert (Hneg : (rank v - rank mn <? 0) = true) by (apply Z.ltb_lt; lia).
      rewrite Hneg.
      apply (round_frac_rank_sign true (Z.abs (rank v - rank mn)) 1 (-149)); lia.
    + intros Hlt. assert (Hpos : (rank v - rank mn <? 0) = false) by (apply Z.ltb_ge; lia).
      rewrite Hpos. f_equal. lia.
Qed.

Lemma sub_inf (s : bool) (mn : spec_float) :
  finite32 mn -> F32.sub (S754_infinity s) mn = S754_infinity s.
Proof. destruct mn; cbn [finite32]; try contradiction; reflexivity. Qed.

Lemma sub_binary32 (v mn : spec_float) : binary32 v -> finite32 mn -> binary32 (F32.sub v mn).
Proof.
  intros Hv Hmn. destruct v as [s|s| |s m e]; try contradiction.
  - now apply sub_rank.
  - now rewrite sub_inf.
  - now apply sub_rank.
Qed.

Lemma sub_mono (v1 v2 mn : spec_float) :
  binary32 v1 -> binary32 v2 -> finite32 mn -> rank v1 <= rank v2 ->
  rank (F32.sub v1 mn) <= 0
  \/ 0 < rank (F32.sub v1 mn) <= rank (F32.sub v2 mn).
Proof.
  intros H1 H2 Hmn Hle.
  pose proof (rank_bound_fin mn Hmn) as Bmn.
  assert (Hcases : forall v, binary32 v ->
            v = S754_infinity true \/ v = S754_infinity false \/ finite32 v).
  { intros [s|[]| |s m e]; cbn; auto. }
  destruct (Hcases v1 H1) as [-> | [-> | F1]].
  - left. rewrite sub_inf by assumption. cbn. lia.
  - right. destruct (Hcases v2 H2) as [-> | [-> | F2]].
    + cbn in Hle. lia.
    + rewrite sub_inf by assumption. cbn. lia.
    + pose proof (rank_bound_fin v2 F2). cbn in Hle. lia.
  - destruct (Z_le_gt_dec (rank v1) (rank mn)) as [Hneg | Hpos].
    + left. now apply sub_rank.
    + right. destruct (sub_rank v1 mn F1 Hmn) as (_ & _ & E1). rewrite E1 by lia.
      pose proof (round_frac_pos (rank v1 - rank mn) ltac:(lia)) as Hp.
      split; [exact Hp|].
      destruct (Hcases v2 H2) as [-> | [-> | F2]].
      * pose proof (rank_bound_fin v1 F1). cbn in Hle. lia.
      * rewrite sub_inf by assumption.
        apply (rank_bound (round_frac false (rank v1 - rank mn) 1 (-149))).
        apply round_frac_binary32; lia.
      * destruct (sub_rank v2 mn F2 Hmn) as (_ & _ & E2). rewrite E2 by lia.
        apply round_frac_rank_mono; lia.
Qed.

(** The quotient by a positive finite number: its sign, and its growth. *)
Lemma div_rank (a : spec_float) (md : positive) (ed : Z) :
  binary32 a -> canonical32 md ed ->
  binary32 (F32.div a (S754_finite false md ed))
  /\ (rank a <= 0 -> rank (F32.div a (S754_finite false md ed)) <= 0).
Proof.
  intros Ha Hd. unfold F32.div.
  destruct a as [s|s| |s m e]; cbn [binary32] in Ha; try contradiction.
  - cbn. split; [exact I | lia].
  - cbn [SFdiv]. rewrite xorb_false_r. split; [exact I|]. auto.
  - destruct Ha as (Hhi & He & Hlo). destruct Hd as (Hhid & Hed & Hlod).
    rewrite SFdiv_finite_round_frac by lia. rewrite xorb_false_r.
    assert (HN : 0 <= Zpos m * 2 ^ (e - ed + 253)).
    { apply Z.mul_nonneg_nonneg; [lia | apply Z.pow_nonneg; lia]. }
    split; [apply round_frac_binary32; lia|].
    intros Hneg. destruct s.
    + apply (round_frac_rank_sign true); lia.
    + assert (0 < 2 ^ (e + 149)) by (apply Z.pow_pos_nonneg; lia).
      cbn [rank cond_Zopp] in Hneg. lia.
Qed.

Lemma div_mono (a1 a2 : spec_float) (md : positive) (ed : Z) :
  binary32 a1 -> binary32 a2 -> canonical32 md ed -> 0 < rank a1 <= rank a2 ->
  rank (F32.div a1 (S754_finite false md ed)) <= rank (F32.div a2 (S754_finite false md ed)).
Proof.
  intros H1 H2 Hd [Hpos Hle].
  pose proof (div_rank a1 md ed H1 Hd) as [Hok1 _].
  destruct a2 as [s2|s2| |s2 m2 e2]; cbn [binary32] in H2; try contradiction.
  - cbn in Hle. lia.
  - destruct s2; [cbn in Hle; lia|].
    unfold F32.div at 2. cbn [SFdiv xorb].
    apply (rank_bound _ Hok1).
  - destruct s2.
    { pose proof (canonical32_magnitude m2 e2 H2). cbn [rank cond_Zopp] in Hle. lia. }
    destruct a1 as [s1|s1| |s1 m1 e1]; cbn [binary32] in H1; try contradiction.
    + cbn in Hpos. lia.
    + pose proof (canonical32_magnitude m2 e2 H2). destruct s1; cbn in Hpos, Hle; lia.
    + destruct s1.
      { pose proof (canonical32_magnitude m1 e1 H1). cbn [rank cond_Zopp] in Hpos. lia. }
      cbn [rank cond_Zopp] in Hle.
      destruct H1 as (Hhi1 & He1 & Hlo1), H2 as (Hhi2 & He2 & Hlo2).
      destruct Hd as (Hhid & Hed & Hlod).
      unfold F32.div. rewrite !SFdiv_finite_round_frac by lia. cbn [xorb].
      assert (Hp : 0 < 2 ^ (104 - ed)) by (apply Z.pow_pos_nonneg; lia).
      assert (E1 : Zpos m1 * 2 ^ (e1 - ed + 253) = Zpos m1 * 2 ^ (e1 + 149) * 2 ^ (104 - ed)).
      { rewrite <- Z.mul_assoc, <- Z.pow_add_r by lia. f_equal. f_equal. lia. }
      assert (E2 : Zpos m2 * 2 ^ (e2 - ed + 253) = Zpos m2 * 2 ^ (e2 + 149) * 2 ^ (104 - ed)).
      { rewrite <- Z.mul_assoc, <- Z.pow_add_r by lia. f_equal. f_equal. lia. }
      rewrite E1, E2.
      assert (0 < 2 ^ (e1 + 149)) by (apply Z.pow_pos_nonneg; lia).
      apply round_frac_rank_mono; try lia.
      split.
      * apply Z.mul_nonneg_nonneg; lia.
      * apply Z.mul_le_mono_nonneg_r; lia.
Qed.

Lemma finite_sub_fin (mn mx : spec_float) :
  binary32 mn -> binary32 mx -> F32.is_finite (F32.sub mx mn) = true -> finite32 mn /\ finite32 mx.
Proof.
  intros Hmn Hmx Hfin.
  destruct mx as [s|s| |s m e]; try contradiction;
    destruct mn as [t|t| |t n f]; try contradiction;
    try (split; assumption); exfalso;
    repeat match goal with b : bool |- _ => destruct b end;
    discriminate Hfin.
Qed.

Lemma leb_not_nan (x y : spec_float) :
  F32.leb x y = true -> F32.is_nan x = false /\ F32.is_nan y = false.
Proof.
  unfold F32.leb, SFleb.
  destruct x as [sx|sx| |sx mx ex], y as [sy|sy| |sy my ey]; cbn [SFcompare F32.is_nan];
    intros H; try discriminate; split; reflexivity.
Qed.

Lemma ltb_not_nan (x y : spec_float) :
  F32.ltb x y = true -> F32.is_nan x = false /\ F32.is_nan y = false.
Proof.
  unfold F32.ltb, SFltb.
  destruct x as [sx|sx| |sx mx ex], y as [sy|sy| |sy my ey]; cbn [SFcompare F32.is_nan];
    intros H; try discriminate; split; reflexivity.
Qed.

(** The difference of two finite numbers [mn < mx], when it does not
    overflow, is a positive finite number. *)
Lemma range_positive (mn mx : spec_float) :
  binary32 mn -> binary32 mx -> F32.ltb mn mx = true -> F32.is_finite (F32.sub mx mn) = true ->
  finite32 mn /\ finite32 mx
  /\ exists md ed, F32.sub mx mn = S754_finite false md ed /\ canonical32 md ed.
Proof.
  intros Hmn Hmx Hlt Hfin.
  destruct (finite_sub_fin mn mx Hmn Hmx Hfin) as [Fmn Fmx].
  split; [exact Fmn|]. split; [exact Fmx|].
  apply (ltb_rank mn mx Hmn Hmx) in Hlt.
  destruct (sub_rank mx mn Fmx Fmn) as (_ & _ & E). specialize (E Hlt).
  pose proof (round_frac_pos (rank mx - rank mn) ltac:(lia)) as Hpos.
  rewrite E in Hfin |- *.
  destruct (round_frac_cases false (rank mx - rank mn) 1 (-149) ltac:(lia) ltac:(lia) ltac:(lia))
    as [H0 | [Hinf | (md & ed & Hd & Hwf)]].
  - rewrite H0 in Hpos. cbn in Hpos. lia.
  - rewrite Hinf in Hfin. discriminate.
  - eauto.
Qed.

(** ** Division by zero, by the value *)

Lemma rank_pack_opp (m c : Z) : rank (pack true m c) = - rank (pack false m c).
Proof. unfold pack. destruct (c <=? 104); reflexivity. Qed.

Lemma round_frac_rank_opp (Nm Dn e : Z) :
  0 <= Nm -> 0 < Dn -> e <= -149 ->
  rank (round_frac true Nm Dn e) = - rank (round_frac false Nm Dn e).
Proof.
  intros HN HD He. unfold round_frac.
  assert (Hq : 0 <= Nm / Dn) by (apply Z.div_pos; lia).
  rewrite !round32_char by (try assumption; unfold fexp32; lia).
  unfold finalize.
  destruct (_ =? 0); [reflexivity|].
  destruct (_ <? 16777216); apply rank_pack_opp.
Qed.

Lemma eqb_rank (x y : spec_float) :
  binary32 x -> binary32 y -> (F32.eqb x y = true <-> rank x = rank y).
Proof.
  intros Hx Hy. unfold F32.eqb, SFeqb. rewrite compare_rank by assumption.
  destruct (Z.compare_spec (rank x) (rank y)); split; intros Hc; try reflexivity;
    try discriminate; lia.
Qed.

(** With [max] and [min] the same finite number, the fraction is plus
    infinity for a value above it, minus infinity for a value below it,
    and NaN for a value equal to it. *)
Lemma degenerate_fraction_by_value (v mn : spec_float) :
  F32.valid v = true -> F32.valid mn = true -> F32.is_finite mn = true ->
  (F32.ltb mn v = true ->
   F32.div (F32.sub v mn) (F32.sub mn mn) = S754_infinity false)
  /\ (F32.ltb v mn = true ->
      F32.div (F32.sub v mn) (F32.sub mn mn) = S754_infinity true)
  /\ (F32.eqb v mn = true ->
      F32.div (F32.sub v mn) (F32.sub mn mn) = S754_nan).
Proof.
  intros Vv Vmn Fmn.
  assert (Nmn : F32.is_nan mn = false) by (destruct mn; try discriminate; reflexivity).
  pose proof (valid_binary32 _ Vmn Nmn) as Omn.
  pose proof (binary32_finite32 _ Omn Fmn) as Wmn.
  pose proof (rank_bound_fin mn Wmn) as Bmn.
  rewrite (sub_self mn Wmn).
  assert (Hcases : forall x, binary32 x ->
            x = S754_infinity true \/ x = S754_infinity false \/ finite32 x).
  { intros [s|[]| |s m e]; cbn; auto. }
  assert (Hpos : forall a, binary32 a -> 0 < rank a ->
            F32.div a F32.zero = S754_infinity false).
  { intros [s|[]| |s m e] Ha Hr; cbn in Hr; try lia; try contradiction; try reflexivity.
    destruct s; [|reflexivity].
    pose proof (canonical32_magnitude m e Ha). cbn [cond_Zopp] in Hr. lia. }
  assert (Hneg : forall a, binary32 a -> rank a < 0 ->
            F32.div a F32.zero = S754_infinity true).
  { intros [s|[]| |s m e] Ha Hr; cbn in Hr; try lia; try contradiction; try reflexivity.
    destruct s; [reflexivity|].
    pose proof (canonical32_magnitude m e Ha). cbn [cond_Zopp] in Hr. lia. }
  split; [|split].
  - intros Hlt. destruct (ltb_not_nan _ _ Hlt) as [_ Nv].
    pose proof (valid_binary32 _ Vv Nv) as Ov.
    apply (ltb_rank mn v Omn Ov) in Hlt.
    apply Hpos; [now apply sub_binary32|].
    destruct (Hcases v Ov) as [-> | [-> | Wv]].
    + cbn in Hlt. lia.
    + rewrite sub_inf by assumption. reflexivity.
    + destruct (sub_rank v mn Wv Wmn) as (_ & _ & E). rewrite E by lia.
      apply round_frac_pos. lia.
  - intros Hlt. destruct (ltb_not_nan _ _ Hlt) as [Nv _].
    pose proof (valid_binary32 _ Vv Nv) as Ov.
    apply (ltb_rank v mn Ov Omn) in Hlt.
    apply Hneg; [now apply sub_binary32|].
    destruct (Hcases v Ov) as [-> | [-> | Wv]].
    + rewrite sub_inf by assumption. reflexivity.
    + cbn in Hlt. lia.
    + change (F32.sub v mn) with (SFsub 24 128 v mn).
      destruct (SFsub_rank v mn Wv Wmn) as [_ Hnz]. rewrite Hnz by lia.
      assert (Hb : (rank v - rank mn <? 0) = true) by (apply Z.ltb_lt; lia).
      rewrite Hb, round_frac_rank_opp by lia.
      pose proof (round_frac_pos (Z.abs (rank v - rank mn)) ltac:(lia)). lia.
  - intros Heq.
    assert (Nv : F32.is_nan v = false).
    { destruct v; try reflexivity. destruct mn; discriminate Heq. }
    pose proof (valid_binary32 _ Vv Nv) as Ov.
    apply (eqb_rank v mn Ov Omn) in Heq.
    destruct (Hcases v Ov) as [-> | [-> | Wv]].
    + cbn in Heq. lia.
    + cbn in Heq. lia.
    + change (F32.sub v mn) with (SFsub 24 128 v mn).
      destruct (SFsub_rank v mn Wv Wmn) as [Hz _].
      destruct (Hz ltac:(lia)) as [s ->]. reflexivity.
Qed.

(** ** The pixels of the rectangle primitives *)

Lemma for_loop_fold {S : Type} (body : Z -> S -> S) (k : nat) :
  forall (i : Z) (s : S),
    for_loop k i body s
    = fold_left (fun s j => body j s) (map (fun t => Z.of_nat t + i) (seq 0 k)) s.
Proof.
  induction k as [|k IH]; intros i s; [reflexivity|].
  cbn [for_loop seq map fold_left]. rewrite IH.
  rewrite <- seq_shift, map_map. f_equal.
  apply map_ext. intros t. lia.
Qed.

Lemma for_u32_fold {S : Type} (n : Z) (body : Z -> S -> S) (s : S) :
  for_u32 n body s = fold_left (fun s j => body j s) (seqZ 0 n) s.
Proof. unfold for_u32, seqZ. apply for_loop_fold. Qed.

Lemma fold_left_flat_map {A B C : Type} (f : A -> C -> A) (g : B -> list C) (l : list B) :
  forall a, fold_left f (flat_map g l) a = fold_left (fun a x => fold_left f (g x) a) l a.
Proof.
  induction l as [|x l IH]; intros a; [reflexivity|].
  cbn [flat_map fold_left]. now rewrite fold_left_app, IH.
Qed.

Lemma fold_left_map {A B C : Type} (f : A -> C -> A) (g : B -> C) (l : list B) :
  forall a, fold_left f (map g l) a = fold_left (fun a x => f a (g x)) l a.
Proof.
  induction l as [|x l IH]; intros a; [reflexivity|].
  cbn [map fold_left]. now rewrite IH.
Qed.

Lemma fold_left_ext {A B : Type} (f g : A -> B -> A) (l : list B) :
  (forall a x, f a x = g a x) -> forall a, fold_left f l a = fold_left g l a.
Proof.
  intros Hfg. induction l as [|x l IH]; intros a; [reflexivity|].
  cbn [fold_left]. now rewrite Hfg, IH.
Qed.

Lemma fb_draw_filled_rect_points (fb : framebuffer_t) (x y w h color : Z) (mem : gmap Z Z) :
  fb_draw_filled_rect fb x y w h color mem
  = draw_pixels fb color (filled_rect_points x y w h) mem.
Proof.
  unfold fb_draw_filled_rect, draw_pixels, filled_rect_points.
  rewrite for_u32_fold, fold_left_flat_map.
  apply fold_left_ext. intros a j.
  rewrite for_u32_fold, fold_left_map. reflexivity.
Qed.

Lemma fb_draw_rect_points (fb : framebuffer_t) (x y w h color : Z) (mem : gmap Z Z) :
  fb_draw_rect fb x y w h color mem = draw_pixels fb color (outline_points x y w h) mem.
Proof.
  unfold fb_draw_rect, draw_pixels, outline_points.
  rewrite fold_left_app, !for_u32_fold, !fold_left_flat_map. reflexivity.
Qed.

(** In a well-formed handle the pixels of the region have distinct
    words. *)
Lemma fb_index_region (fb : framebuffer_t) (px py : Z) :
  fb_wf fb -> 0 <= px < fb_width fb -> 0 <= py < fb_height fb ->
  fb_index fb px py = py * (fb_pitch fb / 4) + px.
Proof.
  intros (Hw & Hh & Hsize) Hx Hy. apply fb_index_exact. nia.
Qed.

Lemma fb_index_inj (fb : framebuffer_t) (px py qx qy : Z) :
  fb_wf fb ->
  0 <= px < fb_width fb -> 0 <= py < fb_height fb ->
  0 <= qx < fb_width fb -> 0 <= qy < fb_height fb ->
  fb_index fb px py = fb_index fb qx qy -> px = qx /\ py = qy.
Proof.
  intros Hwf Hpx Hpy Hqx Hqy. rewrite !fb_index_region by assumption.
  destruct Hwf as (Hw & Hh & Hsize). intros Heq.
  assert (py = qy) by nia. subst. lia.
Qed.

Lemma fb_draw_pixel_lookup (fb : framebuffer_t) (x y color : Z) (mem : gmap Z Z) (px py : Z) :
  fb_wf fb -> 0 <= px < fb_width fb -> 0 <= py < fb_height fb -> 0 <= x -> 0 <= y ->
  fb_draw_pixel fb x y color mem !! fb_index fb px py
  = if decide ((px, py) = (x, y)) then Some color else mem !! fb_index fb px py.
Proof.
  intros Hwf Hpx Hpy Hx Hy. unfold fb_draw_pixel.
  destruct (fb_width fb <=? x) eqn:Hwx; [|destruct (fb_height fb <=? y) eqn:Hhy]; cbn [orb].
  - apply Z.leb_le in Hwx. destruct (decide ((px, py) = (x, y))) as [[= -> ->]|]; [lia | reflexivity].
  - apply Z.leb_le in Hhy. destruct (decide ((px, py) = (x, y))) as [[= -> ->]|]; [lia | reflexivity].
  - apply Z.leb_gt in Hwx, Hhy.
    destruct (decide ((px, py) = (x, y))) as [[= -> ->] | Hne].
    + apply lookup_insert_eq.
    + apply lookup_insert_ne. intros Heq.
      apply fb_index_inj in Heq; try lia; try assumption.
      destruct Heq as [-> ->]. now apply Hne.
Qed.

(** A pixel of the region has the colour drawn if it is among the
    points, and is unchanged otherwise. *)
Lemma draw_pixels_lookup (fb : framebuffer_t) (color : Z) (px py : Z) (pts : list (Z * Z)) :
  fb_wf fb -> 0 <= px < fb_width fb -> 0 <= py < fb_height fb ->
  Forall (fun p => 0 <= fst p /\ 0 <= snd p) pts ->
  forall mem,
    draw_pixels fb color pts mem !! fb_index fb px py
    = if decide ((px, py) ∈ pts) then Some color else mem !! fb_index fb px py.
Proof.
  intros Hwf Hpx Hpy Hpts. induction Hpts as [|[a b] pts [Ha Hb] _ IH]; intros mem.
  - cbn. destruct (decide ((px, py) ∈ [])) as [Hin|]; [|reflexivity].
    now apply elem_of_nil in Hin.
  - unfold draw_pixels in *. cbn [fold_left fst snd]. rewrite IH.
    cbn [fst snd] in Ha, Hb.
    rewrite fb_draw_pixel_lookup by assumption.
    destruct (decide ((px, py) ∈ pts)) as [Hin | Hnin].
    + rewrite decide_True; [reflexivity | now apply elem_of_cons; right].
    + destruct (decide ((px, py) = (a, b))) as [Heq | Hne].
      * rewrite decide_True; [reflexivity | now apply elem_of_cons; left].
      * rewrite decide_False; [reflexivity|].
        intros [?|?]%elem_of_cons; contradiction.
Qed.

Lemma filled_rect_points_nonneg (x y w h : Z) :
  Forall (fun p => 0 <= fst p /\ 0 <= snd p) (filled_rect_points x y w h).
Proof.
  apply Forall_forall. intros [a b] Hin. unfold filled_rect_points in Hin.
  apply list_elem_of_In in Hin. apply in_flat_map in Hin as (j & _ & Hin).
  apply in_map_iff in Hin as (i & [= <- <-] & _). cbn.
  split; apply u32_add_range.
Qed.

Lemma outline_points_nonneg (x y w h : Z) :
  0 <= x -> 0 <= y ->
  Forall (fun p => 0 <= fst p /\ 0 <= snd p) (outline_points x y w h).
Proof.
  intros Hx Hy. apply Forall_forall. intros [a b] Hin. unfold outline_points in Hin.
  apply list_elem_of_In in Hin. apply in_app_or in Hin as [Hin | Hin];
    apply in_flat_map in Hin as (i & _ & [[= <- <-] | [[= <- <-] | []]]); cbn;
    split; try assumption; apply u32_wrap_range.
Qed.

Lemma elem_of_filled_rect_points (x y w h px py : Z) :
  (px, py) ∈ filled_rect_points x y w h
  <-> exists i j, 0 <= i < w /\ 0 <= j < h /\ px = U32.add x i /\ py = U32.add y j.
Proof.
  rewrite list_elem_of_In. unfold filled_rect_points. rewrite in_flat_map. split.
  - intros (j & Hj & Hin). apply in_map_iff in Hin as (i & [= <- <-] & Hi).
    apply list_elem_of_In, elem_of_seqZ in Hj. apply list_elem_of_In, elem_of_seqZ in Hi.
    exists i, j. repeat split; lia.
  - intros (i & j & Hi & Hj & -> & ->). exists j. split.
    + apply list_elem_of_In, elem_of_seqZ. lia.
    + apply in_map_iff. exists i. split; [reflexivity|].
      apply list_elem_of_In, elem_of_seqZ. lia.
Qed.

Lemma elem_of_outline_points (x y w h px py : Z) :
  (px, py) ∈ outline_points x y w h
  <-> (exists i, 0 <= i < w /\ px = U32.add x i
                 /\ (py = y \/ py = U32.sub (U32.add y h) 1))
      \/ (exists i, 0 <= i < h /\ py = U32.add y i
                    /\ (px = x \/ px = U32.sub (U32.add x w) 1)).
Proof.
  rewrite list_elem_of_In. unfold outline_points. rewrite in_app_iff, !in_flat_map. split.
  - intros [(i & Hi & Hin) | (i & Hi & Hin)];
      apply list_elem_of_In, elem_of_seqZ in Hi; [left | right]; exists i;
      destruct Hin as [[= <- <-] | [[= <- <-] | []]]; repeat split; auto; lia.
  - intros [(i & Hi & -> & Hy) | (i & Hi & -> & Hx)]; [left | right]; exists i;
      (split; [apply list_elem_of_In, elem_of_seqZ; lia|]).
    + destruct Hy as [-> | ->]; cbn; auto.
    + destruct Hx as [-> | ->]; cbn; auto.
Qed.

Lemma in_filled_rect_nowrap (x y w h px py : Z) :
  0 <= x -> 0 <= y -> x + w <= 2 ^ 32 -> y + h <= 2 ^ 32 ->
  (px, py) ∈ filled_rect_points x y w h <-> x <= px < x + w /\ y <= py < y + h.
Proof.
  intros Hx Hy Hxw Hyh. rewrite elem_of_filled_rect_points. split.
  - intros (i & j & Hi & Hj & -> & ->).
    unfold U32.add. rewrite !u32_wrap_small by (unfold U32.modulus; lia). lia.
  - intros [Hpx Hpy]. exists (px - x), (py - y).
    unfold U32.add. rewrite !u32_wrap_small by (unfold U32.modulus; lia). lia.
Qed.

Lemma in_outline_nowrap (x y w h px py : Z) :
  0 <= x -> 0 <= y -> 0 < w -> 0 < h -> x + w <= 2 ^ 32 -> y + h <= 2 ^ 32 ->
  (px, py) ∈ outline_points x y w h
  <-> (x <= px < x + w /\ (py = y \/ py = y + h - 1))
      \/ (y <= py < y + h /\ (px = x \/ px = x + w - 1)).
Proof.
  intros Hx Hy Hw Hh Hxw Hyh. rewrite elem_of_outline_points.
  assert (Ey : U32.sub (U32.add y h) 1 = y + h - 1).
  { unfold U32.sub, U32.add. destruct (Z.eq_dec (y + h) (2 ^ 32)) as [-> | Hne].
    - reflexivity.
    - rewrite (u32_wrap_small (y + h)) by (unfold U32.modulus; lia).
      apply u32_wrap_small. unfold U32.modulus. lia. }
  assert (Ex : U32.sub (U32.add x w) 1 = x + w - 1).
  { unfold U32.sub, U32.add. destruct (Z.eq_dec (x + w) (2 ^ 32)) as [-> | Hne].
    - reflexivity.
    - rewrite (u32_wrap_small (x + w)) by (unfold U32.modulus; lia).
      apply u32_wrap_small. unfold U32.modulus. lia. }
  rewrite Ex, Ey. split.
  - intros [(i & Hi & -> & Hpy) | (i & Hi & -> & Hpx)]; [left | right];
      unfold U32.add; rewrite u32_wrap_small by (unfold U32.modulus; lia);
      (split; [lia | assumption]).
  - intros [[Hpx Hpy] | [Hpy Hpx]]; [left; exists (px - x) | right; exists (py - y)];
      unfold U32.add; rewrite u32_wrap_small by (unfold U32.modulus; lia);
      (split; [lia|]); (split; [lia | assumption]).
Qed.

Ltac test_to_prop t Ht :=
  first [ apply Z.leb_le in Ht | apply Z.leb_gt in Ht
        | apply Z.ltb_lt in Ht | apply Z.ltb_ge in Ht
        | apply Z.eqb_eq in Ht | apply Z.eqb_neq in Ht ].

Ltac bool_case_on t :=
  let Ht := fresh "Ht" in
  destruct t eqn:Ht; test_to_prop t Ht.

Ltac bool_cases :=
  repeat match goal with
         | |- context [?a <=? ?b] => bool_case_on (a <=? b)
         | |- context [?a <? ?b] => bool_case_on (a <? b)
         | |- context [?a =? ?b] => bool_case_on (a =? b)
         end;
  cbn [negb andb orb].

(** The pixels of a gauge that lies inside the display of a well-formed
    handle, and whose fill fits its interior: the outline and the inset
    fill have the colour of the element, the rest of the gauge is
    black. *)
Lemma render_gauge_pixels (elem : dash_element_t) (fb : framebuffer_t) (mem : gmap Z Z)
  (px py : Z) :
  fb_wf fb ->
  0 <= el_x elem -> 0 <= el_y elem -> 4 <= el_width elem -> 4 <= el_height elem ->
  el_x elem + el_width elem <= fb_width fb ->
  el_y elem + el_height elem <= fb_height fb ->
  spec_fill_width elem <= el_width elem - 4 ->
  el_x elem <= px < el_x elem + el_width elem ->
  el_y elem <= py < el_y elem + el_height elem ->
  render_gauge elem fb mem !! fb_index fb px py = Some (gauge_pixel elem px py).
Proof.
  intros Hwf Hx Hy Hw Hh Hxw Hyh Hfill Hpx Hpy.
  assert (Hwidth : fb_width fb <= 2 ^ 32).
  { destruct Hwf as (Hwp & Hh0 & Hsize). nia. }
  assert (Hheight : fb_height fb <= 2 ^ 32).
  { destruct Hwf as (Hwp & Hh0 & Hsize). nia. }
  assert (Hbx : 0 <= px < fb_width fb) by lia.
  assert (Hby : 0 <= py < fb_height fb) by lia.
  pose proof (to_u32_nonneg
                (F32.mul
                   (clamp01 (F32.div (F32.sub (el_value elem) (el_min_value elem))
                                     (F32.sub (el_max_value elem) (el_min_value elem))))
                   (F32.of_Z (U32.sub (el_width elem) 4)))) as Hnn.
  fold (spec_fill_width elem) in Hnn.
  assert (Ex2 : U32.add (el_x elem) 2 = el_x elem + 2).
  { apply u32_wrap_small. unfold U32.modulus. lia. }
  assert (Ey2 : U32.add (el_y elem) 2 = el_y elem + 2).
  { apply u32_wrap_small. unfold U32.modulus. lia. }
  assert (Eh4 : U32.sub (el_height elem) 4 = el_height elem - 4).
  { apply u32_wrap_small. unfold U32.modulus. lia. }
  unfold render_gauge. rewrite gauge_fill_width_spec.
  assert (Hbase : forall m,
            fb_draw_rect fb (el_x elem) (el_y elem) (el_width elem) (el_height elem)
              (el_color elem)
              (fb_draw_filled_rect fb (el_x elem) (el_y elem) (el_width elem)
                 (el_height elem) COLOR_BLACK m) !! fb_index fb px py
            = Some (if (px =? el_x elem) || (px =? el_x elem + el_width elem - 1)
                       || (py =? el_y elem) || (py =? el_y elem + el_height elem - 1)
                    then el_color elem else COLOR_BLACK)).
  { intros m. rewrite fb_draw_rect_points, fb_draw_filled_rect_points.
    rewrite draw_pixels_lookup by (auto using outline_points_nonneg).
    rewrite draw_pixels_lookup by (auto using filled_rect_points_nonneg).
    destruct (decide ((px, py) ∈ outline_points _ _ _ _)) as [Hin | Hnin].
    - apply in_outline_nowrap in Hin; try lia. bool_cases; try reflexivity; lia.
    - rewrite in_outline_nowrap in Hnin by lia.
      rewrite decide_True by (apply in_filled_rect_nowrap; lia).
      bool_cases; try reflexivity; lia. }
  unfold gauge_pixel.
  destruct (Z.ltb_spec 0 (spec_fill_width elem)) as [Hpos | Hzero].
  - rewrite fb_draw_filled_rect_points, Ex2, Ey2, Eh4.
    rewrite draw_pixels_lookup by (auto using filled_rect_points_nonneg).
    destruct (decide ((px, py) ∈ filled_rect_points _ _ _ _)) as [Hin | Hnin].
    + apply in_filled_rect_nowrap in Hin; try lia. bool_cases; try reflexivity; lia.
    + rewrite in_filled_rect_nowrap in Hnin by lia. rewrite Hbase.
      bool_cases; try reflexivity; lia.
  - rewrite Hbase. bool_cases; try reflexivity; lia.
Qed.

(** * Further lemmas: pixels, fills, waits and the animation *)

(** ** Loops over a range, and [fb_clear] *)

Lemma fold_left_ext_in {A B : Type} (P : B -> Prop) (f g : A -> B -> A) (l : list B) :
  (forall a x, P x -> f a x = g a x) -> Forall P l ->
  forall a, fold_left f l a = fold_left g l a.
Proof.
  intros Hfg Hl. induction Hl as [|x l Hx _ IH]; intros a; [reflexivity|].
  cbn [fold_left]. rewrite (Hfg a x Hx). apply IH.
Qed.

Lemma for_u32_ext {S : Type} (n : Z) (f g : Z -> S -> S) (s : S) :
  (forall i t, 0 <= i < n -> f i t = g i t) -> for_u32 n f s = for_u32 n g s.
Proof.
  intros Hfg. rewrite !for_u32_fold.
  apply (fold_left_ext_in (fun i => 0 <= i < n)).
  - intros t i Hi. now apply Hfg.
  - apply Forall_forall. intros i Hi. apply elem_of_seqZ in Hi. lia.
Qed.

Lemma fold_insert_lookup (c : Z) (ks : list Z) :
  forall (mem : gmap Z Z) (i : Z),
    fold_left (fun m k => <[k := c]> m) ks mem !! i
    = if decide (i ∈ ks) then Some c else mem !! i.
Proof.
  induction ks as [|k ks IH]; intros mem i.
  - cbn [fold_left]. rewrite decide_False; [reflexivity | apply not_elem_of_nil].
  - cbn [fold_left]. rewrite IH.
    destruct (decide (i ∈ ks)) as [Hin | Hnin].
    + rewrite decide_True; [reflexivity | now apply elem_of_cons; right].
    + destruct (decide (i = k)) as [-> | Hne].
      * rewrite lookup_insert_eq, decide_True; [reflexivity | now apply elem_of_cons; left].
      * rewrite lookup_insert_ne by congruence.
        rewrite decide_False; [reflexivity|].
        intros [?|?]%elem_of_cons; contradiction.
Qed.

Lemma fb_clear_words (fb : framebuffer_t) (color : Z) (mem : gmap Z Z) :
  fb_clear fb color mem = fold_left (fun m k => <[k := color]> m) (clear_words fb) mem.
Proof.
  unfold fb_clear, clear_words.
  rewrite for_u32_fold, fold_left_flat_map.
  apply fold_left_ext. intros a y.
  now rewrite for_u32_fold, fold_left_map.
Qed.

Lemma elem_of_clear_words (fb : framebuffer_t) (i : Z) :
  i ∈ clear_words fb <-> in_region fb i.
Proof.
  rewrite list_elem_of_In. unfold clear_words, in_region. rewrite in_flat_map. split.
  - intros (y & Hy & Hin). apply in_map_iff in Hin as (x & <- & Hx).
    apply list_elem_of_In, elem_of_seqZ in Hy. apply list_elem_of_In, elem_of_seqZ in Hx.
    exists x, y. repeat split; lia.
  - intros (px & py & Hx & Hy & ->). exists py. split.
    + apply list_elem_of_In, elem_of_seqZ. lia.
    + apply in_map_iff. exists px. split; [reflexivity|].
      apply list_elem_of_In, elem_of_seqZ. lia.
Qed.


Lemma fb_clear_in (fb : framebuffer_t) (color : Z) (mem : gmap Z Z) (i : Z) :
  in_region fb i -> fb_clear fb color mem !! i = Some color.
Proof.
  intros Hi. rewrite fb_clear_words, fold_insert_lookup.
  rewrite decide_True; [reflexivity | now apply elem_of_clear_words].
Qed.

Lemma fb_clear_frame (fb : framebuffer_t) (color : Z) (mem : gmap Z Z) (i : Z) :
  ~ in_region fb i -> fb_clear fb color mem !! i = mem !! i.
Proof.
  intros Hi. rewrite fb_clear_words, fold_insert_lookup.
  rewrite decide_False; [reflexivity | now rewrite elem_of_clear_words].
Qed.

(** ** The rectangle primitives, pixel by pixel *)

Lemma fb_wf_bounds (fb : framebuffer_t) (px py : Z) :
  fb_wf fb -> 0 <= px < fb_width fb -> 0 <= py < fb_height fb ->
  fb_width fb <= 2 ^ 32 /\ fb_height fb <= 2 ^ 32.
Proof. intros (Hw & Hh & Hsize) Hx Hy. split; nia. Qed.

Lemma u32_sub_least (p x i : Z) : 0 <= i -> p = U32.add x i -> U32.sub p x <= i.
Proof.
  intros Hi ->. unfold U32.sub, U32.add, U32.wrap.
  rewrite Zminus_mod_idemp_l. replace (x + i - x) with i by lia.
  apply Z.mod_le; [assumption | reflexivity].
Qed.

Lemma u32_add_sub (p x : Z) : 0 <= p < U32.modulus -> U32.add x (U32.sub p x) = p.
Proof.
  intros Hp. unfold U32.sub, U32.add, U32.wrap.
  rewrite Zplus_mod_idemp_r. replace (x + (p - x)) with p by lia.
  now apply Z.mod_small.
Qed.

Lemma u32_sub_range (a b : Z) : 0 <= U32.sub a b < U32.modulus.
Proof. apply u32_wrap_range. Qed.

Lemma in_filled_rect_wrap (x y w h px py : Z) :
  0 <= px < U32.modulus -> 0 <= py < U32.modulus ->
  (px, py) ∈ filled_rect_points x y w h <-> fill_hit x y w h px py = true.
Proof.
  intros Hpx Hpy. rewrite elem_of_filled_rect_points. unfold fill_hit.
  rewrite andb_true_iff, !Z.ltb_lt. split.
  - intros (i & j & Hi & Hj & Ex & Ey).
    pose proof (u32_sub_least px x i (proj1 Hi) Ex).
    pose proof (u32_sub_least py y j (proj1 Hj) Ey). lia.
  - intros [Hx Hy]. exists (U32.sub px x), (U32.sub py y).
    pose proof (u32_sub_range px x). pose proof (u32_sub_range py y).
    rewrite !u32_add_sub by assumption. repeat split; lia.
Qed.

Lemma in_outline_wrap (x y w h px py : Z) :
  0 <= px < U32.modulus -> 0 <= py < U32.modulus ->
  (px, py) ∈ outline_points x y w h <-> outline_hit x y w h px py = true.
Proof.
  intros Hpx Hpy. rewrite elem_of_outline_points. unfold outline_hit.
  rewrite orb_true_iff, !andb_true_iff, !orb_true_iff, !Z.ltb_lt, !Z.eqb_eq. split.
  - intros [(i & Hi & Ex & Hy) | (i & Hi & Ey & Hx)].
    + left. pose proof (u32_sub_least px x i (proj1 Hi) Ex). split; [lia | exact Hy].
    + right. pose proof (u32_sub_least py y i (proj1 Hi) Ey). split; [lia | exact Hx].
  - intros [[Hlt Hy] | [Hlt Hx]].
    + left. exists (U32.sub px x). pose proof (u32_sub_range px x).
      rewrite u32_add_sub by assumption. repeat split; auto; lia.
    + right. exists (U32.sub py y). pose proof (u32_sub_range py y).
      rewrite u32_add_sub by assumption. repeat split; auto; lia.
Qed.

Lemma fb_draw_filled_rect_lookup (fb : framebuffer_t) (x y w h color : Z) (mem : gmap Z Z)
  (px py : Z) :
  fb_wf fb -> 0 <= px < fb_width fb -> 0 <= py < fb_height fb ->
  fb_draw_filled_rect fb x y w h color mem !! fb_index fb px py
  = if fill_hit x y w h px py then Some color else mem !! fb_index fb px py.
Proof.
  intros Hwf Hpx Hpy. destruct (fb_wf_bounds fb px py Hwf Hpx Hpy) as [Hw Hh].
  rewrite fb_draw_filled_rect_points.
  rewrite draw_pixels_lookup by (auto using filled_rect_points_nonneg).
  destruct (decide ((px, py) ∈ filled_rect_points x y w h)) as [Hin | Hnin].
  - apply in_filled_rect_wrap in Hin; [|unfold U32.modulus; lia ..]. now rewrite Hin.
  - rewrite in_filled_rect_wrap in Hnin by (unfold U32.modulus; lia).
    now apply not_true_is_false in Hnin as ->.
Qed.

Lemma fb_draw_rect_lookup (fb : framebuffer_t) (x y w h color : Z) (mem : gmap Z Z)
  (px py : Z) :
  fb_wf fb -> 0 <= px < fb_width fb -> 0 <= py < fb_height fb -> 0 <= x -> 0 <= y ->
  fb_draw_rect fb x y w h color mem !! fb_index fb px py
  = if outline_hit x y w h px py then Some color else mem !! fb_index fb px py.
Proof.
  intros Hwf Hpx Hpy Hx Hy. destruct (fb_wf_bounds fb px py Hwf Hpx Hpy) as [Hw Hh].
  rewrite fb_draw_rect_points.
  rewrite draw_pixels_lookup by (auto using outline_points_nonneg).
  destruct (decide ((px, py) ∈ outline_points x y w h)) as [Hin | Hnin].
  - apply in_outline_wrap in Hin; [|unfold U32.modulus; lia ..]. now rewrite Hin.
  - rewrite in_outline_wrap in Hnin by (unfold U32.modulus; lia).
    now apply not_true_is_false in Hnin as ->.
Qed.

(** Without wrap-around the tests are those of the rectangle. *)
Lemma fill_hit_nowrap (x y w h px py : Z) :
  0 <= x -> 0 <= y -> x + w <= 2 ^ 32 -> y + h <= 2 ^ 32 ->
  0 <= px < 2 ^ 32 -> 0 <= py < 2 ^ 32 ->
  fill_hit x y w h px py = in_box x y w h px py.
Proof.
  intros Hx Hy Hxw Hyh Hpx Hpy.
  apply eq_true_iff_eq. rewrite <- in_filled_rect_wrap by (unfold U32.modulus; lia).
  rewrite in_filled_rect_nowrap by assumption.
  unfold in_box. rewrite !andb_true_iff, !Z.leb_le, !Z.ltb_lt. lia.
Qed.

Lemma outline_hit_nowrap (x y w h px py : Z) :
  0 <= x -> 0 <= y -> 0 < w -> 0 < h -> x + w <= 2 ^ 32 -> y + h <= 2 ^ 32 ->
  0 <= px < 2 ^ 32 -> 0 <= py < 2 ^ 32 ->
  outline_hit x y w h px py = on_border x y w h px py.
Proof.
  intros Hx Hy Hw Hh Hxw Hyh Hpx Hpy.
  apply eq_true_iff_eq. rewrite <- in_outline_wrap by (unfold U32.modulus; lia).
  rewrite in_outline_nowrap by assumption.
  unfold on_border, in_box.
  rewrite !andb_true_iff, !orb_true_iff, !Z.leb_le, !Z.ltb_lt, !Z.eqb_eq. lia.
Qed.

(** ** Colours *)

Lemma testbit_small (a k n : Z) : 0 <= a < 2 ^ k -> 0 <= k <= n -> Z.testbit a n = false.
Proof.
  intros Ha Hk. destruct (Z.eq_dec a 0) as [-> | Hne]; [apply Z.bits_0|].
  apply Z.bits_above_log2; [lia|].
  destruct Ha as [Ha0 Ha]. apply Z.log2_lt_pow2 in Ha; lia.
Qed.

Lemma RGB_sum (r g b : Z) :
  0 <= r < 256 -> 0 <= g < 256 -> 0 <= b < 256 ->
  RGB r g b = r * 65536 + g * 256 + b.
Proof.
  intros Hr Hg Hb. unfold RGB.
  rewrite !Z.shiftl_mul_pow2 by lia. change (2 ^ 16) with 65536. change (2 ^ 8) with 256.
  rewrite <- (Z.add_nocarry_lor (r * 65536) (g * 256)).
  - rewrite <- Z.add_nocarry_lor; [reflexivity|].
    apply Z.bits_inj'. intros n Hn. rewrite Z.land_spec, Z.bits_0.
    destruct (Z.ltb_spec n 8).
    + replace (r * 65536 + g * 256) with ((r * 256 + g) * 2 ^ 8) by lia.
      rewrite Z.mul_pow2_bits_low by lia. reflexivity.
    + rewrite (testbit_small b 8 n) by lia. apply andb_false_r.
  - apply Z.bits_inj'. intros n Hn. rewrite Z.land_spec, Z.bits_0.
    destruct (Z.ltb_spec n 16).
    + change 65536 with (2 ^ 16). rewrite Z.mul_pow2_bits_low by lia. reflexivity.
    + change 256 with (2 ^ 8). rewrite Z.mul_pow2_bits by lia.
      rewrite (testbit_small g 8 (n - 8)) by lia. apply andb_false_r.
Qed.

(** ** [str_copy] *)

Lemma str_copy_loop_prefix (n : nat) :
  forall src, str_copy_loop n src `prefix_of` src.
Proof.
  induction n as [|n IH]; intros [|c src]; cbn [str_copy_loop]; try apply prefix_nil.
  destruct (c =? 0); [apply prefix_nil|]. apply prefix_cons, IH.
Qed.

Lemma str_copy_loop_no_nul (n : nat) :
  forall src, Forall (fun c => c <> 0) (str_copy_loop n src).
Proof.
  induction n as [|n IH]; intros [|c src]; cbn [str_copy_loop]; try constructor.
  destruct (Z.eqb_spec c 0); constructor; [assumption | apply IH].
Qed.

Lemma str_copy_loop_length (n : nat) :
  forall src, (length (str_copy_loop n src) <= n)%nat.
Proof.
  induction n as [|n IH]; intros [|c src]; cbn [str_copy_loop length]; try lia.
  destruct (c =? 0); cbn [length]; [lia|]. specialize (IH src). lia.
Qed.

Lemma str_copy_loop_stop (n : nat) :
  forall src,
    (length (str_copy_loop n src) < n)%nat ->
    str_copy_loop n src = src \/ exists rest, src = str_copy_loop n src ++ 0 :: rest.
Proof.
  induction n as [|n IH]; intros [|c src]; cbn [str_copy_loop length]; intros Hlt;
    try lia; [now left|].
  destruct (Z.eqb_spec c 0) as [-> | Hne].
  - right. now exists src.
  - cbn [length] in Hlt. destruct (IH src) as [Heq | [rest Heq]]; [lia | |].
    + left. now rewrite Heq.
    + right. exists rest. cbn [app]. now rewrite <- Heq.
Qed.

Lemma str_copy_loop_all (n : nat) :
  forall src,
    Forall (fun c => c <> 0) src -> (length src <= n)%nat -> str_copy_loop n src = src.
Proof.
  induction n as [|n IH]; intros [|c src] Hnz Hlen; cbn [str_copy_loop length] in *;
    try reflexivity; try lia.
  apply Forall_cons in Hnz as [Hc Hnz].
  destruct (Z.eqb_spec c 0); [contradiction|]. rewrite IH; [reflexivity | assumption | lia].
Qed.

Lemma str_copy_bound (max_len : Z) :
  1 <= max_len < U32.modulus -> Z.of_nat (Z.to_nat (U32.sub max_len 1)) = max_len - 1.
Proof.
  intros H. unfold U32.sub. rewrite u32_wrap_small by lia. lia.
Qed.

(** ** The collection *)

Lemma shown_length (dash : dashboard_t) :
  dashboard_wf dash -> length (shown dash) = Z.to_nat (element_count dash).
Proof.
  intros [Hlen Hcnt]. unfold shown, MAX_ELEMENTS in *. rewrite length_take. lia.
Qed.

Lemma shown_add (dash : dashboard_t) (element : dash_element_t) :
  dashboard_wf dash ->
  shown (dashboard_add_element dash element) = take 32 (shown dash ++ [element]).
Proof.
  intros Hwf. pose proof (shown_length dash Hwf) as Hshown.
  destruct Hwf as [Hlen Hcnt]. unfold MAX_ELEMENTS in *.
  unfold dashboard_add_element.
  destruct (Z.ltb_spec (element_count dash) 32) as [Hlt | Hge].
  - unfold shown at 1. cbn [elements element_count].
    unfold U32.add. rewrite u32_wrap_small by (unfold U32.modulus; lia).
    replace (Z.to_nat (element_count dash + 1)) with (S (Z.to_nat (element_count dash))) by lia.
    rewrite (take_S_r _ _ element) by (apply list_lookup_insert_eq; lia).
    rewrite take_insert_ge by lia. fold (shown dash).
    rewrite take_ge; [reflexivity|]. rewrite length_app, Hshown. cbn [length]. lia.
  - rewrite take_app_le by lia. rewrite take_ge by lia. reflexivity.
Qed.

Lemma take_take_app {A : Type} (n : nat) (a b : list A) :
  take n (take n a ++ b) = take n (a ++ b).
Proof.
  rewrite !take_app, take_idemp, length_take. do 2 f_equal. lia.
Qed.

Lemma shown_adds (es : list dash_element_t) :
  forall dash,
    dashboard_wf dash ->
    shown (fold_left dashboard_add_element es dash) = take 32 (shown dash ++ es).
Proof.
  induction es as [|e es IH]; intros dash Hwf; cbn [fold_left].
  - rewrite app_nil_r. rewrite take_ge; [reflexivity|].
    rewrite shown_length by assumption. destruct Hwf as [_ Hcnt]. unfold MAX_ELEMENTS in Hcnt. lia.
  - rewrite IH by now apply dashboard_add_element_wf.
    rewrite shown_add by assumption.
    rewrite take_take_app, <- app_assoc. reflexivity.
Qed.

Lemma update_last_wins (dash : dashboard_t) (element_id : Z) (v1 v2 : spec_float) :
  dashboard_update_value (dashboard_update_value dash element_id v1) element_id v2
  = dashboard_update_value dash element_id v2.
Proof.
  unfold dashboard_update_value.
  destruct (element_id <? element_count dash) eqn:Hlt; cbn [element_count elements name];
    rewrite Hlt; [|reflexivity].
  f_equal. rewrite list_alter_alter_eq. apply list_alter_ext; auto.
Qed.

Lemma update_commute (dash : dashboard_t) (id1 id2 : Z) (v1 v2 : spec_float) :
  0 <= id1 -> 0 <= id2 -> id1 <> id2 ->
  dashboard_update_value (dashboard_update_value dash id1 v1) id2 v2
  = dashboard_update_value (dashboard_update_value dash id2 v2) id1 v1.
Proof.
  intros H1 H2 Hne. unfold dashboard_update_value.
  destruct (id1 <? element_count dash) eqn:Hlt1, (id2 <? element_count dash) eqn:Hlt2;
    cbn [element_count elements name]; rewrite ?Hlt1, ?Hlt2; try reflexivity.
  f_equal. apply list_alter_alter_ne. lia.
Qed.

Lemma run_calls_wf (cs : list dash_call) :
  forall dash, dashboard_wf dash -> dashboard_wf (run_calls dash cs).
Proof.
  unfold run_calls. induction cs as [|c cs IH]; intros dash Hwf; cbn [fold_left]; [assumption|].
  apply IH. destruct c as [nm | element | element_id value | dash_data]; cbn [run_call].
  - apply dashboard_init_wf. now destruct Hwf.
  - now apply dashboard_add_element_wf.
  - now apply dashboard_update_value_wf.
  - exact Hwf.
Qed.

(** ** Updates that rendering does not see *)

Lemma render_element_set_value (fuel : nat) (fb : framebuffer_t) (v : spec_float)
  (e : dash_element_t) :
  el_type e = DASH_ELEMENT_LABEL \/ el_type e = DASH_ELEMENT_GRAPH ->
  render_element fuel fb (set_value v e) = render_element fuel fb e.
Proof.
  unfold render_element. cbn [set_value el_type]. intros [-> | ->]; reflexivity.
Qed.

Lemma render_elements_alter (fuel : nat) (fb : framebuffer_t) (v : spec_float)
  (l : list dash_element_t) :
  forall n,
    (forall e, l !! n = Some e ->
               el_type e = DASH_ELEMENT_LABEL \/ el_type e = DASH_ELEMENT_GRAPH) ->
    forall mem,
      render_elements fuel fb (alter (set_value v) n l) mem = render_elements fuel fb l mem.
Proof.
  induction l as [|e l IH]; intros [|n] Hn mem; cbn; try reflexivity.
  - rewrite render_element_set_value by now apply Hn. reflexivity.
  - destruct (render_element fuel fb e mem) as [mem1|]; [|reflexivity].
    apply IH. intros e' He'. now apply Hn.
Qed.

(** ** The pixels of the elements *)

Section ElementPixels.

Context (elem : dash_element_t) (fb : framebuffer_t) (px py : Z).
Hypothesis Hwf : fb_wf fb.
Hypothesis Hpx : 0 <= px < fb_width fb.
Hypothesis Hpy : 0 <= py < fb_height fb.
Hypothesis Hx : 0 <= el_x elem.
Hypothesis Hy : 0 <= el_y elem.
Hypothesis Hxw : el_x elem + el_width elem <= 2 ^ 32.
Hypothesis Hyh : el_y elem + el_height elem <= 2 ^ 32.

Lemma render_label_lookup (mem : gmap Z Z) :
  0 < el_width elem -> 0 < el_height elem ->
  render_label elem fb mem !! fb_index fb px py
  = if in_box (el_x elem) (el_y elem) (el_width elem) (el_height elem) px py
    then Some (label_pixel elem px py)
    else mem !! fb_index fb px py.
Proof.
  intros Hw Hh. destruct (fb_wf_bounds fb px py Hwf Hpx Hpy) as [Hfw Hfh].
  unfold render_label.
  rewrite fb_draw_rect_lookup, fb_draw_filled_rect_lookup by assumption.
  rewrite outline_hit_nowrap, fill_hit_nowrap by lia.
  unfold label_pixel, on_border.
  destruct (in_box (el_x elem) (el_y elem) (el_width elem) (el_height elem) px py);
    cbn [andb]; [|reflexivity].
  now destruct ((px =? el_x elem) || (px =? el_x elem + el_width elem - 1)
                || (py =? el_y elem) || (py =? el_y elem + el_height elem - 1)).
Qed.

Lemma render_value_lookup (mem : gmap Z Z) :
  0 < el_width elem -> 10 <= el_height elem -> el_x elem + 25 <= 2 ^ 32 ->
  render_value elem fb mem !! fb_index fb px py
  = if in_box (el_x elem + 5) (el_y elem + 5) 20 (el_height elem - 10) px py
       || in_box (el_x elem) (el_y elem) (el_width elem) (el_height elem) px py
    then Some (value_pixel elem px py)
    else mem !! fb_index fb px py.
Proof.
  intros Hw Hh Hx25. destruct (fb_wf_bounds fb px py Hwf Hpx Hpy) as [Hfw Hfh].
  unfold render_value.
  change (fb_draw_rect fb (el_x elem) (el_y elem) (el_width elem) (el_height elem)
            (el_color elem)
            (fb_draw_filled_rect fb (el_x elem) (el_y elem) (el_width elem) (el_height elem)
               COLOR_BLACK mem))
    with (render_label elem fb mem).
  rewrite fb_draw_filled_rect_lookup by assumption.
  assert (E5x : U32.add (el_x elem) 5 = el_x elem + 5).
  { apply u32_wrap_small. unfold U32.modulus. lia. }
  assert (E5y : U32.add (el_y elem) 5 = el_y elem + 5).
  { apply u32_wrap_small. unfold U32.modulus. lia. }
  assert (Eh : U32.sub (el_height elem) 10 = el_height elem - 10).
  { apply u32_wrap_small. unfold U32.modulus. lia. }
  rewrite E5x, E5y, Eh, fill_hit_nowrap by lia.
  unfold value_pixel.
  destruct (in_box (el_x elem + 5) (el_y elem + 5) 20 (el_height elem - 10) px py);
    cbn [orb]; [reflexivity|].
  apply render_label_lookup; lia.
Qed.

(** A short Value element: the height of the indicator, [height - 10],
    wraps, and the bar runs through the rows of the display, those from
    [y + height - 5] to [y + 4] apart. *)
Lemma render_value_short (mem : gmap Z Z) :
  0 <= el_height elem < 10 -> el_x elem + 25 <= 2 ^ 32 -> el_y elem + 5 <= 2 ^ 32 ->
  fb_height fb <= 2 ^ 32 - 5 ->
  el_x elem + 5 <= px < el_x elem + 25 ->
  ~ (el_y elem + el_height elem - 5 <= py < el_y elem + 5) ->
  render_value elem fb mem !! fb_index fb px py = Some (indicator_color elem).
Proof.
  intros Hh Hx25 Hy5 Hfh5 Hcol Hrow. destruct (fb_wf_bounds fb px py Hwf Hpx Hpy) as [Hfw Hfh].
  unfold render_value. rewrite fb_draw_filled_rect_lookup by assumption.
  assert (Hhit : fill_hit (U32.add (el_x elem) 5) (U32.add (el_y elem) 5) 20
                   (U32.sub (el_height elem) 10) px py = true).
  { unfold fill_hit. apply andb_true_iff. rewrite !Z.ltb_lt.
    assert (Eh : U32.sub (el_height elem) 10 = el_height elem - 10 + 2 ^ 32).
    { unfold U32.sub, U32.wrap, U32.modulus.
      rewrite <- (Z_mod_plus_full (el_height elem - 10) 1 (2 ^ 32)).
      apply Z.mod_small. lia. }
    rewrite Eh. unfold U32.sub, U32.add, U32.wrap, U32.modulus.
    rewrite !Zminus_mod_idemp_r.
    change (2 ^ 32) with 4294967296 in *.
    split.
    - Z.to_euclidean_division_equations; lia.
    - Z.to_euclidean_division_equations; lia. }
  now rewrite Hhit.
Qed.

(** The grid of a graph. *)
Lemma graph_row_lookup (bound y_pos : Z) :
  0 <= y_pos -> bound <= U32.modulus - 4 ->
  forall (fuel : nat) (x : Z) (mem mem' : gmap Z Z),
    0 <= x ->
    graph_row fuel fb x bound y_pos mem = Some mem' ->
    mem' !! fb_index fb px py
    = if (py =? y_pos) && (x <=? px) && (px <? bound) && ((px - x) mod 4 =? 0)
      then Some COLOR_GRAY else mem !! fb_index fb px py.
Proof.
  intros Hypos Hbound. induction fuel as [|fuel IH]; intros x mem mem' Hx0 Hrun;
    cbn [graph_row] in Hrun; [discriminate|].
  destruct (Z.ltb_spec x bound) as [Hlt | Hge].
  - assert (E4 : U32.add x 4 = x + 4).
    { apply u32_wrap_small. lia. }
    rewrite E4 in Hrun. apply IH in Hrun; [|lia]. rewrite Hrun.
    rewrite fb_draw_pixel_lookup by assumption.
    destruct (decide ((px, py) = (x, y_pos))) as [[= -> ->] | Hne].
    + assert (Hhere : (y_pos =? y_pos) && (x <=? x) && (x <? bound) && ((x - x) mod 4 =? 0)
                      = true).
      { rewrite Z.eqb_refl, Z.leb_refl, Z.sub_diag. apply Z.ltb_lt in Hlt as ->. reflexivity. }
      rewrite Hhere.
      now destruct ((y_pos =? y_pos) && (x + 4 <=? x) && (x <? bound)
                    && ((x - (x + 4)) mod 4 =? 0)).
    + assert (Heq : (py =? y_pos) && (x + 4 <=? px) && (px <? bound) && ((px - (x + 4)) mod 4 =? 0)
                    = (py =? y_pos) && (x <=? px) && (px <? bound) && ((px - x) mod 4 =? 0)).
      { apply eq_true_iff_eq.
        rewrite !andb_true_iff, !Z.eqb_eq, !Z.leb_le, !Z.ltb_lt.
        assert (px <> x \/ py <> y_pos) by (destruct (Z.eq_dec px x); [right | left]; congruence).
        split; intros (((? & ?) & ?) & ?); repeat split; try lia;
          Z.to_euclidean_division_equations; lia. }
      now rewrite Heq.
  - assert (Hno : (py =? y_pos) && (x <=? px) && (px <? bound) && ((px - x) mod 4 =? 0) = false).
    { apply not_true_is_false.
      rewrite !andb_true_iff, !Z.leb_le, !Z.ltb_lt. lia. }
    rewrite Hno. now injection Hrun as <-.
Qed.

Lemma graph_line_lookup (fuel : nat) (i : Z) (mem mem' : gmap Z Z) :
  2 <= el_width elem -> el_x elem + el_width elem <= 2 ^ 32 - 2 ->
  0 < el_height elem -> el_height elem * 3 < 2 ^ 32 -> 1 <= i <= 3 ->
  graph_line fuel elem fb i mem = Some mem' ->
  mem' !! fb_index fb px py
  = if (py =? el_y elem + el_height elem * i / 4)
       && (el_x elem + 2 <=? px) && (px <? el_x elem + el_width elem - 2)
       && ((px - (el_x elem + 2)) mod 4 =? 0)
    then Some COLOR_GRAY else mem !! fb_index fb px py.
Proof.
  intros Hw Hxw2 Hh Hh3 Hi. unfold graph_line.
  assert (Em : U32.mul (el_height elem) i = el_height elem * i).
  { apply u32_wrap_small. unfold U32.modulus. nia. }
  assert (Ey : U32.add (el_y elem) (el_height elem * i / 4) = el_y elem + el_height elem * i / 4).
  { apply u32_wrap_small. unfold U32.modulus.
    assert (0 <= el_height elem * i / 4 < el_height elem).
    { split; [apply Z.div_pos; nia|]. apply Z.div_lt_upper_bound; nia. }
    lia. }
  assert (Ex : U32.add (el_x elem) 2 = el_x elem + 2).
  { apply u32_wrap_small. unfold U32.modulus. lia. }
  assert (Eb : U32.sub (U32.add (el_x elem) (el_width elem)) 2 = el_x elem + el_width elem - 2).
  { unfold U32.sub, U32.add. rewrite (u32_wrap_small (_ + _)) by (unfold U32.modulus; lia).
    apply u32_wrap_small. unfold U32.modulus. lia. }
  rewrite Em, Ey, Ex, Eb. intros Hrun.
  eapply graph_row_lookup in Hrun; [exact Hrun | | unfold U32.modulus; lia | lia].
  assert (0 <= el_height elem * i / 4) by (apply Z.div_pos; nia). lia.
Qed.

End ElementPixels.

Ltac case_tests :=
  repeat match goal with
         | |- context [?a <=? ?b] => bool_case_on (a <=? b); try lia
         | |- context [?a <? ?b] => bool_case_on (a <? b); try lia
         | |- context [?a =? ?b] => bool_case_on (a =? b); try lia
         end;
  cbn [negb andb orb]; try reflexivity.

Lemma in_box_true (x y w h px py : Z) :
  in_box x y w h px py = true <-> x <= px < x + w /\ y <= py < y + h.
Proof.
  unfold in_box. rewrite !andb_true_iff, !Z.leb_le, !Z.ltb_lt. lia.
Qed.

Lemma in_box_false (x y w h px py : Z) :
  in_box x y w h px py = false <-> ~ (x <= px < x + w /\ y <= py < y + h).
Proof. rewrite <- in_box_true. now destruct (in_box x y w h px py). Qed.

Lemma render_graph_lookup (elem : dash_element_t) (fb : framebuffer_t) (px py : Z)
  (fuel : nat) (mem mem' : gmap Z Z) :
  fb_wf fb -> 0 <= px < fb_width fb -> 0 <= py < fb_height fb ->
  0 <= el_x elem -> 0 <= el_y elem -> 2 <= el_width elem -> 0 < el_height elem ->
  el_x elem + el_width elem <= 2 ^ 32 - 2 -> el_y elem + el_height elem <= 2 ^ 32 ->
  el_height elem * 3 < 2 ^ 32 ->
  render_graph fuel elem fb mem = Some mem' ->
  mem' !! fb_index fb px py
  = if in_box (el_x elem) (el_y elem) (el_width elem) (el_height elem) px py
    then Some (graph_pixel elem px py)
    else mem !! fb_index fb px py.
Proof.
  intros Hwf Hpx Hpy Hx Hy Hw Hh Hxw Hyh Hh3. unfold render_graph.
  change (fb_draw_rect fb (el_x elem) (el_y elem) (el_width elem) (el_height elem)
            (el_color elem)
            (fb_draw_filled_rect fb (el_x elem) (el_y elem) (el_width elem) (el_height elem)
               COLOR_BLACK mem))
    with (render_label elem fb mem).
  destruct (graph_line fuel elem fb 1 _) as [mem1|] eqn:H1; [|discriminate].
  destruct (graph_line fuel elem fb 2 mem1) as [mem2|] eqn:H2; [|discriminate].
  intros H3.
  apply (graph_line_lookup elem fb px py) in H1, H2, H3; try assumption; try lia.
  rewrite H3, H2, H1, (render_label_lookup elem fb px py) by (assumption || lia).
  assert (Hrows : forall i, 1 <= i <= 3 ->
                    el_y elem <= el_y elem + el_height elem * i / 4
                    < el_y elem + el_height elem).
  { intros i Hi.
    assert (0 <= el_height elem * i / 4 < el_height elem).
    { split; [apply Z.div_pos; nia|]. apply Z.div_lt_upper_bound; nia. }
    lia. }
  pose proof (Hrows 1 ltac:(lia)) as R1.
  pose proof (Hrows 2 ltac:(lia)) as R2.
  pose proof (Hrows 3 ltac:(lia)) as R3.
  unfold graph_pixel, on_grid.
  set (r1 := el_y elem + el_height elem * 1 / 4) in *.
  set (r2 := el_y elem + el_height elem * 2 / 4) in *.
  set (r3 := el_y elem + el_height elem * 3 / 4) in *.
  set (col := (px - (el_x elem + 2)) mod 4 =? 0).
  destruct (in_box (el_x elem) (el_y elem) (el_width elem) (el_height elem) px py) eqn:Hbox.
  - destruct col, (py =? r1), (py =? r2), (py =? r3),
      (el_x elem + 2 <=? px), (px <? el_x elem + el_width elem - 2); reflexivity.
  - apply in_box_false in Hbox.
    destruct col; rewrite ?andb_false_r; try reflexivity.
    case_tests.
Qed.

Lemma render_gauge_lookup (elem : dash_element_t) (fb : framebuffer_t) (px py : Z)
  (mem : gmap Z Z) :
  fb_wf fb -> 0 <= px < fb_width fb -> 0 <= py < fb_height fb ->
  0 <= el_x elem -> 0 <= el_y elem -> 4 <= el_width elem -> 4 <= el_height elem ->
  el_x elem + el_width elem <= 2 ^ 32 -> el_y elem + el_height elem <= 2 ^ 32 ->
  gauge_fill_width elem <= el_width elem - 4 ->
  render_gauge elem fb mem !! fb_index fb px py
  = if in_box (el_x elem) (el_y elem) (el_width elem) (el_height elem) px py
    then Some (gauge_pixel elem px py)
    else mem !! fb_index fb px py.
Proof.
  intros Hwf Hpx Hpy Hx Hy Hw Hh Hxw Hyh Hfill.
  destruct (fb_wf_bounds fb px py Hwf Hpx Hpy) as [Hfw Hfh].
  unfold render_gauge, gauge_pixel. rewrite <- gauge_fill_width_spec.
  change (fb_draw_rect fb (el_x elem) (el_y elem) (el_width elem) (el_height elem)
            (el_color elem)
            (fb_draw_filled_rect fb (el_x elem) (el_y elem) (el_width elem) (el_height elem)
               COLOR_BLACK mem))
    with (render_label elem fb mem).
  assert (Ex2 : U32.add (el_x elem) 2 = el_x elem + 2).
  { apply u32_wrap_small. unfold U32.modulus. lia. }
  assert (Ey2 : U32.add (el_y elem) 2 = el_y elem + 2).
  { apply u32_wrap_small. unfold U32.modulus. lia. }
  assert (Eh4 : U32.sub (el_height elem) 4 = el_height elem - 4).
  { apply u32_wrap_small. unfold U32.modulus. lia. }
  rewrite Ex2, Ey2, Eh4.
  set (F := gauge_fill_width elem) in *.
  assert (Hlabel : render_label elem fb mem !! fb_index fb px py
                   = if in_box (el_x elem) (el_y elem) (el_width elem) (el_height elem) px py
                     then Some (label_pixel elem px py) else mem !! fb_index fb px py).
  { apply render_label_lookup; assumption || lia. }
  destruct (Z.ltb_spec 0 F) as [Hpos | Hzero].
  - rewrite fb_draw_filled_rect_lookup, fill_hit_nowrap, Hlabel by (assumption || lia).
    unfold label_pixel, on_border, in_box. case_tests.
  - rewrite Hlabel. unfold label_pixel, on_border, in_box. case_tests.
Qed.

(** ** Rendering writes inside the region, and all of it *)

Lemma render_label_frame (elem : dash_element_t) (fb : framebuffer_t) (mem : gmap Z Z) (i : Z) :
  0 <= el_x elem -> 0 <= el_y elem -> ~ in_region fb i ->
  render_label elem fb mem !! i = mem !! i.
Proof.
  intros Hx Hy Hi. unfold render_label.
  rewrite fb_draw_rect_frame, fb_draw_filled_rect_frame by assumption. reflexivity.
Qed.

Lemma graph_row_frame (fb : framebuffer_t) (bound y_pos i : Z) :
  0 <= y_pos -> ~ in_region fb i ->
  forall (fuel : nat) (x : Z) (mem mem' : gmap Z Z),
    0 <= x -> graph_row fuel fb x bound y_pos mem = Some mem' -> mem' !! i = mem !! i.
Proof.
  intros Hy Hi. induction fuel as [|fuel IH]; intros x mem mem' Hx Hrun;
    cbn [graph_row] in Hrun; [discriminate|].
  destruct (x <? bound).
  - apply IH in Hrun; [|apply u32_add_range]. rewrite Hrun.
    now apply fb_draw_pixel_frame.
  - now injection Hrun as <-.
Qed.

Lemma render_element_frame (fuel : nat) (fb : framebuffer_t) (elem : dash_element_t)
  (mem mem' : gmap Z Z) (i : Z) :
  0 <= el_x elem -> 0 <= el_y elem -> ~ in_region fb i ->
  render_element fuel fb elem mem = Some mem' -> mem' !! i = mem !! i.
Proof.
  intros Hx Hy Hi. unfold render_element. destruct (el_type elem).
  - intros [= <-]. unfold render_gauge.
    change (fb_draw_rect fb (el_x elem) (el_y elem) (el_width elem) (el_height elem)
              (el_color elem)
              (fb_draw_filled_rect fb (el_x elem) (el_y elem) (el_width elem) (el_height elem)
                 COLOR_BLACK mem))
      with (render_label elem fb mem).
    destruct (0 <? gauge_fill_width elem);
      rewrite ?fb_draw_filled_rect_frame by assumption; now apply render_label_frame.
  - intros [= <-]. now apply render_label_frame.
  - unfold render_graph.
    change (fb_draw_rect fb (el_x elem) (el_y elem) (el_width elem) (el_height elem)
              (el_color elem)
              (fb_draw_filled_rect fb (el_x elem) (el_y elem) (el_width elem) (el_height elem)
                 COLOR_BLACK mem))
      with (render_label elem fb mem).
    destruct (graph_line fuel elem fb 1 _) as [mem1|] eqn:H1; [|discriminate].
    destruct (graph_line fuel elem fb 2 mem1) as [mem2|] eqn:H2; [|discriminate].
    intros H3. unfold graph_line in H1, H2, H3.
    apply (graph_row_frame fb _ _ i) in H1, H2, H3;
      try assumption; try apply u32_add_range.
    rewrite H3, H2, H1. now apply render_label_frame.
  - intros [= <-]. unfold render_value.
    change (fb_draw_rect fb (el_x elem) (el_y elem) (el_width elem) (el_height elem)
              (el_color elem)
              (fb_draw_filled_rect fb (el_x elem) (el_y elem) (el_width elem) (el_height elem)
                 COLOR_BLACK mem))
      with (render_label elem fb mem).
    rewrite fb_draw_filled_rect_frame by assumption. now apply render_label_frame.
Qed.

Lemma render_elements_frame (fuel : nat) (fb : framebuffer_t) (i : Z)
  (elems : list dash_element_t) :
  Forall (fun e => 0 <= el_x e /\ 0 <= el_y e) elems -> ~ in_region fb i ->
  forall mem mem', render_elements fuel fb elems mem = Some mem' -> mem' !! i = mem !! i.
Proof.
  intros Hall Hi. induction Hall as [|e elems [Hx Hy] _ IH]; intros mem mem' Hrun;
    cbn [render_elements] in Hrun.
  - now injection Hrun as <-.
  - destruct (render_element fuel fb e mem) as [mem1|] eqn:H1; [|discriminate].
    rewrite (IH _ _ Hrun). eapply render_element_frame; eassumption.
Qed.

Lemma paints_opt_lookup (T : gmap Z Z -> option (gmap Z Z)) (i : Z) :
  paints_opt T ->
  forall m1 m2 o1 o2,
    T m1 = Some o1 -> T m2 = Some o2 -> is_Some (m1 !! i) -> m1 !! i = m2 !! i ->
    is_Some (o1 !! i) /\ o1 !! i = o2 !! i.
Proof.
  intros [N | [m H]] m1 m2 o1 o2 H1 H2 Hsome Heq.
  - rewrite N in H1. discriminate.
  - rewrite H in H1, H2. injection H1 as <-. injection H2 as <-.
    rewrite !lookup_union. destruct (m !! i) as [c|]; rewrite <- ?Heq.
    + destruct (m1 !! i); cbn; eauto.
    + rewrite !(left_id_L None _). auto.
Qed.

Lemma paints_opt_returns (T : gmap Z Z -> option (gmap Z Z)) (m1 m2 : gmap Z Z) :
  paints_opt T -> is_Some (T m1) -> is_Some (T m2).
Proof.
  intros [N | [m H]] [o Ho].
  - rewrite N in Ho. discriminate.
  - rewrite H. eauto.
Qed.

(** ** The width of the fill of a gauge *)

Lemma valid_cases (x : spec_float) : F32.valid x = true -> x = S754_nan \/ binary32 x.
Proof.
  intros V. destruct (F32.is_nan x) eqn:N.
  - left. destruct x; try discriminate. reflexivity.
  - right. now apply valid_binary32.
Qed.

Lemma sub_closed (x y : spec_float) :
  binary32 x -> binary32 y -> F32.sub x y = S754_nan \/ binary32 (F32.sub x y).
Proof.
  intros Hx Hy.
  destruct y as [sy|sy| |sy my ey].
  - right. apply sub_binary32; [assumption | exact I].
  - destruct x as [sx|sx| |sx mx ex]; try contradiction.
    + right. exact I.
    + destruct sx, sy; cbn; auto.
    + right. exact I.
  - contradiction.
  - right. apply sub_binary32; assumption.
Qed.

Lemma div_closed (a d : spec_float) :
  binary32 a -> binary32 d -> F32.div a d = S754_nan \/ binary32 (F32.div a d).
Proof.
  intros Ha Hd.
  destruct a as [sa|sa| |sa ma ea], d as [sd|sd| |sd md ed]; try contradiction;
    try (right; exact I); try (left; reflexivity).
  right. unfold F32.div, F32.prec, F32.emax.
  destruct Ha as (_ & Hea & _), Hd as (_ & Hed & _).
  rewrite SFdiv_finite_round_frac by lia.
  apply round_frac_binary32; lia.
Qed.

Lemma div_nan_r (a : spec_float) : F32.div a S754_nan = S754_nan.
Proof. now destruct a. Qed.

Lemma percentage_closed (v mn mx : spec_float) :
  F32.valid v = true -> F32.valid mn = true -> F32.valid mx = true ->
  let p := F32.div (F32.sub v mn) (F32.sub mx mn) in
  p = S754_nan \/ binary32 p.
Proof.
  intros Vv Vmn Vmx p. subst p.
  destruct (valid_cases mn Vmn) as [-> | Omn].
  { left. replace (F32.sub mx S754_nan) with S754_nan by now destruct mx.
    apply div_nan_r. }
  destruct (valid_cases mx Vmx) as [-> | Omx].
  { left. apply div_nan_r. }
  destruct (valid_cases v Vv) as [-> | Ov].
  { left. reflexivity. }
  destruct (sub_closed mx mn Omx Omn) as [-> | Od]; [left; apply div_nan_r|].
  destruct (sub_closed v mn Ov Omn) as [-> | Oa]; [left; reflexivity|].
  now apply div_closed.
Qed.

(** The conversion to [uint32_t], from the rank. *)
Lemma to_u32_rank (x : spec_float) :
  binary32 x -> 0 <= rank x ->
  F32.to_u32 x = Z.min (U32.modulus - 1) (rank x / 2 ^ 149).
Proof.
  intros Hx Hr. destruct x as [s|s| |s m e]; cbn [rank F32.to_u32] in *.
  - destruct s; reflexivity.
  - destruct s; cbn [cond_Zopp] in *; [lia|]. reflexivity.
  - contradiction.
  - destruct Hx as (Hm & He & _).
    destruct s; cbn [cond_Zopp] in *.
    { assert (0 < Zpos m * 2 ^ (e + 149)) by (apply Z.mul_pos_pos; [lia | apply Z.pow_pos_nonneg; lia]).
      lia. }
    f_equal. destruct e as [|p|p].
    + cbn [Z.shiftl]. change (0 + 149) with 149.
      rewrite Z.div_mul by (apply Z.pow_nonzero; lia). reflexivity.
    + rewrite Z.shiftl_mul_pow2 by lia.
      rewrite Z.pow_add_r by lia. rewrite Z.mul_assoc.
      rewrite Z.div_mul by (apply Z.pow_nonzero; lia). reflexivity.
    + rewrite Z.shiftr_div_pow2 by lia.
      replace (2 ^ 149) with (2 ^ (Zneg p + 149) * 2 ^ Zpos p).
      * rewrite (Z.mul_comm (Zpos m)).
        rewrite Z.div_mul_cancel_l; [reflexivity | | ]; apply Z.pow_nonzero; lia.
      * rewrite <- Z.pow_add_r by lia. f_equal. lia.
Qed.

Lemma to_u32_mono (x y : spec_float) :
  binary32 x -> binary32 y -> 0 <= rank x <= rank y -> F32.to_u32 x <= F32.to_u32 y.
Proof.
  intros Hx Hy Hr. rewrite !to_u32_rank by (assumption || lia).
  apply Z.min_le_compat_l. apply Z.div_le_mono; [apply Z.pow_pos_nonneg|]; lia.
Qed.

(** A small integer is a binary32 number. *)
Lemma of_Z_exact (n : Z) :
  0 < n < 2 ^ 24 ->
  exists m e, F32.of_Z n = S754_finite false m e /\ canonical32 m e
              /\ Zpos m * 2 ^ (e + 149) = n * 2 ^ 149.
Proof.
  intros Hn. pose proof (Zdigits2_bounds n (proj1 Hn)) as Hd.
  assert (Hd24 : 1 <= Zdigits2 n <= 24).
  { split.
    - pose proof (Zdigits2_pos n (proj1 Hn)). lia.
    - apply Zdigits2_le_iff; lia. }
  set (d := Zdigits2 n) in *.
  assert (Hm : 2 ^ 23 <= n * 2 ^ (24 - d) < 2 ^ 24).
  { replace (2 ^ 23) with (2 ^ (d - 1) * 2 ^ (24 - d))
      by (rewrite <- Z.pow_add_r by lia; f_equal; lia).
    replace (2 ^ 24) with (2 ^ d * 2 ^ (24 - d))
      by (rewrite <- Z.pow_add_r by lia; f_equal; lia).
    assert (0 < 2 ^ (24 - d)) by (apply Z.pow_pos_nonneg; lia). nia. }
  exists (Z.to_pos (n * 2 ^ (24 - d))), (d - 24).
  assert (Hpos : Zpos (Z.to_pos (n * 2 ^ (24 - d))) = n * 2 ^ (24 - d))
    by (apply Z2Pos.id; lia).
  assert (Hcan : canonical32 (Z.to_pos (n * 2 ^ (24 - d))) (d - 24)).
  { unfold canonical32. rewrite Hpos. lia. }
  assert (Hval : Zpos (Z.to_pos (n * 2 ^ (24 - d))) * 2 ^ (d - 24 + 149) = n * 2 ^ 149).
  { rewrite Hpos, <- Z.mul_assoc, <- Z.pow_add_r by lia. do 2 f_equal. lia. }
  split; [|split; assumption].
  unfold F32.of_Z, F32.prec, F32.emax. rewrite binary_normalize_round_frac by lia.
  destruct (Z.eqb_spec n 0); [lia|].
  destruct (Z.ltb_spec n 0); [lia|].
  change (0 + 149) with 149. rewrite Z.abs_eq by lia.
  rewrite <- Hval. now apply round_frac_id.
Qed.

(** The product of two positive binary32 numbers, and a binary32 number
    itself, as fractions in units of [2^-298]. *)
Lemma mul_round_frac (m1 m2 : positive) (e1 e2 : Z) :
  canonical32 m1 e1 -> canonical32 m2 e2 ->
  F32.mul (S754_finite false m1 e1) (S754_finite false m2 e2)
  = round_frac false ((Zpos m1 * 2 ^ (e1 + 149)) * (Zpos m2 * 2 ^ (e2 + 149))) 1 (-298).
Proof.
  intros (H1m & H1e & H1n) (H2m & H2e & H2n).
  unfold F32.mul, F32.prec, F32.emax. cbn [SFmul xorb].
  change (binary_round_aux 24 128) with round32.
  rewrite <- round_frac_exact.
  rewrite <- (round_frac_refine false (Zpos (m1 * m2)) 1 (e1 + e2) (e1 + e2 + 298)); try lia.
  - f_equal; [|lia].
    replace (e1 + e2 + 298) with ((e1 + 149) + (e2 + 149)) by lia.
    rewrite Z.pow_add_r, Pos2Z.inj_mul by lia. ring.
  - rewrite Z.div_1_r. unfold fexp32.
    destruct (Z_le_gt_dec (e1 + e2) (-149)) as [Hle | Hgt]; [lia|].
    assert (Hbig : 2 ^ 23 <= Zpos (m1 * m2)).
    { rewrite Pos2Z.inj_mul.
      destruct (Z.eq_dec e1 (-149)) as [E1 | N1].
      - specialize (H2n ltac:(lia)). nia.
      - specialize (H1n ltac:(lia)). nia. }
    assert (24 <= Zdigits2 (Zpos (m1 * m2))).
    { apply Zdigits2_ge_iff; [lia | lia | exact Hbig]. }
    lia.
Qed.

Lemma finite_round_frac (m : positive) (e : Z) :
  canonical32 m e ->
  S754_finite false m e = round_frac false (2 ^ 149 * (Zpos m * 2 ^ (e + 149))) 1 (-298).
Proof.
  intros Hc. rewrite <- (round_frac_id false m e Hc) at 1.
  symmetry. apply (round_frac_refine false _ 1 (-149) 149); try lia.
  unfold fexp32. lia.
Qed.

Lemma mul_rank_mono (c1 c2 : spec_float) (m : positive) (e : Z) :
  binary32 c1 -> binary32 c2 -> 0 <= rank c1 <= rank c2 -> rank c2 <= rank F32.one ->
  canonical32 m e ->
  binary32 (F32.mul c1 (S754_finite false m e))
  /\ 0 <= rank (F32.mul c1 (S754_finite false m e))
          <= rank (F32.mul c2 (S754_finite false m e)).
Proof.
  intros H1 H2 Hr Hone Hc.
  pose proof (canonical32_magnitude m e Hc) as Hmag.
  assert (Hfin : forall c, binary32 c -> 0 <= rank c <= rank F32.one ->
            (exists s, c = S754_zero s /\ F32.mul c (S754_finite false m e) = S754_zero s)
            \/ (exists mc ec, c = S754_finite false mc ec /\ canonical32 mc ec)).
  { intros c Hb Hrc. change (rank F32.one) with (2 ^ 149) in Hrc.
    destruct c as [s|s| |s mc ec]; try contradiction.
    - left. exists s. split; [reflexivity|]. now destruct s.
    - cbn [rank] in Hrc. destruct s; cbn [cond_Zopp] in Hrc; lia.
    - right. exists mc, ec. destruct s; [|split; [reflexivity | exact Hb]].
      pose proof (canonical32_magnitude mc ec Hb). cbn [rank cond_Zopp] in Hrc. lia. }
  assert (Hpos : forall mc ec, canonical32 mc ec ->
            binary32 (F32.mul (S754_finite false mc ec) (S754_finite false m e))
            /\ 0 <= rank (F32.mul (S754_finite false mc ec) (S754_finite false m e))).
  { intros mc ec Hcc. rewrite mul_round_frac by assumption.
    pose proof (canonical32_magnitude mc ec Hcc).
    split; [apply round_frac_binary32; nia|].
    apply (round_frac_rank_sign false); nia. }
  destruct (Hfin c1 H1 ltac:(lia)) as [(s1 & -> & E1) | (m1 & e1 & -> & Hc1)].
  - rewrite E1. split; [exact I|]. split; [reflexivity|]. cbn [rank].
    destruct (Hfin c2 H2 ltac:(lia)) as [(s2 & -> & E2) | (m2 & e2 & -> & Hc2)].
    + rewrite E2. reflexivity.
    + now apply Hpos.
  - destruct (Hfin c2 H2 ltac:(lia)) as [(s2 & -> & E2) | (m2 & e2 & -> & Hc2)].
    + pose proof (canonical32_magnitude m1 e1 Hc1). cbn [rank cond_Zopp] in Hr. lia.
    + destruct (Hpos m1 e1 Hc1) as [Hb1 Hr1]. split; [assumption|]. split; [assumption|].
      rewrite !mul_round_frac by assumption.
      pose proof (canonical32_magnitude m1 e1 Hc1).
      cbn [rank cond_Zopp] in Hr.
      apply round_frac_rank_mono; try lia. nia.
Qed.

Lemma mul_one_l (m : positive) (e : Z) :
  canonical32 m e -> F32.mul F32.one (S754_finite false m e) = S754_finite false m e.
Proof.
  intros Hc. unfold F32.one.
  rewrite mul_round_frac; [|unfold canonical32; lia | assumption].
  rewrite (finite_round_frac m e Hc) at 1. reflexivity.
Qed.

(** The fill, as a function of the clamped fraction [c] and of the inner
    width [n]. *)
Lemma fill_mono (c1 c2 : spec_float) (n : Z) :
  binary32 c1 -> binary32 c2 -> 0 <= rank c1 <= rank c2 -> rank c2 <= rank F32.one ->
  0 <= n < 2 ^ 24 ->
  F32.to_u32 (F32.mul c1 (F32.of_Z n)) <= F32.to_u32 (F32.mul c2 (F32.of_Z n)).
Proof.
  intros H1 H2 Hr Hone Hn.
  destruct (Z.eq_dec n 0) as [-> | Hne].
  - change (F32.of_Z 0) with (S754_zero false).
    assert (Hz : forall c, binary32 c -> F32.to_u32 (F32.mul c (S754_zero false)) = 0).
    { intros [s|s| |s mc ec] Hb; try contradiction; cbn; now destruct s. }
    rewrite !Hz by assumption. reflexivity.
  - destruct (of_Z_exact n ltac:(lia)) as (m & e & -> & Hc & _).
    destruct (mul_rank_mono c1 c2 m e H1 H2 Hr Hone Hc) as (Hb1 & Hr1).
    destruct (mul_rank_mono c2 c2 m e H2 H2 ltac:(lia) Hone Hc) as (Hb2 & _).
    now apply to_u32_mono.
Qed.

Lemma fill_one (n : Z) :
  0 <= n < 2 ^ 24 -> F32.to_u32 (F32.mul F32.one (F32.of_Z n)) = n.
Proof.
  intros Hn. destruct (Z.eq_dec n 0) as [-> | Hne]; [reflexivity|].
  destruct (of_Z_exact n ltac:(lia)) as (m & e & -> & Hc & Hval).
  rewrite mul_one_l by assumption.
  rewrite to_u32_rank; [|exact Hc | cbn [rank cond_Zopp]; pose proof (canonical32_magnitude m e Hc); lia].
  cbn [rank cond_Zopp]. rewrite Hval.
  rewrite Z.div_mul by (apply Z.pow_nonzero; lia).
  unfold U32.modulus. lia.
Qed.

Lemma fill_nan (w : spec_float) : F32.to_u32 (F32.mul S754_nan w) = 0.
Proof. reflexivity. Qed.

Lemma clamp_nan : clamp_percentage S754_nan = S754_nan.
Proof. reflexivity. Qed.

Lemma gauge_fill_width_le (elem : dash_element_t) :
  F32.valid (el_value elem) = true -> F32.valid (el_min_value elem) = true ->
  F32.valid (el_max_value elem) = true ->
  4 <= el_width elem < 2 ^ 24 + 4 ->
  0 <= gauge_fill_width elem <= el_width elem - 4.
Proof.
  intros Vv Vmn Vmx Hw. split; [apply to_u32_nonneg|].
  unfold gauge_fill_width, percentage_of.
  assert (En : U32.sub (el_width elem) 4 = el_width elem - 4).
  { apply u32_wrap_small. unfold U32.modulus. lia. }
  rewrite En.
  destruct (percentage_closed _ _ _ Vv Vmn Vmx) as [-> | Hp].
  - rewrite clamp_nan, fill_nan. lia.
  - destruct (clamp_rank _ Hp) as [Hc Hrc].
    pose proof rank_one_pos.
    rewrite <- (fill_one (el_width elem - 4)) at 2 by lia.
    apply fill_mono; try assumption; try lia.
    exact binary32_one.
Qed.

Lemma gauge_fill_width_mono (elem : dash_element_t) (v1 v2 : spec_float) :
  F32.valid (el_min_value elem) = true -> F32.valid (el_max_value elem) = true ->
  F32.ltb (el_min_value elem) (el_max_value elem) = true ->
  F32.is_finite (F32.sub (el_max_value elem) (el_min_value elem)) = true ->
  4 <= el_width elem < 2 ^ 24 + 4 ->
  F32.valid v1 = true -> F32.valid v2 = true -> F32.leb v1 v2 = true ->
  gauge_fill_width (set_value v1 elem) <= gauge_fill_width (set_value v2 elem).
Proof.
  intros Vmn Vmx Hlt Hfin Hw V1 V2 Hle.
  destruct (ltb_not_nan _ _ Hlt) as [Nmn Nmx].
  pose proof (valid_binary32 _ Vmn Nmn) as Omn. pose proof (valid_binary32 _ Vmx Nmx) as Omx.
  destruct (range_positive _ _ Omn Omx Hlt Hfin) as (Fmn & Fmx & md & ed & Hd & Hwf).
  destruct (leb_not_nan _ _ Hle) as [N1 N2].
  pose proof (valid_binary32 _ V1 N1) as O1. pose proof (valid_binary32 _ V2 N2) as O2.
  apply (leb_rank v1 v2 O1 O2) in Hle.
  unfold gauge_fill_width, percentage_of.
  cbn [set_value el_value el_min_value el_max_value el_width].
  assert (En : U32.sub (el_width elem) 4 = el_width elem - 4).
  { apply u32_wrap_small. unfold U32.modulus. lia. }
  rewrite En, Hd.
  pose proof (sub_binary32 v1 _ O1 Fmn) as Oa1. pose proof (sub_binary32 v2 _ O2 Fmn) as Oa2.
  destruct (div_rank _ md ed Oa1 Hwf) as [Op1 Hneg1].
  destruct (div_rank _ md ed Oa2 Hwf) as [Op2 _].
  destruct (clamp_rank _ Op1) as [Of1 R1]. destruct (clamp_rank _ Op2) as [Of2 R2].
  pose proof rank_one_pos.
  apply fill_mono; try assumption; try lia.
  rewrite R1, R2.
  destruct (sub_mono v1 v2 _ O1 O2 Fmn Hle) as [Hnonpos | Hpos].
  - specialize (Hneg1 Hnonpos). lia.
  - pose proof (div_mono _ _ md ed Oa1 Oa2 Hwf Hpos). lia.
Qed.

Lemma gauge_fill_width_ends (elem : dash_element_t) :
  F32.valid (el_min_value elem) = true -> F32.valid (el_max_value elem) = true ->
  F32.ltb (el_min_value elem) (el_max_value elem) = true ->
  F32.is_finite (F32.sub (el_max_value elem) (el_min_value elem)) = true ->
  4 <= el_width elem < 2 ^ 24 + 4 ->
  gauge_fill_width (set_value (el_min_value elem) elem) = 0
  /\ gauge_fill_width (set_value (el_max_value elem) elem) = el_width elem - 4.
Proof.
  intros Vmn Vmx Hlt Hfin Hw.
  destruct (ltb_not_nan _ _ Hlt) as [Nmn Nmx].
  pose proof (valid_binary32 _ Vmn Nmn) as Omn. pose proof (valid_binary32 _ Vmx Nmx) as Omx.
  destruct (range_positive _ _ Omn Omx Hlt Hfin) as (Fmn & Fmx & md & ed & Hd & Hwf).
  unfold gauge_fill_width, percentage_of.
  cbn [set_value el_value el_min_value el_max_value el_width].
  assert (En : U32.sub (el_width elem) 4 = el_width elem - 4).
  { apply u32_wrap_small. unfold U32.modulus. lia. }
  rewrite En, Hd. split.
  - rewrite sub_self by assumption.
    change (clamp_percentage (F32.div F32.zero (S754_finite false md ed))) with F32.zero.
    apply mul_zero_l_to_u32.
  - rewrite div_self.
    change (clamp_percentage F32.one) with F32.one. apply fill_one. lia.
Qed.

(** ** A mailbox that never answers *)

Section MailboxWaits.

Context (device : Type).
Context (dev_read : Z -> device * list Z -> Z * (device * list Z)).
Context (dev_write : Z -> Z -> device * list Z -> device * list Z).
Context (mailbox_addr : Z).

Lemma wait_while_stuck (flag : Z) :
  (forall w, Z.land (fst (dev_read MAILBOX_STATUS w)) flag <> 0) ->
  forall fuel w, wait_while device dev_read fuel flag w = None.
Proof.
  intros Hstuck. induction fuel as [|fuel IH]; intros w; cbn [wait_while]; [reflexivity|].
  unfold mmio_read. specialize (Hstuck w).
  destruct (dev_read MAILBOX_STATUS w) as [v w1]. cbn [fst] in Hstuck.
  destruct (Z.eqb_spec (Z.land v flag) 0); [contradiction | apply IH].
Qed.

Lemma wait_response_unanswered (inner : nat) (r : Z) :
  (forall w, Z.land (fst (dev_read MAILBOX_STATUS w)) MAILBOX_EMPTY <> 0)
  \/ (forall w, fst (dev_read MAILBOX_READ w) <> r) ->
  forall fuel w, wait_response device dev_read fuel inner r w = None.
Proof.
  intros Hdev. induction fuel as [|fuel IH]; intros w; cbn [wait_response]; [reflexivity|].
  destruct Hdev as [Hempty | Hother].
  - now rewrite wait_while_stuck.
  - destruct (wait_while device dev_read inner MAILBOX_EMPTY w) as [w1|]; [|reflexivity].
    unfold mmio_read. specialize (Hother w1).
    destruct (dev_read MAILBOX_READ w1) as [v w2]. cbn [fst] in Hother.
    destruct (Z.eqb_spec r v); [congruence | apply IH].
Qed.

Lemma mailbox_call_unanswered (channel : Z) :
  (forall w, Z.land (fst (dev_read MAILBOX_STATUS w)) MAILBOX_FULL <> 0)
  \/ (forall w, Z.land (fst (dev_read MAILBOX_STATUS w)) MAILBOX_EMPTY <> 0)
  \/ (forall w, fst (dev_read MAILBOX_READ w)
                <> Z.lor (Z.land (U32.wrap mailbox_addr) 0xFFFFFFF0) (Z.land channel 0xF)) ->
  forall fuel w, mailbox_call device dev_read dev_write mailbox_addr fuel channel w = None.
Proof.
  intros Hdev fuel w. unfold mailbox_call.
  destruct Hdev as [Hfull | Hrest].
  - now rewrite wait_while_stuck.
  - destruct (wait_while device dev_read fuel MAILBOX_FULL w) as [w1|]; [|reflexivity].
    now apply wait_response_unanswered.
Qed.

End MailboxWaits.

(** ** The demonstration of [kernel_main] *)









(** ** The animation loop *)





(** ** The pixels of an element and of a frame *)

Lemma render_element_lookup (fuel : nat) (fb : framebuffer_t) (elem : dash_element_t)
  (mem : gmap Z Z) (px py : Z) :
  fb_wf fb -> element_fits fb elem -> 2 ^ 30 < Z.of_nat fuel ->
  0 <= px < fb_width fb -> 0 <= py < fb_height fb ->
  exists mem',
    render_element fuel fb elem mem = Some mem'
    /\ mem' !! fb_index fb px py
       = if in_box (el_x elem) (el_y elem) (el_width elem) (el_height elem) px py
         then Some (element_pixel elem px py)
         else mem !! fb_index fb px py.
Proof.
  intros Hwf (Hx & Hy & Hxw & Hyh & Hsize) Hfuel Hpx Hpy.
  destruct (fb_wf_bounds fb px py Hwf Hpx Hpy) as [Hfw Hfh].
  unfold render_element, element_pixel. destruct (el_type elem) eqn:Htype.
  - destruct Hsize as (Hw & Hh & Vv & Vmn & Vmx).
    pose proof (gauge_fill_width_le elem Vv Vmn Vmx Hw) as Hfill.
    eexists. split; [reflexivity|].
    apply render_gauge_lookup; assumption || lia.
  - destruct Hsize as (Hw & Hh).
    eexists. split; [reflexivity|].
    apply render_label_lookup; assumption || lia.
  - destruct Hsize as (Hw & Hh & Hxw2 & Hh3).
    destruct (render_element_terminates fuel fb elem mem) as [mem' Hrun];
      [intros _; unfold U32.sub, U32.add;
       rewrite (u32_wrap_small (_ + _)) by (unfold U32.modulus; lia);
       rewrite u32_wrap_small by (unfold U32.modulus; lia);
       unfold U32.modulus; lia
      | assumption |].
    unfold render_element in Hrun. rewrite Htype in Hrun.
    exists mem'. split; [assumption|].
    apply (render_graph_lookup elem fb px py fuel mem mem'); assumption || lia.
  - destruct Hsize as (Hw & Hh).
    eexists. split; [reflexivity|].
    rewrite render_value_lookup by (assumption || lia).
    destruct (in_box (el_x elem) (el_y elem) (el_width elem) (el_height elem) px py) eqn:Hbox;
      [now rewrite orb_true_r|].
    assert (Hind : in_box (el_x elem + 5) (el_y elem + 5) 20 (el_height elem - 10) px py
                   = false).
    { apply in_box_false in Hbox. apply in_box_false. lia. }
    now rewrite Hind.
Qed.

Lemma render_elements_lookup (fuel : nat) (fb : framebuffer_t) (px py : Z)
  (elems : list dash_element_t) :
  fb_wf fb -> 2 ^ 30 < Z.of_nat fuel ->
  0 <= px < fb_width fb -> 0 <= py < fb_height fb ->
  Forall (element_fits fb) elems ->
  forall (mem : gmap Z Z) (c : Z),
    mem !! fb_index fb px py = Some c ->
    exists mem',
      render_elements fuel fb elems mem = Some mem'
      /\ mem' !! fb_index fb px py
         = Some (fold_left
                   (fun c elem =>
                      if in_box (el_x elem) (el_y elem) (el_width elem) (el_height elem) px py
                      then element_pixel elem px py else c)
                   elems c).
Proof.
  intros Hwf Hfuel Hpx Hpy Hall.
  induction Hall as [|e elems He _ IH]; intros mem c Hc; cbn [render_elements fold_left].
  - eauto.
  - destruct (render_element_lookup fuel fb e mem px py Hwf He Hfuel Hpx Hpy)
      as (mem1 & -> & Hpix).
    apply IH. rewrite Hpix, Hc.
    now destruct (in_box (el_x e) (el_y e) (el_width e) (el_height e) px py).
Qed.

Lemma render_elements_returns (fuel : nat) (fb : framebuffer_t)
  (elems : list dash_element_t) :
  fb_wf fb -> 2 ^ 30 < Z.of_nat fuel -> Forall (element_fits fb) elems ->
  forall mem, is_Some (render_elements fuel fb elems mem).
Proof.
  intros Hwf Hfuel Hall. apply render_elements_terminates; [|assumption].
  eapply Forall_impl; [exact Hall|].
  intros e (Hx & Hy & Hxw & Hyh & Hsize) Htype. rewrite Htype in Hsize.
  destruct Hsize as (Hw & Hh & Hxw2 & Hh3).
  unfold U32.sub, U32.add.
  rewrite (u32_wrap_small (_ + _)) by (unfold U32.modulus; lia).
  rewrite u32_wrap_small by (unfold U32.modulus; lia).
  unfold U32.modulus. lia.
Qed.

Lemma render_elements_hang (fuel : nat) (fb : framebuffer_t) (elem : dash_element_t)
  (elems : list dash_element_t) :
  (forall mem, render_element fuel fb elem mem = None) ->
  elem ∈ elems -> forall mem, render_elements fuel fb elems mem = None.
Proof.
  intros Hhang. induction elems as [|e elems IH]; intros Hin mem.
  - now apply elem_of_nil in Hin.
  - cbn [render_elements]. apply elem_of_cons in Hin as [<- | Hin].
    + now rewrite Hhang.
    + destruct (render_element fuel fb e mem); [now apply IH | reflexivity].
Qed.

(** A graph whose grid line ends at [2^32 - 1] and starts at a multiple
    of 4 plus 2 is never finished, and neither is a frame that shows
    it. *)
Lemma render_graph_hangs (elem : dash_element_t) :
  0 <= el_x elem <= 2 ^ 32 - 4 -> el_x elem mod 4 = 0 ->
  U32.sub (U32.add (el_x elem) (el_width elem)) 2 = U32.modulus - 1 ->
  forall (fuel : nat) (fb : framebuffer_t) (mem : gmap Z Z),
    render_graph fuel elem fb mem = None.
Proof.
  intros Hx Hx4 Hend fuel fb mem. unfold render_graph, graph_line. rewrite Hend.
  rewrite graph_row_diverges; [reflexivity | apply u32_add_range|].
  unfold U32.add. rewrite u32_wrap_small by (unfold U32.modulus; lia).
  Z.to_euclidean_division_equations. lia.
Qed.

Lemma dashboard_render_stuck (dash : dashboard_t) (elem : dash_element_t) :
  elem ∈ shown dash -> el_type elem = DASH_ELEMENT_GRAPH ->
  0 <= el_x elem <= 2 ^ 32 - 4 -> el_x elem mod 4 = 0 ->
  U32.sub (U32.add (el_x elem) (el_width elem)) 2 = U32.modulus - 1 ->
  forall (fuel : nat) (fb : framebuffer_t) (mem : gmap Z Z),
    dashboard_render fuel dash fb mem = None.
Proof.
  intros Hin Htype Hx Hx4 Hend fuel fb mem.
  unfold dashboard_render. fold (shown dash).
  apply (render_elements_hang fuel fb elem); [|assumption].
  intros m. unfold render_element. rewrite Htype. now apply render_graph_hangs.
Qed.

(** ** Division by zero, with the sign of the zero *)

Lemma equal_finite_sub (mx mn : spec_float) :
  F32.eqb mx mn = true -> F32.is_finite mn = true ->
  F32.sub mx mn = S754_zero (negative_zero_range mx mn).
Proof.
  unfold F32.eqb, SFeqb. intros H Hfin.
  destruct (SFcompare mx mn) as [[]|] eqn:Hc; try discriminate. clear H.
  destruct mx as [sx|sx| |sx mx ex], mn as [sy|sy| |sy my ey];
    try discriminate Hfin;
    try (simpl in Hc; discriminate);
    try (simpl in Hc; destruct sx; discriminate);
    try (simpl in Hc; destruct sy; discriminate).
  - now destruct sx, sy.
  - apply compare_eq_finite in Hc as (-> & -> & ->).
    unfold F32.sub, SFsub. rewrite Z.sub_diag. reflexivity.
Qed.

Lemma equal_infinite_sub (mx mn : spec_float) :
  F32.eqb mx mn = true -> F32.is_finite mn = false -> F32.sub mx mn = S754_nan.
Proof.
  unfold F32.eqb, SFeqb. intros H Hfin.
  destruct (SFcompare mx mn) as [[]|] eqn:Hc; try discriminate. clear H.
  destruct mx as [sx|sx| |sx mx ex], mn as [sy|sy| |sy my ey];
    try discriminate Hfin;
    try (simpl in Hc; discriminate);
    try (simpl in Hc; destruct sx; discriminate);
    try (simpl in Hc; destruct sy; discriminate).
  destruct sx, sy; simpl in *; try discriminate; reflexivity.
Qed.

Lemma div_sub_by_zero (v mn : spec_float) (s : bool) :
  F32.valid v = true -> F32.valid mn = true -> F32.is_finite mn = true ->
  (F32.ltb mn v = true ->
   F32.div (F32.sub v mn) (S754_zero s) = S754_infinity s)
  /\ (F32.ltb v mn = true ->
      F32.div (F32.sub v mn) (S754_zero s) = S754_infinity (negb s))
  /\ (F32.eqb v mn = true ->
      F32.div (F32.sub v mn) (S754_zero s) = S754_nan).
Proof.
  intros Vv Vmn Fmn.
  assert (Nmn : F32.is_nan mn = false) by (destruct mn; try discriminate; reflexivity).
  pose proof (valid_binary32 _ Vmn Nmn) as Omn.
  pose proof (binary32_finite32 _ Omn Fmn) as Wmn.
  pose proof (rank_bound_fin mn Wmn) as Bmn.
  assert (Hcases : forall x, binary32 x ->
            x = S754_infinity true \/ x = S754_infinity false \/ finite32 x).
  { intros [t|[]| |t m e]; cbn; auto. }
  assert (Hpos : forall a, binary32 a -> 0 < rank a ->
            F32.div a (S754_zero s) = S754_infinity s).
  { intros [t|[]| |t m e] Ha Hr; cbn in Hr; try lia; try contradiction; try reflexivity.
    destruct t; [|reflexivity].
    pose proof (canonical32_magnitude m e Ha). cbn [cond_Zopp] in Hr. lia. }
  assert (Hneg : forall a, binary32 a -> rank a < 0 ->
            F32.div a (S754_zero s) = S754_infinity (negb s)).
  { intros [t|[]| |t m e] Ha Hr; cbn in Hr; try lia; try contradiction; try reflexivity.
    destruct t; [reflexivity|].
    pose proof (canonical32_magnitude m e Ha). cbn [cond_Zopp] in Hr. lia. }
  split; [|split].
  - intros Hlt. destruct (ltb_not_nan _ _ Hlt) as [_ Nv].
    pose proof (valid_binary32 _ Vv Nv) as Ov.
    apply (ltb_rank mn v Omn Ov) in Hlt.
    apply Hpos; [now apply sub_binary32|].
    destruct (Hcases v Ov) as [-> | [-> | Wv]].
    + cbn in Hlt. lia.
    + rewrite sub_inf by assumption. reflexivity.
    + destruct (sub_rank v mn Wv Wmn) as (_ & _ & E). rewrite E by lia.
      apply round_frac_pos. lia.
  - intros Hlt. destruct (ltb_not_nan _ _ Hlt) as [Nv _].
    pose proof (valid_binary32 _ Vv Nv) as Ov.
    apply (ltb_rank v mn Ov Omn) in Hlt.
    apply Hneg; [now apply sub_binary32|].
    destruct (Hcases v Ov) as [-> | [-> | Wv]].
    + rewrite sub_inf by assumption. reflexivity.
    + cbn in Hlt. lia.
    + change (F32.sub v mn) with (SFsub 24 128 v mn).
      destruct (SFsub_rank v mn Wv Wmn) as [_ Hnz]. rewrite Hnz by lia.
      assert (Hb : (rank v - rank mn <? 0) = true) by (apply Z.ltb_lt; lia).
      rewrite Hb, round_frac_rank_opp by lia.
      pose proof (round_frac_pos (Z.abs (rank v - rank mn)) ltac:(lia)). lia.
  - intros Heq.
    assert (Nv : F32.is_nan v = false).
    { destruct v; try reflexivity. destruct mn; discriminate Heq. }
    pose proof (valid_binary32 _ Vv Nv) as Ov.
    apply (eqb_rank v mn Ov Omn) in Heq.
    destruct (Hcases v Ov) as [-> | [-> | Wv]].
    + cbn in Heq. lia.
    + cbn in Heq. lia.
    + change (F32.sub v mn) with (SFsub 24 128 v mn).
      destruct (SFsub_rank v mn Wv Wmn) as [Hz _].
      destruct (Hz ltac:(lia)) as [t ->]. reflexivity.
Qed.

(** ** The displays and dashboards of the examples *)

Lemma fb_small_wf : fb_wf fb_small.
Proof.
  unfold fb_wf. cbn [fb_small fb_width fb_height fb_pitch].
  change (32 / 4) with 8. lia.
Qed.

Lemma fb_demo_wf : fb_wf fb_demo.
Proof.
  unfold fb_wf. cbn [fb_demo fb_width fb_height fb_pitch].
  change (64 / 4) with 16. lia.
Qed.

Lemma fb_demo_not_in_region : ~ in_region fb_demo 200.
Proof.
  intros (px & py & Hx & Hy & Heq).
  cbn [fb_demo fb_width fb_height] in Hx, Hy.
  rewrite fb_index_exact in Heq;
    cbn [fb_demo fb_pitch] in *; change (64 / 4) with 16 in *; lia.
Qed.

Lemma blank_dashboard_wf : dashboard_wf blank_dashboard.
Proof. split; [reflexivity | cbn; unfold MAX_ELEMENTS; lia]. Qed.

(** * The properties of the specification *)

(** ** C1: the gauge *)

(** (C1, as the code has it) Rendering a gauge draws the filled black
    background, the outline in the colour of the element, and the inset
    fill rectangle at [(x+2, y+2)] of height [height-4] and of width
    [clamp((value-min)/(max-min), 0, 1) * (width-4)], where every
    operation is rounded to binary32, the product is truncated to a
    [uint32_t], and [height-4] and [width-4] are taken modulo [2^32];
    when that width is 0 no fill rectangle is drawn.  For a gauge of at
    least 4 by 4 pixels inside the display the pixels are those of
    [gauge_pixel].  For the gauge at (50,50,400,60) with value 75 in
    [0, 100] the fill rectangle starts at (52,52) and is 297 pixels
    wide.  For a gauge of width 4 to [2^24 + 3] the width of the fill
    lies between 0 and [width - 4], whatever the three numbers. *)
Theorem render_gauge_spec (elem : dash_element_t) (fb : framebuffer_t) (mem : gmap Z Z) :
  render_gauge elem fb mem = run_cmds fb (spec_gauge elem) mem
  /\ (spec_fill_width elem = 0 ->
      spec_gauge elem =
        [ FilledRect (el_x elem) (el_y elem) (el_width elem) (el_height elem) COLOR_BLACK;
          OutlineRect (el_x elem) (el_y elem) (el_width elem) (el_height elem) (el_color elem) ])
  /\ (forall px py,
        fb_wf fb ->
        0 <= el_x elem -> 0 <= el_y elem -> 4 <= el_width elem -> 4 <= el_height elem ->
        el_x elem + el_width elem <= fb_width fb ->
        el_y elem + el_height elem <= fb_height fb ->
        spec_fill_width elem <= el_width elem - 4 ->
        el_x elem <= px < el_x elem + el_width elem ->
        el_y elem <= py < el_y elem + el_height elem ->
        render_gauge elem fb mem !! fb_index fb px py = Some (gauge_pixel elem px py))
  /\ spec_gauge gauge1 =
       [ FilledRect 50 50 400 60 COLOR_BLACK;
         OutlineRect 50 50 400 60 COLOR_GREEN;
         FilledRect 52 52 297 56 COLOR_GREEN ]
  /\ (F32.valid (el_value elem) = true -> F32.valid (el_min_value elem) = true ->
      F32.valid (el_max_value elem) = true ->
      4 <= el_width elem < 2 ^ 24 + 4 ->
      0 <= spec_fill_width elem <= el_width elem - 4).
Proof.
  split; [|split; [|split; [|split]]].
  - unfold render_gauge, spec_gauge, run_cmds. rewrite gauge_fill_width_spec.
    pose proof (to_u32_nonneg
                  (F32.mul
                     (clamp01 (F32.div (F32.sub (el_value elem) (el_min_value elem))
                                       (F32.sub (el_max_value elem) (el_min_value elem))))
                     (F32.of_Z (U32.sub (el_width elem) 4)))) as Hnn.
    fold (spec_fill_width elem) in Hnn.
    destruct (spec_fill_width elem =? 0) eqn:Hz.
    + apply Z.eqb_eq in Hz. rewrite Hz. reflexivity.
    + apply Z.eqb_neq in Hz.
      assert (Hpos : (0 <? spec_fill_width elem) = true) by (apply Z.ltb_lt; lia).
      rewrite Hpos. reflexivity.
  - intros Hz. unfold spec_gauge. rewrite Hz. reflexivity.
  - intros px py. apply render_gauge_pixels.
  - vm_compute. reflexivity.
  - rewrite <- gauge_fill_width_spec. apply gauge_fill_width_le.
Qed.

Lemma fb_hd_wf : fb_wf fb_hd.
Proof.
  unfold fb_wf. cbn [fb_hd fb_width fb_height fb_pitch].
  change (7680 / 4) with 1920. lia.
Qed.

Lemma render_gauge_spec_witness :
  spec_gauge (mk_element DASH_ELEMENT_GAUGE 50 50 400 60 COLOR_GREEN 0 0 100) =
    [ FilledRect 50 50 400 60 COLOR_BLACK; OutlineRect 50 50 400 60 COLOR_GREEN ]
  /\ render_gauge gauge1 fb_hd ∅ !! fb_index fb_hd 348 52 = Some COLOR_GREEN
  /\ render_gauge gauge1 fb_hd ∅ !! fb_index fb_hd 349 52 = Some COLOR_BLACK
  /\ render_gauge gauge1 fb_hd ∅ !! fb_index fb_hd 449 109 = Some COLOR_GREEN.
Proof.
  destruct (render_gauge_spec (mk_element DASH_ELEMENT_GAUGE 50 50 400 60 COLOR_GREEN 0 0 100)
              fb_hd ∅) as (_ & Hnofill & _).
  destruct (render_gauge_spec gauge1 fb_hd ∅) as (_ & _ & Hpix & _).
  assert (Hfill : spec_fill_width gauge1 <= el_width gauge1 - 4).
  { vm_compute. discriminate. }
  split; [apply Hnofill; vm_compute; reflexivity|].
  split; [|split].
  - change COLOR_GREEN with (gauge_pixel gauge1 348 52).
    apply Hpix; try exact fb_hd_wf; try exact Hfill; cbn; lia.
  - change COLOR_BLACK with (gauge_pixel gauge1 349 52).
    apply Hpix; try exact fb_hd_wf; try exact Hfill; cbn; lia.
  - change COLOR_GREEN with (gauge_pixel gauge1 449 109).
    apply Hpix; try exact fb_hd_wf; try exact Hfill; cbn; lia.
Defined.

(** (C1, counterexample) The width of the fill is not the product of
    the rule.  For the value 21 in [0, 25] and an inner width of 75 the
    product is 63, and the code draws a fill of 62: the quotient 21/25
    is rounded down to a binary32 number, and the product, just below
    63, is truncated.  For the value 1 in [0, 41] and an inner width of
    41 the product is 1, and the code draws no fill at all. *)
Lemma render_gauge_fill_below_product :
  (21 - 0) * (79 - 4) = 63 * (25 - 0)
  /\ exact_fill_width 21 0 25 79 = 63
  /\ gauge_fill_width gauge_21_of_25 = 62
  /\ (forall fb mem,
        render_gauge gauge_21_of_25 fb mem
        = run_cmds fb [ FilledRect 10 10 79 20 COLOR_BLACK;
                        OutlineRect 10 10 79 20 COLOR_GREEN;
                        FilledRect 12 12 62 16 COLOR_GREEN ] mem)
  /\ (1 - 0) * (45 - 4) = 1 * (41 - 0)
  /\ exact_fill_width 1 0 41 45 = 1
  /\ gauge_fill_width gauge_1_of_41 = 0
  /\ (forall fb mem,
        render_gauge gauge_1_of_41 fb mem
        = run_cmds fb [ FilledRect 10 10 45 20 COLOR_BLACK;
                        OutlineRect 10 10 45 20 COLOR_GREEN ] mem).
Proof.
  assert (E21 : gauge_fill_width gauge_21_of_25 = 62) by (vm_compute; reflexivity).
  assert (E1 : gauge_fill_width gauge_1_of_41 = 0) by (vm_compute; reflexivity).
  split; [reflexivity|]. split; [reflexivity|]. split; [exact E21|].
  split; [intros fb mem; unfold render_gauge; rewrite E21; reflexivity|].
  split; [reflexivity|]. split; [reflexivity|]. split; [exact E1|].
  intros fb mem. unfold render_gauge. rewrite E1. reflexivity.
Qed.

(** ** C2: the clipped pixel *)

(** (C2) [fb_draw_pixel] clips: outside [width] by [height] it changes
    nothing; inside it stores the colour at word
    [y * (pitch / 4) + x], computed in 32-bit arithmetic (so exactly
    that number whenever it fits 32 bits).  The last pixel of the region
    is written; a call at [x = width], [y = 0] leaves every word of the
    buffer as it was. *)
Theorem fb_draw_pixel_clipped (fb : framebuffer_t) (x y color : Z) (mem : gmap Z Z) :
  (fb_width fb <= x \/ fb_height fb <= y -> fb_draw_pixel fb x y color mem = mem)
  /\ (x < fb_width fb -> y < fb_height fb ->
      fb_draw_pixel fb x y color mem = <[fb_index fb x y := color]> mem
      /\ fb_index fb x y = (y * (fb_pitch fb / 4) + x) mod 2 ^ 32
      /\ (0 <= y * (fb_pitch fb / 4) + x < 2 ^ 32 ->
          fb_index fb x y = y * (fb_pitch fb / 4) + x))
  /\ (0 < fb_width fb -> 0 < fb_height fb ->
      fb_draw_pixel fb (fb_width fb - 1) (fb_height fb - 1) color mem
        !! fb_index fb (fb_width fb - 1) (fb_height fb - 1) = Some color)
  /\ fb_draw_pixel fb (fb_width fb) 0 color mem = mem.
Proof.
  split; [apply fb_draw_pixel_out|].
  split.
  { intros Hx Hy. split; [now apply fb_draw_pixel_in|].
    split; [apply fb_index_mod | apply fb_index_exact]. }
  split.
  { intros Hw Hh. rewrite fb_draw_pixel_in by lia. apply lookup_insert_eq. }
  apply fb_draw_pixel_out. lia.
Qed.

Lemma fb_draw_pixel_clipped_witness :
  fb_draw_pixel fb_small 3 2 COLOR_RED ∅ = <[19 := COLOR_RED]> ∅
  /\ fb_draw_pixel fb_small 4 0 COLOR_RED ∅ = ∅.
Proof.
  destruct (fb_draw_pixel_clipped fb_small 3 2 COLOR_RED ∅) as (_ & Hin & _ & _).
  destruct (fb_draw_pixel_clipped fb_small 4 0 COLOR_RED ∅) as (Hout & _).
  split.
  - destruct Hin as (Hw & _); [simpl; lia | simpl; lia |]. exact Hw.
  - apply Hout. left. simpl. lia.
Defined.

(** ** C3: adding an element *)

(** (C3, as the code has it) [dashboard_add_element] stores the element
    in the first free slot and counts it while fewer than 32 slots are
    in use, leaving the other slots as they were; on a dashboard with 32
    elements it returns the dashboard unchanged, elements and count, and
    nothing else: the function is [void] and the addition is dropped
    without a signal. *)
Theorem dashboard_add_element_spec (dash : dashboard_t) (element : dash_element_t) :
  dashboard_wf dash ->
  (element_count dash < 32 ->
     elements (dashboard_add_element dash element) !! Z.to_nat (element_count dash)
       = Some element
     /\ element_count (dashboard_add_element dash element) = element_count dash + 1
     /\ name (dashboard_add_element dash element) = name dash
     /\ forall i, i <> Z.to_nat (element_count dash) ->
          elements (dashboard_add_element dash element) !! i = elements dash !! i)
  /\ (32 <= element_count dash -> dashboard_add_element dash element = dash).
Proof.
  intros [Hlen Hcnt]. unfold MAX_ELEMENTS in *. unfold dashboard_add_element. split.
  - intros Hlt. apply Z.ltb_lt in Hlt as Hb. rewrite Hb. simpl.
    split; [apply list_lookup_insert_eq; lia|].
    split; [unfold U32.add; rewrite u32_wrap_small; unfold U32.modulus; lia|].
    split; [reflexivity|].
    intros i Hi. now apply list_lookup_insert_ne.
  - intros Hge. apply Z.ltb_ge in Hge. now rewrite Hge.
Qed.

Lemma full_dashboard_wf : dashboard_wf full_dashboard.
Proof. unfold dashboard_wf, MAX_ELEMENTS. split; [reflexivity | vm_compute; split; discriminate]. Qed.

Lemma dashboard_add_element_spec_witness :
  dashboard_add_element full_dashboard value1 = full_dashboard
  /\ element_count (dashboard_add_element (dashboard_init blank_dashboard []) value1) = 0 + 1.
Proof.
  split.
  - apply (dashboard_add_element_spec full_dashboard value1 full_dashboard_wf).
    vm_compute. discriminate.
  - apply (dashboard_add_element_spec (dashboard_init blank_dashboard []) value1).
    + apply dashboard_init_wf. reflexivity.
    + simpl. lia.
Defined.

(** (C3, counterexample) The 33rd addition is not rejected with a
    signal: the call has no result besides the dashboard, and the
    dashboard it returns is the one it was given. *)
Lemma dashboard_add_element_33rd_silent :
  element_count full_dashboard = 32
  /\ dashboard_add_element full_dashboard value1 = full_dashboard.
Proof. split; reflexivity. Qed.

(** ** C4: updating a value *)

(** (C4, as the code has it) [dashboard_update_value] with an index
    below the element count replaces the current value of that element
    and nothing else, and the next render draws the frame of the
    elements with the new value in place: pixel by pixel when the
    elements fit the display, a Gauge and a Value showing the new value
    in their fill and their indicator, while the value of a Label or of
    a Graph is never drawn and its update leaves the frame as it was.
    With an index at or above the count the call returns the dashboard
    unchanged and nothing else: the function is [void] and the update is
    ignored without a signal. *)
Theorem dashboard_update_value_spec
  (dash : dashboard_t) (element_id : Z) (value : spec_float) :
  dashboard_wf dash -> 0 <= element_id ->
  (element_id < element_count dash ->
     elements (dashboard_update_value dash element_id value) !! Z.to_nat element_id
       = set_value value <$> elements dash !! Z.to_nat element_id
     /\ is_Some (elements dash !! Z.to_nat element_id)
     /\ (forall i, i <> Z.to_nat element_id ->
           elements (dashboard_update_value dash element_id value) !! i = elements dash !! i)
     /\ element_count (dashboard_update_value dash element_id value) = element_count dash
     /\ name (dashboard_update_value dash element_id value) = name dash
     /\ (forall fuel fb mem,
          dashboard_render fuel (dashboard_update_value dash element_id value) fb mem
          = render_elements fuel fb
              (alter (set_value value) (Z.to_nat element_id)
                 (take (Z.to_nat (element_count dash)) (elements dash)))
              (fb_clear fb COLOR_BLACK mem))
     /\ (forall e,
           elements dash !! Z.to_nat element_id = Some e ->
           el_type e = DASH_ELEMENT_LABEL \/ el_type e = DASH_ELEMENT_GRAPH ->
           forall fuel fb mem,
             dashboard_render fuel (dashboard_update_value dash element_id value) fb mem
             = dashboard_render fuel dash fb mem)
     /\ (forall fuel fb mem,
           fb_wf fb -> 2 ^ 30 < Z.of_nat fuel ->
           Forall (element_fits fb)
             (alter (set_value value) (Z.to_nat element_id) (shown dash)) ->
           exists out,
             dashboard_render fuel (dashboard_update_value dash element_id value) fb mem
             = Some out
             /\ forall px py,
                  0 <= px < fb_width fb -> 0 <= py < fb_height fb ->
                  out !! fb_index fb px py
                  = Some (frame_pixel
                            (alter (set_value value) (Z.to_nat element_id) (shown dash))
                            px py)))
  /\ (element_count dash <= element_id ->
      dashboard_update_value dash element_id value = dash).
Proof.
  intros [Hlen Hcnt] H0. unfold MAX_ELEMENTS in *. split.
  - intros Hlt. split; [|split; [|split; [|split; [|split; [|split; [|split]]]]]].
    + unfold dashboard_update_value. apply Z.ltb_lt in Hlt as Hb. rewrite Hb. simpl.
      apply list_lookup_alter_eq.
    + apply lookup_lt_is_Some. lia.
    + intros i Hi. unfold dashboard_update_value.
      apply Z.ltb_lt in Hlt as Hb. rewrite Hb. simpl.
      apply list_lookup_alter_ne. congruence.
    + unfold dashboard_update_value. apply Z.ltb_lt in Hlt as Hb. now rewrite Hb.
    + unfold dashboard_update_value. apply Z.ltb_lt in Hlt as Hb. now rewrite Hb.
    + intros fuel fb mem. unfold dashboard_render.
      rewrite render_take_update by lia. reflexivity.
    + intros e Hlook Htype fuel fb mem. unfold dashboard_render.
      rewrite render_take_update by lia. apply render_elements_alter.
      intros e' He'. apply lookup_take_Some in He' as [He' _]. congruence.
    + intros fuel fb mem Hwf Hfuel Hfit. unfold dashboard_render.
      rewrite render_take_update by lia. fold (shown dash).
      destruct (render_elements_returns fuel fb _ Hwf Hfuel Hfit
                  (fb_clear fb COLOR_BLACK mem)) as [out Hrun].
      exists out. split; [assumption|].
      intros px py Hpx Hpy.
      destruct (render_elements_lookup fuel fb px py _ Hwf Hfuel Hpx Hpy Hfit
                  (fb_clear fb COLOR_BLACK mem) COLOR_BLACK) as (out' & Hrun' & Hpix).
      * apply fb_clear_in. now exists px, py.
      * rewrite Hrun in Hrun'. injection Hrun' as <-. exact Hpix.
  - intros Hge. unfold dashboard_update_value.
    apply Z.ltb_ge in Hge. now rewrite Hge.
Qed.

Lemma demo_dashboard_wf : dashboard_wf demo_dashboard.
Proof.
  unfold demo_dashboard.
  do 2 apply dashboard_add_element_wf. now apply dashboard_init_wf.
Qed.

Lemma demo_dashboard_updated_fits :
  Forall (element_fits fb_demo) (alter (set_value (F32.of_Z 75)) 0%nat (shown demo_dashboard)).
Proof.
  repeat constructor; try (vm_compute; reflexivity); try (cbn; lia);
    vm_compute; discriminate.
Qed.

Lemma dashboard_update_value_spec_witness :
  (elements (dashboard_update_value demo_dashboard 0 (F32.of_Z 75)) !! 0%nat
     = set_value (F32.of_Z 75) <$> elements demo_dashboard !! 0%nat)
  /\ dashboard_update_value demo_dashboard 2 (F32.of_Z 75) = demo_dashboard
  /\ dashboard_render 8 (dashboard_update_value demo_dashboard 1 (F32.of_Z 75)) fb_demo ∅
     = dashboard_render 8 demo_dashboard fb_demo ∅
  /\ exists out,
       dashboard_render (Z.to_nat (2 ^ 30 + 1))
         (dashboard_update_value demo_dashboard 0 (F32.of_Z 75)) fb_demo ∅ = Some out
       /\ out !! fb_index fb_demo 8 3 = Some COLOR_GREEN
       /\ out !! fb_index fb_demo 9 3 = Some COLOR_BLACK.
Proof.
  destruct (dashboard_update_value_spec demo_dashboard 0 (F32.of_Z 75) demo_dashboard_wf)
    as [Hin _]; [lia|].
  destruct (dashboard_update_value_spec demo_dashboard 1 (F32.of_Z 75) demo_dashboard_wf)
    as [Hgraph _]; [lia|].
  destruct (dashboard_update_value_spec demo_dashboard 2 (F32.of_Z 75) demo_dashboard_wf)
    as [_ Hout]; [lia|].
  destruct Hin as (Hnew & _ & _ & _ & _ & _ & _ & Hframe); [vm_compute; reflexivity|].
  destruct Hgraph as (_ & _ & _ & _ & _ & _ & Hsame & _); [vm_compute; reflexivity|].
  split; [exact Hnew|].
  split; [apply Hout; vm_compute; discriminate|].
  split; [apply (Hsame graph_demo); [reflexivity | right; reflexivity]|].
  destruct (Hframe (Z.to_nat (2 ^ 30 + 1)) fb_demo ∅ fb_demo_wf)
    as (out & Hrun & Hpix); [rewrite Z2Nat.id; lia | exact demo_dashboard_updated_fits|].
  exists out. split; [exact Hrun|].
  split; rewrite Hpix by (cbn; lia); vm_compute; reflexivity.
Defined.

(** (C4, counterexample) An update at the index equal to the element
    count is not rejected with a signal: the call has no result besides
    the dashboard, and the dashboard it returns is the one it was
    given. *)
Lemma dashboard_update_value_at_count_silent :
  element_count demo_dashboard = 2
  /\ dashboard_update_value demo_dashboard 2 (F32.of_Z 75) = demo_dashboard.
Proof. split; reflexivity. Qed.

(** The update of the last element shows in the next render: pixel
    (8, 3) of the gauge of [demo_dashboard] is black at value 0 and has
    the colour of the gauge at value 75. *)
Example update_reflected_in_render :
  (dashboard_render 8 demo_dashboard fb_demo ∅
     ≫= fun mem => mem !! fb_index fb_demo 8 3) = Some COLOR_BLACK
  /\ (dashboard_render 8 (dashboard_update_value demo_dashboard 0 (F32.of_Z 75)) fb_demo ∅
        ≫= fun mem => mem !! fb_index fb_demo 8 3) = Some COLOR_GREEN.
Proof. split; vm_compute; reflexivity. Qed.

(** ** C5: the degenerate range *)

(** (C5, as the code has it) With [max == min] the code still divides:
    the binary32 division by zero does not trap, and the fraction is
    plus or minus infinity or NaN, not 0.  When it is plus infinity the
    gauge draws the inset fill of fraction 1 and the Value indicator is
    red; otherwise the gauge draws no inset fill (a NaN fraction
    converts to width 0 on the ARM target) and the indicator is green.
    With [max == min] finite the difference [max - min] is the positive
    zero, and the fraction is plus infinity when the value is above
    [min], minus infinity when it is below, and NaN when it equals it;
    the one exception is [max = -0.0f] with [min = +0.0f], whose
    difference is the negative zero and which exchanges the two
    infinities.  With [max == min] infinite the fraction is NaN. *)
Theorem degenerate_range (elem : dash_element_t) :
  F32.eqb (el_max_value elem) (el_min_value elem) = true ->
  (percentage_of elem = S754_nan \/ percentage_of elem = S754_infinity false
   \/ percentage_of elem = S754_infinity true)
  /\ (percentage_of elem = S754_infinity false ->
      gauge_fill_width elem
        = F32.to_u32 (F32.mul F32.one (F32.of_Z (U32.sub (el_width elem) 4)))
      /\ indicator_color elem = COLOR_RED)
  /\ (percentage_of elem <> S754_infinity false ->
      gauge_fill_width elem = 0 /\ indicator_color elem = COLOR_GREEN)
  /\ (el_max_value elem = el_min_value elem ->
      F32.valid (el_value elem) = true ->
      F32.valid (el_min_value elem) = true ->
      F32.is_finite (el_min_value elem) = true ->
      (F32.ltb (el_min_value elem) (el_value elem) = true ->
       percentage_of elem = S754_infinity false)
      /\ (F32.ltb (el_value elem) (el_min_value elem) = true ->
          percentage_of elem = S754_infinity true)
      /\ (F32.eqb (el_value elem) (el_min_value elem) = true ->
          percentage_of elem = S754_nan))
  /\ (F32.valid (el_value elem) = true ->
      F32.valid (el_min_value elem) = true ->
      F32.is_finite (el_min_value elem) = true ->
      F32.sub (el_max_value elem) (el_min_value elem)
      = S754_zero (negative_zero_range (el_max_value elem) (el_min_value elem))
      /\ (F32.ltb (el_min_value elem) (el_value elem) = true ->
          percentage_of elem
          = S754_infinity (negative_zero_range (el_max_value elem) (el_min_value elem)))
      /\ (F32.ltb (el_value elem) (el_min_value elem) = true ->
          percentage_of elem
          = S754_infinity
              (negb (negative_zero_range (el_max_value elem) (el_min_value elem))))
      /\ (F32.eqb (el_value elem) (el_min_value elem) = true ->
          percentage_of elem = S754_nan))
  /\ (F32.is_finite (el_min_value elem) = false -> percentage_of elem = S754_nan).
Proof.
  intros Heq.
  assert (Hp : percentage_of elem = S754_nan \/ percentage_of elem = S754_infinity false
               \/ percentage_of elem = S754_infinity true).
  { unfold percentage_of. apply div_by_zero_or_nan, sub_eq_zero_or_nan, Heq. }
  split; [exact Hp|]. split; [|split; [|split; [|split]]].
  - intros Hinf. unfold gauge_fill_width, indicator_color. rewrite Hinf. split; reflexivity.
  - intros Hne. unfold gauge_fill_width, indicator_color.
    destruct Hp as [-> | [Hinf | ->]]; [|contradiction|].
    + split; reflexivity.
    + split; [|reflexivity].
      change (clamp_percentage (S754_infinity true)) with F32.zero.
      apply mul_zero_l_to_u32.
  - intros Hsame Vv Vmn Fmn. unfold percentage_of. rewrite Hsame.
    now apply degenerate_fraction_by_value.
  - intros Vv Vmn Fmn. unfold percentage_of.
    rewrite (equal_finite_sub _ _ Heq Fmn).
    split; [reflexivity|]. now apply div_sub_by_zero.
  - intros Hinf. unfold percentage_of.
    rewrite (equal_infinite_sub _ _ Heq Hinf). apply div_nan_r.
Qed.

Lemma degenerate_range_witness :
  (gauge_fill_width gauge_degenerate = 396 /\ indicator_color gauge_degenerate = COLOR_RED)
  /\ (gauge_fill_width (mk_element DASH_ELEMENT_GAUGE 50 50 400 60 COLOR_GREEN 20 50 50) = 0
      /\ indicator_color (mk_element DASH_ELEMENT_GAUGE 50 50 400 60 COLOR_GREEN 20 50 50)
         = COLOR_GREEN)
  /\ percentage_of (mk_element DASH_ELEMENT_VALUE 500 50 200 60 COLOR_CYAN 50 50 50)
     = S754_nan
  /\ percentage_of gauge_negative_zero = S754_infinity true
  /\ gauge_fill_width gauge_negative_zero = 0.
Proof.
  destruct (degenerate_range gauge_degenerate) as (_ & Hinf & _ & Hval & _);
    [vm_compute; reflexivity|].
  destruct (degenerate_range (mk_element DASH_ELEMENT_GAUGE 50 50 400 60 COLOR_GREEN 20 50 50))
    as (_ & _ & Hother & _); [vm_compute; reflexivity|].
  destruct (degenerate_range (mk_element DASH_ELEMENT_VALUE 500 50 200 60 COLOR_CYAN 50 50 50))
    as (_ & _ & _ & Hsame & _); [vm_compute; reflexivity|].
  destruct (degenerate_range gauge_negative_zero) as (_ & _ & Hempty & _ & Hsigned & _);
    [vm_compute; reflexivity|].
  destruct Hsigned as (_ & Habove & _); try (vm_compute; reflexivity).
  assert (Hneg : percentage_of gauge_negative_zero = S754_infinity true).
  { apply Habove. vm_compute. reflexivity. }
  split; [|split; [|split; [|split]]].
  - apply Hinf. apply Hval; vm_compute; reflexivity.
  - apply Hother. vm_compute. discriminate.
  - apply Hsame; vm_compute; reflexivity.
  - exact Hneg.
  - apply Hempty. rewrite Hneg. discriminate.
Defined.

(** (C5, counterexample) With [max == min] the percentage is not taken
    to be 0: a gauge with value 75 and [min = max = 50] is drawn
    completely filled, and a Value element with value 85 and
    [min = max = 50] has a red indicator. *)
Lemma degenerate_range_not_zero :
  F32.eqb (el_max_value gauge_degenerate) (el_min_value gauge_degenerate) = true
  /\ percentage_of gauge_degenerate = S754_infinity false
  /\ spec_gauge gauge_degenerate =
       [ FilledRect 50 50 400 60 COLOR_BLACK;
         OutlineRect 50 50 400 60 COLOR_GREEN;
         FilledRect 52 52 396 56 COLOR_GREEN ]
  /\ F32.eqb (el_max_value value_degenerate) (el_min_value value_degenerate) = true
  /\ indicator_color value_degenerate = COLOR_RED.
Proof. repeat split; vm_compute; reflexivity. Qed.

(** ** C6: the value indicator *)

(** (C6, as the code has it) Rendering a Value element draws the
    background, the outline and a 20-pixel-wide indicator bar at
    [(x + 5, y + 5)] whose height is [height - 10] modulo [2^32].  The
    bar is red when the fraction [(value-min)/(max-min)] is above
    [0.8f], yellow when it is above [0.6f] and at most [0.8f], and green
    when it is at most [0.6f] (60% itself is green) or is not a number.
    With value 85 in [0, 100] the indicator is red.  For a width of 1 or
    more and a height of 10 or more, with [x + width], [y + height] and
    [x + 25] at most [2^32], the bar is inset by 5 pixels at the top and
    at the bottom: it covers the columns [x + 5] to [x + 24] of the rows
    [y + 5] to [y + height - 6], past the right edge of the box when the
    box is narrower than 25.  For a height below 10, with [x + 25] and
    [y + 5] at most [2^32] and a display of at most [2^32 - 5] rows, the
    height of the bar wraps and the bar covers its columns on every row
    of the display, those from [y + height - 5] to [y + 4] apart. *)
Theorem render_value_spec (elem : dash_element_t) (fb : framebuffer_t) (mem : gmap Z Z) :
  render_value elem fb mem = run_cmds fb (spec_value code_indicator_color elem) mem
  /\ (F32.ltb F32.c0_8 (percentage_of elem) = true -> indicator_color elem = COLOR_RED)
  /\ (F32.ltb F32.c0_6 (percentage_of elem) = true ->
      F32.leb (percentage_of elem) F32.c0_8 = true -> indicator_color elem = COLOR_YELLOW)
  /\ (F32.leb (percentage_of elem) F32.c0_6 = true -> indicator_color elem = COLOR_GREEN)
  /\ (F32.is_nan (percentage_of elem) = true -> indicator_color elem = COLOR_GREEN)
  /\ indicator_color (mk_element DASH_ELEMENT_VALUE 500 50 200 60 COLOR_CYAN 85 0 100)
     = COLOR_RED
  /\ (forall px py,
        fb_wf fb -> 0 <= px < fb_width fb -> 0 <= py < fb_height fb ->
        0 <= el_x elem -> 0 <= el_y elem ->
        el_x elem + el_width elem <= 2 ^ 32 -> el_y elem + el_height elem <= 2 ^ 32 ->
        0 < el_width elem -> 10 <= el_height elem -> el_x elem + 25 <= 2 ^ 32 ->
        render_value elem fb mem !! fb_index fb px py
        = if in_box (el_x elem + 5) (el_y elem + 5) 20 (el_height elem - 10) px py
          then Some (indicator_color elem)
          else if in_box (el_x elem) (el_y elem) (el_width elem) (el_height elem) px py
               then Some (label_pixel elem px py)
               else mem !! fb_index fb px py)
  /\ (forall px py,
        fb_wf fb -> 0 <= px < fb_width fb -> 0 <= py < fb_height fb ->
        0 <= el_x elem -> 0 <= el_y elem ->
        el_x elem + 25 <= 2 ^ 32 -> el_y elem + 5 <= 2 ^ 32 -> fb_height fb <= 2 ^ 32 - 5 ->
        0 <= el_height elem < 10 ->
        el_x elem + 5 <= px < el_x elem + 25 ->
        ~ (el_y elem + el_height elem - 5 <= py < el_y elem + 5) ->
        render_value elem fb mem !! fb_index fb px py = Some (indicator_color elem)).
Proof.
  split.
  { unfold render_value, spec_value, run_cmds. simpl.
    now rewrite indicator_color_zones. }
  split.
  { intros H. unfold indicator_color. now rewrite H. }
  split.
  { intros H6 H8. unfold indicator_color. rewrite H6.
    apply leb_compare in H8. rewrite (SFcompare_antisym F32.c0_8) in H8.
    unfold F32.ltb, SFltb.
    destruct (SFcompare F32.c0_8 (percentage_of elem)) as [[]|]; simpl in H8;
      try reflexivity; destruct H8; discriminate. }
  split.
  { intros H6. rewrite indicator_color_zones. unfold code_indicator_color.
    fold (percentage_of elem). rewrite H6. now destruct (F32.is_nan _). }
  split.
  { intros Hnan. rewrite indicator_color_zones. unfold code_indicator_color.
    fold (percentage_of elem). now rewrite Hnan. }
  split.
  { vm_compute. reflexivity. }
  split.
  { intros px py Hwf Hpx Hpy Hx Hy Hxw Hyh Hw Hh Hx25.
    rewrite (render_value_lookup elem fb px py) by assumption.
    unfold value_pixel.
    destruct (in_box (el_x elem + 5) (el_y elem + 5) 20 (el_height elem - 10) px py);
      cbn [orb]; [reflexivity|].
    now destruct (in_box (el_x elem) (el_y elem) (el_width elem) (el_height elem) px py). }
  intros px py Hwf Hpx Hpy Hx Hy Hx25 Hy5 Hfh Hh Hcol Hrow.
  apply render_value_short; assumption || lia.
Qed.

Lemma render_value_spec_witness :
  indicator_color (value_at 90 100) = COLOR_RED
  /\ indicator_color (value_at 80 100) = COLOR_YELLOW
  /\ indicator_color (value_at 60 100) = COLOR_GREEN
  /\ indicator_color (value_at 0 0) = COLOR_GREEN
  /\ render_value value1 fb_hd ∅ !! fb_index fb_hd 524 55 = Some COLOR_YELLOW
  /\ render_value value1 fb_hd ∅ !! fb_index fb_hd 524 54 = Some COLOR_BLACK
  /\ render_value value_short fb_hd ∅ !! fb_index fb_hd 110 1079 = Some COLOR_YELLOW.
Proof.
  destruct (render_value_spec (value_at 90 100) fb_demo ∅) as (_ & Hred & _).
  destruct (render_value_spec (value_at 80 100) fb_demo ∅) as (_ & _ & Hyellow & _).
  destruct (render_value_spec (value_at 60 100) fb_demo ∅) as (_ & _ & _ & Hgreen & _).
  destruct (render_value_spec (value_at 0 0) fb_demo ∅) as (_ & _ & _ & _ & Hnan & _).
  destruct (render_value_spec value1 fb_hd ∅) as (_ & _ & _ & _ & _ & _ & Hbar & _).
  destruct (render_value_spec value_short fb_hd ∅) as (_ & _ & _ & _ & _ & _ & _ & Hshort).
  split; [|split; [|split; [|split; [|split; [|split]]]]].
  - apply Hred. vm_compute. reflexivity.
  - apply Hyellow; vm_compute; reflexivity.
  - apply Hgreen. vm_compute. reflexivity.
  - apply Hnan. vm_compute. reflexivity.
  - rewrite Hbar; [vm_compute; reflexivity | exact fb_hd_wf | cbn; lia ..].
  - rewrite Hbar; [vm_compute; reflexivity | exact fb_hd_wf | cbn; lia ..].
  - rewrite Hshort; [vm_compute; reflexivity | exact fb_hd_wf | cbn; lia ..].
Defined.

(** (C6, counterexample) At exactly 60% of the range the indicator is
    green, not yellow: the fraction 60/100 is [0.6f] and the code tests
    [percentage > 0.6f]. *)
Lemma render_value_60_percent_green :
  percentage_of value_at_60 = F32.c0_6
  /\ indicator_color value_at_60 = COLOR_GREEN
  /\ spec_indicator_color value_at_60 = COLOR_YELLOW
  /\ render_value value_at_60 fb_demo ∅
     <> run_cmds fb_demo (spec_value spec_indicator_color value_at_60) ∅.
Proof.
  split; [vm_compute; reflexivity|].
  split; [vm_compute; reflexivity|].
  split; [vm_compute; reflexivity|].
  intros H.
  apply (f_equal (fun m : gmap Z Z => m !! fb_index fb_demo 5 5)) in H.
  vm_compute in H. discriminate.
Qed.

(** ** C7: the clamped fraction *)

(** (C7, as the code has it) For every element with [min < max] whose
    difference [max - min] is finite in binary32 (it does not overflow),
    the clamped fraction is exactly 0 at [value = min], exactly 1 at
    [value = max], and monotonic non-decreasing in the value, whatever
    the signs of [min] and [max]. *)
Theorem clamped_fraction_monotone (elem : dash_element_t) :
  F32.valid (el_min_value elem) = true ->
  F32.valid (el_max_value elem) = true ->
  F32.ltb (el_min_value elem) (el_max_value elem) = true ->
  F32.is_finite (F32.sub (el_max_value elem) (el_min_value elem)) = true ->
  clamp_percentage (percentage_of (set_value (el_min_value elem) elem)) = F32.zero
  /\ clamp_percentage (percentage_of (set_value (el_max_value elem) elem)) = F32.one
  /\ forall v1 v2,
       F32.valid v1 = true -> F32.valid v2 = true -> F32.leb v1 v2 = true ->
       F32.leb (clamp_percentage (percentage_of (set_value v1 elem)))
               (clamp_percentage (percentage_of (set_value v2 elem))) = true.
Proof.
  intros Vmn Vmx Hlt Hfin.
  destruct (ltb_not_nan _ _ Hlt) as [Nmn Nmx].
  pose proof (valid_binary32 _ Vmn Nmn) as Omn. pose proof (valid_binary32 _ Vmx Nmx) as Omx.
  destruct (range_positive _ _ Omn Omx Hlt Hfin) as (Fmn & Fmx & md & ed & Hd & Hwf).
  unfold percentage_of. cbn [set_value el_value el_min_value el_max_value].
  rewrite Hd.
  split; [|split].
  - rewrite sub_self by assumption. reflexivity.
  - rewrite div_self. reflexivity.
  - intros v1 v2 V1 V2 Hle.
    destruct (leb_not_nan _ _ Hle) as [N1 N2].
    pose proof (valid_binary32 _ V1 N1) as O1. pose proof (valid_binary32 _ V2 N2) as O2.
    apply (leb_rank v1 v2 O1 O2) in Hle.
    pose proof (sub_binary32 v1 _ O1 Fmn) as Oa1. pose proof (sub_binary32 v2 _ O2 Fmn) as Oa2.
    destruct (div_rank _ md ed Oa1 Hwf) as [Op1 Hneg1].
    destruct (div_rank _ md ed Oa2 Hwf) as [Op2 _].
    destruct (clamp_rank _ Op1) as [Of1 R1]. destruct (clamp_rank _ Op2) as [Of2 R2].
    apply leb_rank; try assumption. rewrite R1, R2.
    pose proof rank_one_pos.
    destruct (sub_mono v1 v2 _ O1 O2 Fmn Hle) as [Hnonpos | Hpos].
    + specialize (Hneg1 Hnonpos). lia.
    + pose proof (div_mono _ _ md ed Oa1 Oa2 Hwf Hpos). lia.
Qed.

Lemma clamped_fraction_monotone_witness :
  clamp_percentage (percentage_of (set_value (F32.of_Z (-15)) gauge_boost)) = F32.zero
  /\ clamp_percentage (percentage_of (set_value (F32.of_Z 30) gauge_boost)) = F32.one
  /\ F32.leb (clamp_percentage (percentage_of (set_value (F32.of_Z (-20)) gauge_boost)))
             (clamp_percentage (percentage_of (set_value (F32.of_Z 10) gauge_boost))) = true.
Proof.
  destruct (clamped_fraction_monotone gauge_boost) as (H0 & H1 & Hmono);
    try (vm_compute; reflexivity).
  split; [exact H0|]. split; [exact H1|].
  apply Hmono; vm_compute; reflexivity.
Defined.

(** (C7, counterexample) With [min = -FLT_MAX] and [max = FLT_MAX] both
    differences overflow to infinity at [value = max]: the fraction is
    NaN, which the clamp leaves, and not 1. *)
Lemma clamped_fraction_overflow :
  F32.ltb (el_min_value gauge_overflow) (el_max_value gauge_overflow) = true
  /\ el_value gauge_overflow = el_max_value gauge_overflow
  /\ clamp_percentage (percentage_of gauge_overflow) = S754_nan
  /\ clamp_percentage (percentage_of gauge_overflow) <> F32.one.
Proof. repeat split; try (vm_compute; reflexivity). vm_compute. discriminate. Qed.

(** ** C8: rendering twice *)

(** (C8, as the code has it) When a call of [dashboard_render] returns,
    a second call in succession leaves the pixel memory the first left:
    every call clears the region and redraws the elements in order, so a
    second call overwrites the same words with the same colours.  A call
    returns when every grid loop terminates, which [graph_ok] ensures:
    the end of the grid lines of every Graph shown, [x + width - 2]
    modulo [2^32], is at most [2^32 - 4]. *)
Theorem dashboard_render_idempotent
  (fuel : nat) (dash : dashboard_t) (fb : framebuffer_t) (mem : gmap Z Z) :
  (forall mem1, dashboard_render fuel dash fb mem = Some mem1 ->
                dashboard_render fuel dash fb mem1 = Some mem1)
  /\ (Forall graph_ok (take (Z.to_nat (element_count dash)) (elements dash)) ->
      2 ^ 30 < Z.of_nat fuel ->
      is_Some (dashboard_render fuel dash fb mem)).
Proof.
  split.
  - intros mem1. apply paints_opt_idempotent, paints_opt_dashboard_render.
  - intros Hok Hfuel. unfold dashboard_render. now apply render_elements_terminates.
Qed.

Lemma demo_dashboard_graph_ok :
  Forall graph_ok (take (Z.to_nat (element_count demo_dashboard)) (elements demo_dashboard)).
Proof.
  repeat constructor; intros _; vm_compute; discriminate.
Qed.

Lemma dashboard_render_idempotent_witness :
  dashboard_render 8 demo_dashboard fb_demo
    (default ∅ (dashboard_render 8 demo_dashboard fb_demo ∅))
  = Some (default ∅ (dashboard_render 8 demo_dashboard fb_demo ∅))
  /\ is_Some (dashboard_render (Z.to_nat (2 ^ 30 + 1)) demo_dashboard fb_demo ∅).
Proof.
  split.
  - apply (dashboard_render_idempotent 8 demo_dashboard fb_demo ∅).
    vm_compute. reflexivity.
  - apply (dashboard_render_idempotent (Z.to_nat (2 ^ 30 + 1)) demo_dashboard fb_demo ∅).
    + exact demo_dashboard_graph_ok.
    + rewrite Z2Nat.id; lia.
Defined.

(** (C8, counterexample) Not every dashboard has a frame to compare.
    The dashboard that shows one Graph at [x = 0] of width 1 is a sound
    dashboard, its graph is not [graph_ok], and [dashboard_render] does
    not return for it on any display, from any pixel memory, however
    many turns its loops are allowed: there is neither a first nor a
    second frame. *)
Lemma dashboard_render_no_frame :
  dashboard_wf (dashboard_add_element (dashboard_init blank_dashboard kernel_name) graph_thin)
  /\ shown (dashboard_add_element (dashboard_init blank_dashboard kernel_name) graph_thin)
     = [graph_thin]
  /\ ~ graph_ok graph_thin
  /\ forall (fuel : nat) (fb : framebuffer_t) (mem : gmap Z Z),
       dashboard_render fuel
         (dashboard_add_element (dashboard_init blank_dashboard kernel_name) graph_thin)
         fb mem = None.
Proof.
  split.
  { apply dashboard_add_element_wf, dashboard_init_wf. reflexivity. }
  split; [reflexivity|].
  split.
  { intros Hok. specialize (Hok eq_refl). vm_compute in Hok. now apply Hok. }
  apply (dashboard_render_stuck _ graph_thin).
  - apply (list_elem_of_lookup_2 _ 0%nat). reflexivity.
  - reflexivity.
  - cbn. lia.
  - reflexivity.
  - vm_compute. reflexivity.
Qed.

(** ** C9: framebuffer negotiation *)

Section MailboxProperties.

Context (device : Type).
Context (dev_read : Z -> device * list Z -> Z * (device * list Z)).
Context (dev_write : Z -> Z -> device * list Z -> device * list Z).
Context (mailbox_addr : Z).

Local Abbreviation wait_response' := (wait_response device dev_read).
Local Abbreviation mailbox_call' := (mailbox_call device dev_read dev_write mailbox_addr).
Local Abbreviation fb_init' := (fb_init device dev_read dev_write mailbox_addr).

(** The result of the call is the test of word 1, read after the
    matching response. *)
Lemma wait_response_result (inner : nat) (r : Z) (fuel : nat) :
  forall w ack w',
    wait_response' fuel inner r w = Some (ack, w') ->
    ack = (word (snd w') 1 =? MAILBOX_RESPONSE_OK).
Proof.
  induction fuel as [|fuel IH]; intros w ack w' H; simpl in H; [discriminate|].
  destruct (wait_while device dev_read inner MAILBOX_EMPTY w) as [w1|]; [|discriminate].
  destruct (mmio_read device dev_read MAILBOX_READ w1) as [v w2].
  destruct (r =? v).
  - now injection H as <- <-.
  - eauto.
Qed.

Lemma mailbox_call_result (fuel : nat) (channel : Z) (w : device * list Z)
  (ack : bool) (w' : device * list Z) :
  mailbox_call' fuel channel w = Some (ack, w') ->
  ack = (word (snd w') 1 =? MAILBOX_RESPONSE_OK).
Proof.
  unfold mailbox_call. intros H.
  destruct (wait_while device dev_read fuel MAILBOX_FULL w) as [w1|]; [|discriminate].
  eapply wait_response_result, H.
Qed.



End MailboxProperties.



(** A firmware that does not acknowledge makes [fb_init] fail. *)
Example fb_init_nak_fails :
  exists w',
    fb_init Z fw_read fw_write_nak 0x80010 3 fb0 1920 1080 (0, replicate 36 0)
    = Some (-1, fb0, w').
Proof. eexists. vm_compute. reflexivity. Qed.

(** ** C10: the rectangle primitives *)

(** (C10) Whatever the arguments (zero extents, sums that wrap at
    [2^32]), the two rectangle primitives change no word of the buffer
    other than those of pixels with [x < width] and [y < height]. *)
Theorem rect_primitives_stay_in_region
  (fb : framebuffer_t) (x y w h color : Z) (mem : gmap Z Z) (i : Z) :
  U32.in_range x -> U32.in_range y -> ~ in_region fb i ->
  fb_draw_rect fb x y w h color mem !! i = mem !! i
  /\ fb_draw_filled_rect fb x y w h color mem !! i = mem !! i.
Proof.
  intros [Hx _] [Hy _] Hi. split.
  - now apply fb_draw_rect_frame.
  - now apply fb_draw_filled_rect_frame.
Qed.

Lemma fb_small_not_in_region : ~ in_region fb_small 5.
Proof.
  intros (px & py & Hx & Hy & Heq).
  cbn [fb_small fb_width fb_height] in Hx, Hy.
  rewrite fb_index_exact in Heq;
    cbn [fb_small fb_pitch] in *; change (32 / 4) with 8 in *; lia.
Qed.

Lemma rect_primitives_stay_in_region_witness :
  fb_draw_rect fb_small 4294967295 2 3 4294967295 COLOR_RED ∅ !! 5 = (∅ : gmap Z Z) !! 5
  /\ fb_draw_filled_rect fb_small 4294967295 2 3 4294967295 COLOR_RED ∅ !! 5 = (∅ : gmap Z Z) !! 5.
Proof.
  apply rect_primitives_stay_in_region.
  - unfold U32.in_range, U32.modulus. lia.
  - unfold U32.in_range, U32.modulus. lia.
  - exact fb_small_not_in_region.
Defined.

(** * The rest of the code: properties *)

(** ** framebuffer.c: clearing and rectangles *)

(** (X1) [fb_clear] gives its colour to every pixel of the region,
    whatever the pitch, and changes no other word of the buffer. *)
Theorem fb_clear_pixels (fb : framebuffer_t) (color : Z) (mem : gmap Z Z) :
  (forall px py,
      0 <= px < fb_width fb -> 0 <= py < fb_height fb ->
      fb_clear fb color mem !! fb_index fb px py = Some color)
  /\ (forall i, ~ in_region fb i -> fb_clear fb color mem !! i = mem !! i).
Proof.
  split.
  - intros px py Hx Hy. apply fb_clear_in. now exists px, py.
  - intros i. apply fb_clear_frame.
Qed.

Lemma fb_clear_pixels_witness :
  fb_clear fb_small COLOR_RED ∅ !! fb_index fb_small 3 2 = Some COLOR_RED
  /\ fb_clear fb_small COLOR_RED ∅ !! 5 = (∅ : gmap Z Z) !! 5.
Proof.
  destruct (fb_clear_pixels fb_small COLOR_RED ∅) as [Hin Hout]. split.
  - apply Hin; cbn; lia.
  - apply Hout. exact fb_small_not_in_region.
Defined.

(** (X2) Clearing is filling the rectangle of the whole region: for a
    width and a height that are [uint32_t] values, [fb_clear] and
    [fb_draw_filled_rect] at the origin give the same buffer. *)
Theorem fb_clear_is_filled_rect (fb : framebuffer_t) (color : Z) (mem : gmap Z Z) :
  fb_width fb <= U32.modulus -> fb_height fb <= U32.modulus ->
  fb_clear fb color mem
  = fb_draw_filled_rect fb 0 0 (fb_width fb) (fb_height fb) color mem.
Proof.
  intros Hw Hh. unfold fb_clear, fb_draw_filled_rect.
  apply for_u32_ext. intros j m Hj. apply for_u32_ext. intros i m' Hi.
  unfold U32.add. rewrite !Z.add_0_l, !u32_wrap_small by lia.
  symmetry. apply fb_draw_pixel_in; lia.
Qed.

Lemma fb_clear_is_filled_rect_witness :
  fb_clear fb_small COLOR_BLUE ∅
  = fb_draw_filled_rect fb_small 0 0 (fb_width fb_small) (fb_height fb_small) COLOR_BLUE ∅.
Proof.
  apply (fb_clear_is_filled_rect fb_small COLOR_BLUE ∅); vm_compute; discriminate.
Defined.

(** (X3) [fb_draw_filled_rect], pixel by pixel.  A pixel of the region
    takes the colour exactly when its offsets from [(x, y)], taken
    modulo [2^32], are below [w] and [h]; every other pixel keeps its
    colour.  When [x + w] and [y + h] do not pass [2^32] these are the
    pixels of the rectangle, the part outside the region being cut
    off. *)
Theorem fb_draw_filled_rect_pixels
  (fb : framebuffer_t) (x y w h color : Z) (mem : gmap Z Z) (px py : Z) :
  fb_wf fb -> 0 <= px < fb_width fb -> 0 <= py < fb_height fb ->
  fb_draw_filled_rect fb x y w h color mem !! fb_index fb px py
  = (if fill_hit x y w h px py then Some color else mem !! fb_index fb px py)
  /\ (0 <= x -> 0 <= y -> x + w <= 2 ^ 32 -> y + h <= 2 ^ 32 ->
      fill_hit x y w h px py = in_box x y w h px py).
Proof.
  intros Hwf Hpx Hpy. split.
  - now apply fb_draw_filled_rect_lookup.
  - intros Hx Hy Hxw Hyh. destruct (fb_wf_bounds fb px py Hwf Hpx Hpy).
    apply fill_hit_nowrap; lia.
Qed.

Lemma fb_draw_filled_rect_pixels_witness :
  fb_draw_filled_rect fb_small 2 1 5 5 COLOR_RED ∅ !! fb_index fb_small 3 2
  = (if fill_hit 2 1 5 5 3 2 then Some COLOR_RED else (∅ : gmap Z Z) !! fb_index fb_small 3 2)
  /\ fill_hit 2 1 5 5 3 2 = in_box 2 1 5 5 3 2
  /\ fill_hit 4294967295 0 3 1 1 0 = true.
Proof.
  destruct (fb_draw_filled_rect_pixels fb_small 2 1 5 5 COLOR_RED ∅ 3 2)
    as [Hpix Hbox]; [exact fb_small_wf | cbn; lia | cbn; lia |].
  split; [exact Hpix|]. split; [apply Hbox; lia | reflexivity].
Defined.

(** (X4) [fb_draw_rect], pixel by pixel.  The two loops draw the rows
    [y] and [y + h - 1] over [w] columns and the columns [x] and
    [x + w - 1] over [h] rows, all sums modulo [2^32]; for a rectangle
    of at least one pixel that does not pass [2^32] these are the
    pixels of its border, and the interior is left as it was. *)
Theorem fb_draw_rect_pixels
  (fb : framebuffer_t) (x y w h color : Z) (mem : gmap Z Z) (px py : Z) :
  fb_wf fb -> 0 <= px < fb_width fb -> 0 <= py < fb_height fb -> 0 <= x -> 0 <= y ->
  fb_draw_rect fb x y w h color mem !! fb_index fb px py
  = (if outline_hit x y w h px py then Some color else mem !! fb_index fb px py)
  /\ (0 < w -> 0 < h -> x + w <= 2 ^ 32 -> y + h <= 2 ^ 32 ->
      outline_hit x y w h px py = on_border x y w h px py).
Proof.
  intros Hwf Hpx Hpy Hx Hy. split.
  - now apply fb_draw_rect_lookup.
  - intros Hw Hh Hxw Hyh. destruct (fb_wf_bounds fb px py Hwf Hpx Hpy).
    apply outline_hit_nowrap; lia.
Qed.

Lemma fb_draw_rect_pixels_witness :
  fb_draw_rect fb_small 0 0 4 3 COLOR_RED ∅ !! fb_index fb_small 1 1
  = (if outline_hit 0 0 4 3 1 1 then Some COLOR_RED else (∅ : gmap Z Z) !! fb_index fb_small 1 1)
  /\ outline_hit 0 0 4 3 1 1 = on_border 0 0 4 3 1 1
  /\ on_border 0 0 4 3 1 1 = false /\ on_border 0 0 4 3 3 1 = true.
Proof.
  destruct (fb_draw_rect_pixels fb_small 0 0 4 3 COLOR_RED ∅ 1 1)
    as [Hpix Hbox]; [exact fb_small_wf | cbn; lia | cbn; lia | lia | lia |].
  split; [exact Hpix|]. split; [apply Hbox; lia | split; reflexivity].
Defined.

(** (X5) An outline of width 0 is empty only if its height is 0 as
    well.  With [w = 0] and [h > 0] the second loop still runs, and
    draws the column [x + w - 1 = x - 1], to the left of the
    rectangle. *)
Theorem fb_draw_rect_zero_width
  (fb : framebuffer_t) (x y h color : Z) (mem : gmap Z Z) (py : Z) :
  fb_draw_rect fb x y 0 0 color mem = mem
  /\ (fb_wf fb -> 1 <= x <= fb_width fb -> x < 2 ^ 32 -> 0 <= y ->
      y <= py < y + h -> py < fb_height fb ->
      fb_draw_rect fb x y 0 h color mem !! fb_index fb (x - 1) py = Some color).
Proof.
  split; [reflexivity|].
  intros Hwf Hx Hx32 Hy Hpy Hfh.
  destruct (fb_wf_bounds fb (x - 1) py Hwf ltac:(lia) ltac:(lia)) as [Hw32 Hh32].
  rewrite fb_draw_rect_lookup by (assumption || lia).
  assert (Hhit : outline_hit x y 0 h (x - 1) py = true).
  { unfold outline_hit. apply orb_true_iff. right.
    apply andb_true_iff. split.
    - apply Z.ltb_lt. unfold U32.sub. rewrite u32_wrap_small by (unfold U32.modulus; lia). lia.
    - apply orb_true_iff. right. apply Z.eqb_eq.
      unfold U32.sub, U32.add. rewrite Z.add_0_r.
      rewrite (u32_wrap_small x) by (unfold U32.modulus; lia).
      rewrite u32_wrap_small by (unfold U32.modulus; lia). reflexivity. }
  now rewrite Hhit.
Qed.

Lemma fb_draw_rect_zero_width_witness :
  fb_draw_rect fb_small 2 0 0 0 COLOR_RED ∅ = ∅
  /\ fb_draw_rect fb_small 2 0 0 3 COLOR_RED ∅ !! fb_index fb_small (2 - 1) 1 = Some COLOR_RED.
Proof.
  destruct (fb_draw_rect_zero_width fb_small 2 0 0 COLOR_RED ∅ 0) as [Hnone _].
  destruct (fb_draw_rect_zero_width fb_small 2 0 3 COLOR_RED ∅ 1) as [_ Hcol].
  split; [exact Hnone|].
  apply Hcol; [exact fb_small_wf | cbn; lia | lia | lia | lia | cbn; lia].
Defined.

(** (X6) [RGB] packs three 8-bit channels into the low 24 bits of a
    word, red uppermost, and each channel is read back by a shift and a
    mask. *)
Theorem RGB_channels (r g b : Z) :
  0 <= r < 256 -> 0 <= g < 256 -> 0 <= b < 256 ->
  0 <= RGB r g b < 2 ^ 24
  /\ Z.land (Z.shiftr (RGB r g b) 16) 255 = r
  /\ Z.land (Z.shiftr (RGB r g b) 8) 255 = g
  /\ Z.land (RGB r g b) 255 = b.
Proof.
  intros Hr Hg Hb. rewrite RGB_sum by assumption.
  change 255 with (Z.ones 8). rewrite !Z.land_ones, !Z.shiftr_div_pow2 by lia.
  change (2 ^ 16) with 65536. change (2 ^ 8) with 256. change (2 ^ 24) with 16777216.
  repeat split; try lia; Z.to_euclidean_division_equations; lia.
Qed.

Lemma RGB_channels_witness :
  0 <= RGB 255 128 0 < 2 ^ 24
  /\ Z.land (Z.shiftr (RGB 255 128 0) 16) 255 = 255
  /\ Z.land (Z.shiftr (RGB 255 128 0) 8) 255 = 128
  /\ Z.land (RGB 255 128 0) 255 = 0.
Proof. apply (RGB_channels 255 128 0); lia. Defined.

(** ** framebuffer.c: the mailbox *)

(** (X7) The mailbox call has no time-out.  When the status register
    never stops reading as full, or never stops reading as empty, or no
    response carries the word of the request, [mailbox_call] does not
    return, however many times its loops are allowed to turn, and
    [fb_init] does not return either. *)
Theorem fb_init_no_timeout
  (device : Type) (dev_read : Z -> device * list Z -> Z * (device * list Z))
  (dev_write : Z -> Z -> device * list Z -> device * list Z) (mailbox_addr : Z) :
  (forall w, Z.land (fst (dev_read MAILBOX_STATUS w)) MAILBOX_FULL <> 0)
  \/ (forall w, Z.land (fst (dev_read MAILBOX_STATUS w)) MAILBOX_EMPTY <> 0)
  \/ (forall w, fst (dev_read MAILBOX_READ w)
                <> Z.lor (Z.land (U32.wrap mailbox_addr) 0xFFFFFFF0)
                         (Z.land MAILBOX_CH_PROP 0xF)) ->
  forall fuel fb width height w,
    mailbox_call device dev_read dev_write mailbox_addr fuel MAILBOX_CH_PROP w = None
    /\ fb_init device dev_read dev_write mailbox_addr fuel fb width height w = None.
Proof.
  intros Hdev fuel fb width height w. split.
  - now apply mailbox_call_unanswered.
  - unfold fb_init. now rewrite mailbox_call_unanswered.
Qed.

Lemma fb_init_no_timeout_witness :
  mailbox_call unit stuck_read stuck_write 0x80010 1000 MAILBOX_CH_PROP (tt, replicate 36 0)
  = None
  /\ fb_init unit stuck_read stuck_write 0x80010 1000 fb0 1920 1080 (tt, replicate 36 0) = None.
Proof.
  apply (fb_init_no_timeout unit stuck_read stuck_write 0x80010).
  left. intros w. vm_compute. discriminate.
Defined.

(** ** dashboard.c: the name and the collection *)

(** (X8) [str_copy] with a buffer of [max_len >= 1] bytes writes a
    prefix of the source without a NUL in it, of at most [max_len - 1]
    characters (the terminating NUL fits); it stops short of that only
    at the end of the source or at its first NUL. *)
Theorem str_copy_spec (src : list Z) (max_len : Z) :
  1 <= max_len < U32.modulus ->
  str_copy src max_len `prefix_of` src
  /\ Forall (fun c => c <> 0) (str_copy src max_len)
  /\ Z.of_nat (length (str_copy src max_len)) <= max_len - 1
  /\ (Z.of_nat (length (str_copy src max_len)) < max_len - 1 ->
      str_copy src max_len = src
      \/ exists rest, src = str_copy src max_len ++ 0 :: rest).
Proof.
  intros Hmax. pose proof (str_copy_bound max_len Hmax) as Hn. unfold str_copy.
  split; [apply str_copy_loop_prefix|].
  split; [apply str_copy_loop_no_nul|].
  pose proof (str_copy_loop_length (Z.to_nat (U32.sub max_len 1)) src).
  split; [lia|].
  intros Hlt. apply str_copy_loop_stop. lia.
Qed.

Lemma str_copy_spec_witness :
  str_copy [72; 105; 33; 0; 88] 3 `prefix_of` [72; 105; 33; 0; 88]
  /\ Forall (fun c => c <> 0) (str_copy [72; 105; 33; 0; 88] 3)
  /\ Z.of_nat (length (str_copy [72; 105; 33; 0; 88] 3)) <= 3 - 1
  /\ (Z.of_nat (length (str_copy [72; 105; 33; 0; 88] 3)) < 3 - 1 ->
      str_copy [72; 105; 33; 0; 88] 3 = [72; 105; 33; 0; 88]
      \/ exists rest, [72; 105; 33; 0; 88] = str_copy [72; 105; 33; 0; 88] 3 ++ 0 :: rest).
Proof.
  apply (str_copy_spec [72; 105; 33; 0; 88] 3). unfold U32.modulus. lia.
Defined.

(** (X9) With [max_len = 0] the bound [max_len - 1] wraps to
    [2^32 - 1]: [str_copy] then copies the whole source, whatever its
    length, into a buffer said to hold no byte. *)
Theorem str_copy_zero_max_len (src : list Z) :
  Forall (fun c => c <> 0) src -> Z.of_nat (length src) < U32.modulus ->
  str_copy src 0 = src.
Proof.
  intros Hnz Hlen. unfold str_copy. apply str_copy_loop_all; [assumption|].
  change (U32.sub 0 1) with 4294967295. unfold U32.modulus in Hlen. lia.
Qed.

Lemma str_copy_zero_max_len_witness : str_copy [72; 105; 33] 0 = [72; 105; 33].
Proof.
  apply (str_copy_zero_max_len [72; 105; 33]).
  - repeat constructor; discriminate.
  - vm_compute. reflexivity.
Defined.

(** (X10) [dashboard_init] empties the dashboard without touching its
    slots: the count is 0, the name is at most 127 characters of the
    argument, none of them NUL, and a render that follows only clears
    the display, whatever the slots hold. *)
Theorem dashboard_init_empties
  (dash : dashboard_t) (nm : list Z) (fuel : nat) (fb : framebuffer_t) (mem : gmap Z Z) :
  element_count (dashboard_init dash nm) = 0
  /\ elements (dashboard_init dash nm) = elements dash
  /\ name (dashboard_init dash nm) `prefix_of` nm
  /\ Z.of_nat (length (name (dashboard_init dash nm))) <= 127
  /\ Forall (fun c => c <> 0) (name (dashboard_init dash nm))
  /\ dashboard_render fuel (dashboard_init dash nm) fb mem = Some (fb_clear fb COLOR_BLACK mem).
Proof.
  cbn [dashboard_init element_count elements name]. unfold str_copy.
  pose proof (str_copy_loop_length (Z.to_nat (U32.sub 128 1)) nm) as Hlen.
  change (Z.to_nat (U32.sub 128 1)) with 127%nat in *.
  repeat split; try reflexivity.
  - apply str_copy_loop_prefix.
  - lia.
  - apply str_copy_loop_no_nul.
Qed.

(** (X11) Elements are kept in the order of their addition, and the
    additions after the 32nd are dropped: after [dashboard_init] and a
    sequence of additions the dashboard shows the first 32 elements of
    the sequence. *)
Theorem dashboard_add_elements_in_order
  (dash : dashboard_t) (nm : list Z) (es : list dash_element_t) :
  length (elements dash) = 32%nat ->
  shown (fold_left dashboard_add_element es (dashboard_init dash nm)) = take 32 es.
Proof.
  intros Hlen. rewrite shown_adds by now apply dashboard_init_wf. reflexivity.
Qed.

Lemma dashboard_add_elements_in_order_witness :
  shown (fold_left dashboard_add_element [gauge1; value1; gauge2]
           (dashboard_init blank_dashboard kernel_name))
  = take 32 [gauge1; value1; gauge2].
Proof.
  apply (dashboard_add_elements_in_order blank_dashboard kernel_name [gauge1; value1; gauge2]).
  reflexivity.
Defined.

(** (X12) Updates compose as assignments: of two updates of the same
    element the later one wins, and updates of different elements can be
    exchanged. *)
Theorem dashboard_update_value_compose
  (dash : dashboard_t) (id1 id2 : Z) (v1 v2 : spec_float) :
  dashboard_update_value (dashboard_update_value dash id1 v1) id1 v2
  = dashboard_update_value dash id1 v2
  /\ (0 <= id1 -> 0 <= id2 -> id1 <> id2 ->
      dashboard_update_value (dashboard_update_value dash id1 v1) id2 v2
      = dashboard_update_value (dashboard_update_value dash id2 v2) id1 v1).
Proof.
  split; [apply update_last_wins | apply update_commute].
Qed.

Lemma dashboard_update_value_compose_witness :
  dashboard_update_value (dashboard_update_value demo_dashboard 0 F32.one) 0 F32.c0_5
  = dashboard_update_value demo_dashboard 0 F32.c0_5
  /\ dashboard_update_value (dashboard_update_value demo_dashboard 0 F32.one) 1 F32.c0_5
     = dashboard_update_value (dashboard_update_value demo_dashboard 1 F32.c0_5) 0 F32.one.
Proof.
  destruct (dashboard_update_value_compose demo_dashboard 0 1 F32.one F32.c0_5) as [Hlast Hcomm].
  split; [exact Hlast | apply Hcomm; lia].
Defined.

(** (X13) The calls of the interface keep the dashboard object sound:
    after any sequence of initialisations, additions, updates and loads
    there are still 32 slots and a count of at most 32, and the
    elements shown are as many as the count says. *)
Theorem dashboard_calls_keep_invariant (dash : dashboard_t) (cs : list dash_call) :
  dashboard_wf dash ->
  dashboard_wf (run_calls dash cs)
  /\ length (shown (run_calls dash cs)) = Z.to_nat (element_count (run_calls dash cs))
  /\ (length (shown (run_calls dash cs)) <= 32)%nat.
Proof.
  intros Hwf. pose proof (run_calls_wf cs dash Hwf) as Hwf'.
  split; [assumption|]. rewrite shown_length by assumption.
  split; [reflexivity|]. destruct Hwf' as [_ Hcnt]. unfold MAX_ELEMENTS in Hcnt. lia.
Qed.

Lemma dashboard_calls_keep_invariant_witness :
  dashboard_wf (run_calls blank_dashboard
                  [CallUpdate 40 F32.one; CallInit kernel_name; CallAdd gauge1;
                   CallLoad []; CallUpdate 0 F32.c0_5])
  /\ length (shown (run_calls blank_dashboard
                      [CallUpdate 40 F32.one; CallInit kernel_name; CallAdd gauge1;
                       CallLoad []; CallUpdate 0 F32.c0_5]))
     = Z.to_nat (element_count
                   (run_calls blank_dashboard
                      [CallUpdate 40 F32.one; CallInit kernel_name; CallAdd gauge1;
                       CallLoad []; CallUpdate 0 F32.c0_5]))
  /\ (length (shown (run_calls blank_dashboard
                       [CallUpdate 40 F32.one; CallInit kernel_name; CallAdd gauge1;
                        CallLoad []; CallUpdate 0 F32.c0_5])) <= 32)%nat.
Proof.
  apply (dashboard_calls_keep_invariant blank_dashboard). exact blank_dashboard_wf.
Defined.

(** (X14) The value of a Label or of a Graph is not drawn: updating it
    changes nothing of what [dashboard_render] produces. *)
Theorem update_of_label_or_graph_not_rendered
  (fuel : nat) (dash : dashboard_t) (element_id : Z) (value : spec_float)
  (fb : framebuffer_t) (mem : gmap Z Z) (e : dash_element_t) :
  0 <= element_id -> elements dash !! Z.to_nat element_id = Some e ->
  el_type e = DASH_ELEMENT_LABEL \/ el_type e = DASH_ELEMENT_GRAPH ->
  dashboard_render fuel (dashboard_update_value dash element_id value) fb mem
  = dashboard_render fuel dash fb mem.
Proof.
  intros Hid Hlook Htype. unfold dashboard_render.
  destruct (Z.ltb_spec element_id (element_count dash)) as [Hlt | Hge].
  - rewrite render_take_update by lia. apply render_elements_alter.
    intros e' He'. apply lookup_take_Some in He' as [He' _]. congruence.
  - unfold dashboard_update_value. apply Z.ltb_ge in Hge. now rewrite Hge.
Qed.

Lemma update_of_label_or_graph_not_rendered_witness :
  dashboard_render 8 (dashboard_update_value demo_dashboard 1 F32.one) fb_demo ∅
  = dashboard_render 8 demo_dashboard fb_demo ∅.
Proof.
  apply (update_of_label_or_graph_not_rendered 8 demo_dashboard 1 F32.one fb_demo ∅ graph_demo).
  - lia.
  - reflexivity.
  - right. reflexivity.
Defined.

(** ** dashboard.c: the pixels of the elements *)



(** (X16) A Value of width 1 or more and of height 10 or more, whose
    box and bar end within the 32-bit range ([x + width], [y + height]
    and [x + 25] at most [2^32]), is the box of a Label with the
    indicator bar on top: 20 pixels wide from [x + 5], from the row
    [y + 5] to the row [y + height - 6], in the colour the fraction
    selects.  The bar is not cut at the right edge of the box, and the
    pixels of the display outside the box and the bar keep their
    colour. *)
Theorem render_value_pixels
  (elem : dash_element_t) (fb : framebuffer_t) (px py : Z) (mem : gmap Z Z) :
  fb_wf fb -> 0 <= px < fb_width fb -> 0 <= py < fb_height fb ->
  0 <= el_x elem -> 0 <= el_y elem ->
  el_x elem + el_width elem <= 2 ^ 32 -> el_y elem + el_height elem <= 2 ^ 32 ->
  0 < el_width elem -> 10 <= el_height elem -> el_x elem + 25 <= 2 ^ 32 ->
  render_value elem fb mem !! fb_index fb px py
  = if in_box (el_x elem + 5) (el_y elem + 5) 20 (el_height elem - 10) px py
       || in_box (el_x elem) (el_y elem) (el_width elem) (el_height elem) px py
    then Some (value_pixel elem px py)
    else mem !! fb_index fb px py.
Proof. intros. apply render_value_lookup; assumption. Qed.

Lemma render_value_pixels_witness :
  render_value value1 fb_hd ∅ !! fb_index fb_hd 505 55 = Some COLOR_YELLOW
  /\ render_value value1 fb_hd ∅ !! fb_index fb_hd 525 55 = Some COLOR_BLACK
  /\ render_value value1 fb_hd ∅ !! fb_index fb_hd 500 55 = Some COLOR_CYAN.
Proof.
  split; [|split].
  - rewrite (render_value_pixels value1 fb_hd 505 55 ∅);
      [vm_compute; reflexivity | exact fb_hd_wf | cbn; lia ..].
  - rewrite (render_value_pixels value1 fb_hd 525 55 ∅);
      [vm_compute; reflexivity | exact fb_hd_wf | cbn; lia ..].
  - rewrite (render_value_pixels value1 fb_hd 500 55 ∅);
      [vm_compute; reflexivity | exact fb_hd_wf | cbn; lia ..].
Defined.

(** (X17) A Value of height below 10 is drawn outside its box: the
    height of the bar, [height - 10], wraps to almost [2^32], and the
    bar covers its 20 columns over every row of the display, the rows
    from [y + height - 5] to [y + 4] apart. *)
Theorem render_value_short_overflow
  (elem : dash_element_t) (fb : framebuffer_t) (px py : Z) (mem : gmap Z Z) :
  fb_wf fb -> 0 <= px < fb_width fb -> 0 <= py < fb_height fb ->
  0 <= el_x elem -> 0 <= el_y elem ->
  el_x elem + 25 <= 2 ^ 32 -> el_y elem + 5 <= 2 ^ 32 -> fb_height fb <= 2 ^ 32 - 5 ->
  0 <= el_height elem < 10 ->
  el_x elem + 5 <= px < el_x elem + 25 ->
  ~ (el_y elem + el_height elem - 5 <= py < el_y elem + 5) ->
  render_value elem fb mem !! fb_index fb px py = Some (indicator_color elem).
Proof.
  intros Hwf Hpx Hpy Hx Hy Hx25 Hy5 Hfh Hh Hcol Hrow.
  apply render_value_short; assumption || lia.
Qed.

Lemma render_value_short_overflow_witness :
  render_value value_short fb_hd ∅ !! fb_index fb_hd 110 0 = Some (indicator_color value_short)
  /\ render_value value_short fb_hd ∅ !! fb_index fb_hd 110 1079
     = Some (indicator_color value_short).
Proof.
  split.
  - apply (render_value_short_overflow value_short fb_hd 110 0 ∅);
      [exact fb_hd_wf | cbn; lia ..].
  - apply (render_value_short_overflow value_short fb_hd 110 1079 ∅);
      [exact fb_hd_wf | cbn; lia ..].
Defined.

(** (X18) A Graph of width 2 or more and of height 1 or more, with
    [x + width] at most [2^32 - 2], [y + height] at most [2^32] and
    [3 * height] below [2^32], is drawn in finitely many steps
    ([render_graph] returns, given [2^30] turns for each loop) as the
    box of a Label with three grid lines on top: on the rows
    [y + height * i / 4], [i = 1, 2, 3], every fourth pixel from [x + 2]
    and below [x + width - 2] is gray.  The pixels of the display
    outside the box keep their colour. *)
Theorem render_graph_pixels
  (fuel : nat) (elem : dash_element_t) (fb : framebuffer_t) (mem : gmap Z Z) :
  fb_wf fb -> 2 ^ 30 < Z.of_nat fuel ->
  0 <= el_x elem -> 0 <= el_y elem -> 2 <= el_width elem -> 0 < el_height elem ->
  el_x elem + el_width elem <= 2 ^ 32 - 2 -> el_y elem + el_height elem <= 2 ^ 32 ->
  el_height elem * 3 < 2 ^ 32 ->
  exists mem',
    render_graph fuel elem fb mem = Some mem'
    /\ forall px py,
         0 <= px < fb_width fb -> 0 <= py < fb_height fb ->
         mem' !! fb_index fb px py
         = if in_box (el_x elem) (el_y elem) (el_width elem) (el_height elem) px py
           then Some (graph_pixel elem px py)
           else mem !! fb_index fb px py.
Proof.
  intros Hwf Hfuel Hx Hy Hw Hh Hxw Hyh Hh3.
  assert (Hok : U32.sub (U32.add (el_x elem) (el_width elem)) 2 <= U32.modulus - 4).
  { unfold U32.sub, U32.add. rewrite (u32_wrap_small (_ + _)) by (unfold U32.modulus; lia).
    rewrite u32_wrap_small by (unfold U32.modulus; lia). unfold U32.modulus. lia. }
  assert (Hrun : is_Some (render_graph fuel elem fb mem)).
  { unfold render_graph.
    destruct (graph_line_terminates fuel elem fb 1
                (fb_draw_rect fb (el_x elem) (el_y elem) (el_width elem) (el_height elem)
                   (el_color elem)
                   (fb_draw_filled_rect fb (el_x elem) (el_y elem) (el_width elem)
                      (el_height elem) COLOR_BLACK mem)) Hok Hfuel) as [m1 ->].
    destruct (graph_line_terminates fuel elem fb 2 m1 Hok Hfuel) as [m2 ->].
    now apply graph_line_terminates. }
  destruct Hrun as [mem' Hrun]. exists mem'. split; [assumption|].
  intros px py Hpx Hpy. now apply (render_graph_lookup elem fb px py fuel mem).
Qed.

Lemma render_graph_pixels_witness :
  exists mem',
    render_graph (Z.to_nat (2 ^ 30 + 1)) graph1 fb_hd ∅ = Some mem'
    /\ mem' !! fb_index fb_hd 52 300 = Some COLOR_GRAY
    /\ mem' !! fb_index fb_hd 53 300 = Some COLOR_BLACK
    /\ mem' !! fb_index fb_hd 50 300 = Some COLOR_YELLOW.
Proof.
  destruct (render_graph_pixels (Z.to_nat (2 ^ 30 + 1)) graph1 fb_hd ∅)
    as (mem' & Hrun & Hpix); [exact fb_hd_wf | rewrite Z2Nat.id; lia | cbn; lia ..|].
  exists mem'. split; [exact Hrun|].
  split; [|split]; rewrite Hpix by (cbn; lia); reflexivity.
Defined.

(** (X19) The fill of a gauge never passes its inner width: whatever
    the value, the minimum and the maximum (out of range, infinite or
    NaN included), the width of the fill is between 0 and [width - 4],
    for a gauge of width 4 to [2^24 + 3]. *)
Theorem gauge_fill_width_within (elem : dash_element_t) :
  F32.valid (el_value elem) = true -> F32.valid (el_min_value elem) = true ->
  F32.valid (el_max_value elem) = true ->
  4 <= el_width elem < 2 ^ 24 + 4 ->
  0 <= gauge_fill_width elem <= el_width elem - 4.
Proof. apply gauge_fill_width_le. Qed.

Lemma gauge_fill_width_within_witness :
  0 <= gauge_fill_width gauge_overflow <= el_width gauge_overflow - 4
  /\ 0 <= gauge_fill_width gauge_degenerate <= el_width gauge_degenerate - 4.
Proof.
  split.
  - apply (gauge_fill_width_within gauge_overflow); try reflexivity. cbn. lia.
  - apply (gauge_fill_width_within gauge_degenerate); try reflexivity. cbn. lia.
Defined.

(** (X20) For a gauge of width 4 to [2^24 + 3], with [min < max] and a
    difference [max - min] that does not overflow in binary32, the fill
    grows with the value: it is empty at [min], takes the whole inner
    width [width - 4] at [max], and never shrinks when the value
    rises. *)
Theorem gauge_fill_width_monotone (elem : dash_element_t) :
  F32.valid (el_min_value elem) = true -> F32.valid (el_max_value elem) = true ->
  F32.ltb (el_min_value elem) (el_max_value elem) = true ->
  F32.is_finite (F32.sub (el_max_value elem) (el_min_value elem)) = true ->
  4 <= el_width elem < 2 ^ 24 + 4 ->
  gauge_fill_width (set_value (el_min_value elem) elem) = 0
  /\ gauge_fill_width (set_value (el_max_value elem) elem) = el_width elem - 4
  /\ forall v1 v2,
       F32.valid v1 = true -> F32.valid v2 = true -> F32.leb v1 v2 = true ->
       gauge_fill_width (set_value v1 elem) <= gauge_fill_width (set_value v2 elem).
Proof.
  intros Vmn Vmx Hlt Hfin Hw.
  destruct (gauge_fill_width_ends elem Vmn Vmx Hlt Hfin Hw) as [Hmin Hmax].
  split; [assumption|]. split; [assumption|].
  intros v1 v2. now apply gauge_fill_width_mono.
Qed.

Lemma gauge_fill_width_monotone_witness :
  gauge_fill_width (set_value (F32.of_Z (-15)) gauge_boost) = 0
  /\ gauge_fill_width (set_value (F32.of_Z 30) gauge_boost) = 400 - 4
  /\ gauge_fill_width (set_value (F32.of_Z (-20)) gauge_boost)
     <= gauge_fill_width (set_value (F32.of_Z 10) gauge_boost).
Proof.
  destruct (gauge_fill_width_monotone gauge_boost) as (Hmin & Hmax & Hmono);
    try (vm_compute; reflexivity); [cbn; lia|].
  split; [exact Hmin|]. split; [exact Hmax|].
  apply Hmono; vm_compute; reflexivity.
Defined.

(** (X21) An element that fits the display and is not smaller than its
    decorations is drawn inside its own box: rendering it returns, gives
    every pixel of the box the colour of the element there, and leaves
    every pixel of the display outside the box as it was. *)
Theorem render_element_confined
  (fuel : nat) (fb : framebuffer_t) (elem : dash_element_t) (mem : gmap Z Z) (px py : Z) :
  fb_wf fb -> element_fits fb elem -> 2 ^ 30 < Z.of_nat fuel ->
  0 <= px < fb_width fb -> 0 <= py < fb_height fb ->
  exists mem',
    render_element fuel fb elem mem = Some mem'
    /\ (in_box (el_x elem) (el_y elem) (el_width elem) (el_height elem) px py = false ->
        mem' !! fb_index fb px py = mem !! fb_index fb px py)
    /\ (in_box (el_x elem) (el_y elem) (el_width elem) (el_height elem) px py = true ->
        mem' !! fb_index fb px py = Some (element_pixel elem px py)).
Proof.
  intros Hwf Hfits Hfuel Hpx Hpy.
  destruct (render_element_lookup fuel fb elem mem px py Hwf Hfits Hfuel Hpx Hpy)
    as (mem' & Hrun & Hpix).
  exists mem'. split; [assumption|].
  split; intros Hbox; now rewrite Hpix, Hbox.
Qed.

Lemma render_element_confined_witness :
  exists mem',
    render_element (Z.to_nat (2 ^ 30 + 1)) fb_hd gauge1 ∅ = Some mem'
    /\ mem' !! fb_index fb_hd 49 50 = (∅ : gmap Z Z) !! fb_index fb_hd 49 50
    /\ mem' !! fb_index fb_hd 50 50 = Some (element_pixel gauge1 50 50).
Proof.
  assert (Hfits : element_fits fb_hd gauge1).
  { repeat split; try (vm_compute; reflexivity); try (cbn; lia);
      vm_compute; discriminate. }
  assert (Hfuel : 2 ^ 30 < Z.of_nat (Z.to_nat (2 ^ 30 + 1))) by (rewrite Z2Nat.id; lia).
  destruct (render_element_confined (Z.to_nat (2 ^ 30 + 1)) fb_hd gauge1 ∅ 49 50
              fb_hd_wf Hfits Hfuel)
    as (mem' & Hrun & Hout & _); [cbn; lia | cbn; lia |].
  destruct (render_element_confined (Z.to_nat (2 ^ 30 + 1)) fb_hd gauge1 ∅ 50 50
              fb_hd_wf Hfits Hfuel)
    as (mem2 & Hrun2 & _ & Hin); [cbn; lia | cbn; lia |].
  exists mem'. split; [exact Hrun|]. split; [apply Hout; reflexivity|].
  rewrite Hrun in Hrun2. injection Hrun2 as ->. apply Hin. reflexivity.
Defined.

(** ** dashboard.c: the frame *)

(** (X22) A frame does not depend on what the display showed before:
    if [dashboard_render] returns from one memory it returns from any
    other, and the two results hold the same colour at every pixel of
    the region, each of them painted. *)
Theorem dashboard_render_covers_display
  (fuel : nat) (dash : dashboard_t) (fb : framebuffer_t) (mem1 mem2 out1 : gmap Z Z) :
  dashboard_render fuel dash fb mem1 = Some out1 ->
  exists out2,
    dashboard_render fuel dash fb mem2 = Some out2
    /\ forall i, in_region fb i -> is_Some (out1 !! i) /\ out1 !! i = out2 !! i.
Proof.
  unfold dashboard_render. intros H1.
  pose proof (paints_opt_render_elements fuel fb
                (take (Z.to_nat (element_count dash)) (elements dash))) as Hpaints.
  destruct (paints_opt_returns _ (fb_clear fb COLOR_BLACK mem1) (fb_clear fb COLOR_BLACK mem2)
              Hpaints) as [out2 H2]; [eauto|].
  exists out2. split; [assumption|].
  intros i Hi. apply (paints_opt_lookup _ i Hpaints _ _ _ _ H1 H2).
  - rewrite fb_clear_in by assumption. eauto.
  - now rewrite !fb_clear_in.
Qed.

Lemma dashboard_render_covers_display_witness :
  exists out2,
    dashboard_render 8 demo_dashboard fb_demo {[ 3 := COLOR_RED ]} = Some out2
    /\ forall i, in_region fb_demo i ->
         is_Some (default ∅ (dashboard_render 8 demo_dashboard fb_demo ∅) !! i)
         /\ default ∅ (dashboard_render 8 demo_dashboard fb_demo ∅) !! i = out2 !! i.
Proof.
  apply (dashboard_render_covers_display 8 demo_dashboard fb_demo ∅).
  vm_compute. reflexivity.
Defined.

(** (X23) A frame stays inside the region: [dashboard_render] changes
    no word of the buffer that is not the word of a pixel with
    [x < width] and [y < height], whatever the geometry of the
    elements. *)
Theorem dashboard_render_stays_in_region
  (fuel : nat) (dash : dashboard_t) (fb : framebuffer_t) (mem out : gmap Z Z) (i : Z) :
  Forall (fun e => 0 <= el_x e /\ 0 <= el_y e) (shown dash) -> ~ in_region fb i ->
  dashboard_render fuel dash fb mem = Some out -> out !! i = mem !! i.
Proof.
  intros Hall Hi Hrun. unfold dashboard_render in Hrun.
  rewrite (render_elements_frame fuel fb i _ Hall Hi _ _ Hrun).
  now apply fb_clear_frame.
Qed.

Lemma dashboard_render_stays_in_region_witness :
  default ∅ (dashboard_render 8 demo_dashboard fb_demo {[ 200 := COLOR_RED ]}) !! 200
  = ({[ 200 := COLOR_RED ]} : gmap Z Z) !! 200.
Proof.
  apply (dashboard_render_stays_in_region 8 demo_dashboard fb_demo).
  - repeat constructor; vm_compute; discriminate.
  - exact fb_demo_not_in_region.
  - vm_compute. reflexivity.
Defined.




(** (X27) A Gauge of height below 4 is drawn outside its box: the
    height of the fill, [height - 4], wraps to almost [2^32], and a fill
    that is not empty covers its columns over every row of the display,
    the rows from [y + height - 2] to [y + 1] apart. *)
Theorem render_gauge_short_overflow
  (elem : dash_element_t) (fb : framebuffer_t) (px py : Z) (mem : gmap Z Z) :
  fb_wf fb -> 0 <= px < fb_width fb -> 0 <= py < fb_height fb ->
  0 <= el_x elem -> 0 <= el_y elem ->
  el_x elem + 2 + gauge_fill_width elem <= 2 ^ 32 -> el_y elem + 2 <= 2 ^ 32 ->
  fb_height fb <= 2 ^ 32 - 2 ->
  0 <= el_height elem < 4 ->
  el_x elem + 2 <= px < el_x elem + 2 + gauge_fill_width elem ->
  ~ (el_y elem + el_height elem - 2 <= py < el_y elem + 2) ->
  render_gauge elem fb mem !! fb_index fb px py = Some (el_color elem).
Proof.
  intros Hwf Hpx Hpy Hx Hy Hxf Hy2 Hfh Hh Hcol Hrow.
  destruct (fb_wf_bounds fb px py Hwf Hpx Hpy) as [Hw32 Hh32].
  unfold render_gauge.
  assert (Hpos : (0 <? gauge_fill_width elem) = true) by (apply Z.ltb_lt; lia).
  rewrite Hpos, fb_draw_filled_rect_lookup by assumption.
  assert (Hhit : fill_hit (U32.add (el_x elem) 2) (U32.add (el_y elem) 2)
                   (gauge_fill_width elem) (U32.sub (el_height elem) 4) px py = true).
  { unfold fill_hit. apply andb_true_iff. rewrite !Z.ltb_lt.
    assert (Eh : U32.sub (el_height elem) 4 = el_height elem - 4 + 2 ^ 32).
    { unfold U32.sub, U32.wrap, U32.modulus.
      rewrite <- (Z_mod_plus_full (el_height elem - 4) 1 (2 ^ 32)).
      apply Z.mod_small. lia. }
    rewrite Eh. unfold U32.sub, U32.add, U32.wrap, U32.modulus.
    rewrite !Zminus_mod_idemp_r.
    change (2 ^ 32) with 4294967296 in *.
    split; Z.to_euclidean_division_equations; lia. }
  now rewrite Hhit.
Qed.

Lemma render_gauge_short_overflow_witness :
  render_gauge gauge_short fb_hd ∅ !! fb_index fb_hd 150 0 = Some (el_color gauge_short)
  /\ render_gauge gauge_short fb_hd ∅ !! fb_index fb_hd 150 1079 = Some (el_color gauge_short).
Proof.
  split.
  - apply (render_gauge_short_overflow gauge_short fb_hd 150 0 ∅);
      [exact fb_hd_wf | vm_compute; intuition discriminate ..].
  - apply (render_gauge_short_overflow gauge_short fb_hd 150 1079 ∅);
      [exact fb_hd_wf | vm_compute; intuition discriminate ..].
Defined.

(** (X28) A frame may never be finished.  The end of a grid line of a
    Graph, [x + width - 2], is computed modulo [2^32]; when it is
    [2^32 - 1] and [x] is a multiple of 4 (a graph at [x = 0] of width
    1), the counter, which advances by 4, wraps before it reaches it:
    [dashboard_render] does not return for a dashboard that shows such a
    graph, however many turns its loops are allowed. *)
Theorem dashboard_render_hangs
  (fuel : nat) (dash : dashboard_t) (fb : framebuffer_t) (mem : gmap Z Z)
  (elem : dash_element_t) :
  elem ∈ shown dash -> el_type elem = DASH_ELEMENT_GRAPH ->
  0 <= el_x elem <= 2 ^ 32 - 4 -> el_x elem mod 4 = 0 ->
  U32.sub (U32.add (el_x elem) (el_width elem)) 2 = U32.modulus - 1 ->
  render_graph fuel elem fb mem = None
  /\ dashboard_render fuel dash fb mem = None.
Proof.
  intros Hin Htype Hx Hx4 Hend. split.
  - now apply render_graph_hangs.
  - now apply (dashboard_render_stuck dash elem).
Qed.

Lemma dashboard_render_hangs_witness :
  render_graph 1000 graph_thin fb_hd ∅ = None
  /\ dashboard_render 1000
       (dashboard_add_element (dashboard_init blank_dashboard kernel_name) graph_thin)
       fb_hd ∅ = None.
Proof.
  apply (dashboard_render_hangs 1000
           (dashboard_add_element (dashboard_init blank_dashboard kernel_name) graph_thin)
           fb_hd ∅ graph_thin).
  - apply (list_elem_of_lookup_2 _ 0%nat). reflexivity.
  - reflexivity.
  - cbn. lia.
  - reflexivity.
  - vm_compute. reflexivity.
Defined.

(** ** kernel.c *)

Lemma fb_init_cases
  (device : Type) (dev_read : Z -> device * list Z -> Z * (device * list Z))
  (dev_write : Z -> Z -> device * list Z -> device * list Z) (mailbox_addr : Z)
  (fuel : nat) (fb : framebuffer_t) (width height : Z)
  (w : device * list Z) (rc : Z) (fb' : framebuffer_t) (w' : device * list Z) :
  fb_init device dev_read dev_write mailbox_addr fuel fb width height w = Some (rc, fb', w') ->
  (rc = 0 /\ fb_width fb' = width /\ fb_height fb' = height
   /\ word (snd w') 1 = MAILBOX_RESPONSE_OK)
  \/ (rc = -1 /\ fb' = fb /\ word (snd w') 1 <> MAILBOX_RESPONSE_OK).
Proof.
  unfold fb_init.
  destruct (mailbox_call _ _ _ _ _ _ _) as [[ack w1]|] eqn:Hcall; [|discriminate].
  apply mailbox_call_result in Hcall.
  destruct ack; intros [= <- <- <-]; symmetry in Hcall.
  - left. apply Z.eqb_eq in Hcall. auto.
  - right. apply Z.eqb_neq in Hcall. auto.
Qed.

(** (X24) [kernel_main] asks for 1920 by 1080 and, only if that fails,
    for 1280 by 720, and goes on whatever the second answer.  When the
    first request is acknowledged the handle is the one it filled, of
    1920 by 1080, and no second request is made.  When the first request
    is refused the second is made with the same handle on the state the
    first left, and the display is what the second leaves: 1280 by 720
    with the pitch and the address of the answer when it is
    acknowledged, and otherwise still the uninitialised local object.
    So the handle [kernel_main] draws with has one of the two sizes or
    is uninitialised. *)
Theorem kernel_display_cases
  (device : Type) (dev_read : Z -> device * list Z -> Z * (device * list Z))
  (dev_write : Z -> Z -> device * list Z -> device * list Z) (mailbox_addr : Z)
  (fuel : nat) (fb : framebuffer_t) (w : device * list Z)
  (fb' : framebuffer_t) (w' : device * list Z) :
  kernel_display device dev_read dev_write mailbox_addr fuel fb w = Some (fb', w') ->
  ((fb_width fb' = 1920 /\ fb_height fb' = 1080)
   \/ (fb_width fb' = 1280 /\ fb_height fb' = 720)
   \/ (fb' = fb /\ word (snd w') 1 <> MAILBOX_RESPONSE_OK))
  /\ (forall fb1 w1,
        fb_init device dev_read dev_write mailbox_addr fuel fb 1920 1080 w = Some (0, fb1, w1) ->
        fb' = fb1 /\ w' = w1 /\ fb_width fb' = 1920 /\ fb_height fb' = 1080)
  /\ (forall rc1 fb1 w1,
        fb_init device dev_read dev_write mailbox_addr fuel fb 1920 1080 w
        = Some (rc1, fb1, w1) ->
        rc1 <> 0 ->
        fb1 = fb
        /\ (exists rc2,
              fb_init device dev_read dev_write mailbox_addr fuel fb 1280 720 w1
              = Some (rc2, fb', w'))
        /\ (word (snd w') 1 = MAILBOX_RESPONSE_OK ->
            fb' = {| fb_width := 1280; fb_height := 720;
                     fb_pitch := word (snd w') 33;
                     fb_buffer := Z.land (word (snd w') 28) 0x3FFFFFFF |})
        /\ (word (snd w') 1 <> MAILBOX_RESPONSE_OK -> fb' = fb)).
Proof.
  unfold kernel_display.
  destruct (fb_init _ _ _ _ fuel fb 1920 1080 w) as [[[rc fb1] w1]|] eqn:H1; [|discriminate].
  pose proof H1 as Hfirst.
  apply fb_init_cases in H1 as [(-> & Hw & Hh & _) | (-> & -> & _)].
  - cbn. intros [= <- <-]. split; [now left|]. split.
    + intros fb2 w2 [= <- <-]. auto.
    + intros rc2 fb2 w2 [= <- <- <-] Hrc. now contradiction Hrc.
  - cbn.
    destruct (fb_init _ _ _ _ fuel fb 1280 720 w1) as [[[rc2 fb2] w2]|] eqn:H2; [|discriminate].
    intros [= <- <-]. pose proof H2 as Hsecond. split; [|split].
    + apply fb_init_cases in H2 as [(_ & Hw & Hh & _) | (_ & -> & Hnak)]; auto.
    + intros fb3 w3 [=].
    + intros rc3 fb3 w3 [= <- <- <-] _. split; [reflexivity|].
      split; [now exists rc2|].
      unfold fb_init in Hsecond.
      destruct (mailbox_call _ _ _ _ _ _ _) as [[ack w3]|] eqn:Hcall; [|discriminate].
      apply mailbox_call_result in Hcall.
      destruct ack; injection Hsecond as <- <- <-; symmetry in Hcall.
      * split; [reflexivity|]. apply Z.eqb_eq in Hcall. intros Hnak. now contradiction Hnak.
      * apply Z.eqb_neq in Hcall. split; [intros Hack; now contradiction Hcall | reflexivity].
Qed.

Lemma kernel_display_cases_witness :
  kernel_display Z fw_read (fw_write_720p 0xC0100000 5120) 0x80010 3 fb0 (0, replicate 36 0)
  = Some (fb_720p,
          (0x80018,
           <[33%nat := 5120]>
             (<[28%nat := 0xC0100000]>
                (<[1%nat := MAILBOX_RESPONSE_OK]>
                   (store_words (fb_request 1280 720)
                      (<[1%nat := 0x80000001]>
                         (store_words (fb_request 1920 1080) (replicate 36 0))))))))
  /\ fb_720p = {| fb_width := 1280; fb_height := 720; fb_pitch := 5120;
                  fb_buffer := Z.land 0xC0100000 0x3FFFFFFF |}.
Proof.
  assert (Hrun : kernel_display Z fw_read (fw_write_720p 0xC0100000 5120) 0x80010 3 fb0
                   (0, replicate 36 0)
                 = Some (fb_720p,
                         (0x80018,
                          <[33%nat := 5120]>
                            (<[28%nat := 0xC0100000]>
                               (<[1%nat := MAILBOX_RESPONSE_OK]>
                                  (store_words (fb_request 1280 720)
                                     (<[1%nat := 0x80000001]>
                                        (store_words (fb_request 1920 1080)
                                           (replicate 36 0))))))))).
  { vm_compute. reflexivity. }
  split; [exact Hrun|].
  destruct (kernel_display_cases Z fw_read (fw_write_720p 0xC0100000 5120) 0x80010 3 fb0
              (0, replicate 36 0) _ _ Hrun) as (_ & _ & Hsecond).
  destruct (Hsecond (-1) fb0
              (0x80018, <[1%nat := 0x80000001]>
                          (store_words (fb_request 1920 1080) (replicate 36 0))))
    as (_ & _ & Hack & _); [vm_compute; reflexivity | discriminate |].
  rewrite Hack at 1; [|vm_compute; reflexivity].
  vm_compute. reflexivity.
Defined.



